(** * Shilling Sense: the enrichment cascade and the budget statistics

    A shallow embedding of [services/heuristicService.ts],
    [services/merchantCategoryMapService.ts], [services/cachingService.ts],
    [services/geminiService.ts] and the planning computation of
    [components/modals/BudgetModal.tsx].

    Conventions.
    - A JavaScript string is a [string] whose characters are the code units
      U+0000..U+00FF.
    - A JavaScript number is an exact rational ([Q]); NaN and the infinities
      have no counterpart, and [Math.sqrt] is a parameter of the planning
      computation.
    - [async] code runs to completion on a [World]: the on-device caches, the
      durable storage, the remote model (an oracle indexed by the number of
      calls made so far), two ghost counters that record cache reads and
      remote calls, and the log of the pauses taken between attempts. *)

From Stdlib Require Import ZArith QArith Qabs Qround Lqa.
From Stdlib Require Import Ascii String DecimalString List Bool Lia.
From Stdlib Require Import Sorting.Sorted Sorting.Permutation.
From stdpp Require Import gmap strings sorting.
Import ListNotations.

Local Open Scope string_scope.

(** ** JavaScript strings *)

Module Js.

Definition code (c : ascii) : N := N_of_ascii c.

Definition between (lo hi : N) (c : ascii) : bool :=
  ((lo <=? code c) && (code c <=? hi))%N.

Definition isDigit : ascii -> bool := between 48 57.
Definition isUpperAZ : ascii -> bool := between 65 90.
Definition isLowerAZ : ascii -> bool := between 97 122.

(** [\w] *)
Definition isWord (c : ascii) : bool :=
  isDigit c || isUpperAZ c || isLowerAZ c || (code c =? 95)%N.

(** [\s], and the characters [trim] strips: TAB, LF, VT, FF, CR, SP, NBSP. *)
Definition isSpace (c : ascii) : bool :=
  between 9 13 c || (code c =? 32)%N || (code c =? 160)%N.

(** [.] without the [s] flag: everything but a line terminator. *)
Definition isDot (c : ascii) : bool :=
  negb ((code c =? 10)%N || (code c =? 13)%N).

Definition toLowerChar (c : ascii) : ascii :=
  if isUpperAZ c || (between 192 222 c && negb (code c =? 215)%N)
  then ascii_of_N (code c + 32) else c.

Definition toUpperChar (c : ascii) : ascii :=
  if isLowerAZ c || (between 224 254 c && negb (code c =? 247)%N)
  then ascii_of_N (code c - 32) else c.

Fixpoint toLowerCase (s : string) : string :=
  match s with
  | EmptyString => EmptyString
  | String c s' => String (toLowerChar c) (toLowerCase s')
  end.

Fixpoint trimStart (s : string) : string :=
  match s with
  | String c s' => if isSpace c then trimStart s' else s
  | EmptyString => EmptyString
  end.

(** [trimEnd]: a character is kept when it is not a space or something is
    kept after it. *)
Fixpoint trimEnd (s : string) : string :=
  match s with
  | EmptyString => EmptyString
  | String c s' =>
      match trimEnd s' with
      | EmptyString => if isSpace c then EmptyString else String c EmptyString
      | r => String c r
      end
  end.

Definition trim (s : string) : string := trimEnd (trimStart s).

(** [s.replace(/\s+/g, ' ')]: [inRun] tells that the previous character
    belonged to the run of spaces being replaced. *)
Fixpoint collapseFrom (inRun : bool) (s : string) : string :=
  match s with
  | EmptyString => EmptyString
  | String c s' =>
      if isSpace c
      then (if inRun then collapseFrom true s'
            else String " "%char (collapseFrom true s'))
      else String c (collapseFrom false s')
  end.

Definition collapseSpaces : string -> string := collapseFrom false.

(** [s.includes(k)] *)
Fixpoint includes (s k : string) : bool :=
  String.prefix k s ||
  match s with
  | EmptyString => false
  | String _ s' => includes s' k
  end.

(** Truthiness of a possibly missing string: [undefined], [null] and the
    empty string are falsy. *)
Definition truthy (o : option string) : bool :=
  match o with
  | Some s => negb (String.eqb s "")
  | None => false
  end.

(** [a || b] on a possibly missing string with a string default. *)
Definition orElse (o : option string) (d : string) : string :=
  match o with
  | Some s => if String.eqb s "" then d else s
  | None => d
  end.

End Js.

(** ** A backtracking matcher for the regular expressions of the rule lists *)

Module Regex.

(** The constructs the rule lists use. Every quantifier there ranges over a
    single character class; there is one capture group per rule. *)
Inductive regex : Type :=
| Lit (s : string)
| Class (p : ascii -> bool)
| Seq (r1 r2 : regex)
| Alt (r1 r2 : regex)
| Rep (greedy : bool) (lo : nat) (hi : option nat) (p : ascii -> bool)
| Group (r : regex)
| EndOfInput
| LookAhead (r : regex).

(** The [i] flag: two characters match when they agree up to case. *)
Definition sameChar (a b : ascii) : bool :=
  Ascii.eqb (Js.toUpperChar a) (Js.toUpperChar b).

Definition icase (p : ascii -> bool) (c : ascii) : bool :=
  p c || p (Js.toUpperChar c) || p (Js.toLowerChar c).

Fixpoint lit (l s : string) : option string :=
  match l, s with
  | EmptyString, _ => Some s
  | String a l', String b s' => if sameChar a b then lit l' s' else None
  | String _ _, EmptyString => None
  end.

Definition decHi (hi : option nat) : option nat :=
  match hi with Some n => Some (Nat.pred n) | None => None end.

Definition exhausted (hi : option nat) : bool :=
  match hi with Some 0 => true | _ => false end.

(** What a successful match hands back: the rest of the input and the text
    of group 1. *)
Definition R : Type := string * option string.

(** [p{lo,hi}?]: the shortest repetition the continuation accepts. *)
Fixpoint repLazy (p : ascii -> bool) (lo : nat) (hi : option nat)
         (s : string) (k : string -> option R) {struct s} : option R :=
  let step :=
    match s with
    | String c s' =>
        if negb (exhausted hi) && icase p c
        then repLazy p (Nat.pred lo) (decHi hi) s' k else None
    | EmptyString => None
    end in
  match lo with
  | S _ => step
  | 0 => match k s with Some r => Some r | None => step end
  end.

(** [p{lo,hi}]: the longest repetition the continuation accepts. *)
Fixpoint repGreedy (p : ascii -> bool) (lo : nat) (hi : option nat)
         (s : string) (k : string -> option R) {struct s} : option R :=
  let step :=
    match s with
    | String c s' =>
        if negb (exhausted hi) && icase p c
        then repGreedy p (Nat.pred lo) (decHi hi) s' k else None
    | EmptyString => None
    end in
  match step with
  | Some r => Some r
  | None => match lo with 0 => k s | S _ => None end
  end.

(** [run r s cap k]: match [r] at the start of [s], then continue with
    [k] on the rest and on the text captured so far; [None] backtracks. *)
Fixpoint run (r : regex) (s : string) (cap : option string)
         (k : string -> option string -> option R) : option R :=
  match r with
  | Lit l => match lit l s with Some s' => k s' cap | None => None end
  | Class p =>
      match s with
      | String c s' => if icase p c then k s' cap else None
      | EmptyString => None
      end
  | Seq r1 r2 => run r1 s cap (fun s' cap' => run r2 s' cap' k)
  | Alt r1 r2 =>
      match run r1 s cap k with
      | Some x => Some x
      | None => run r2 s cap k
      end
  | Rep true lo hi p => repGreedy p lo hi s (fun s' => k s' cap)
  | Rep false lo hi p => repLazy p lo hi s (fun s' => k s' cap)
  | Group r1 =>
      run r1 s cap (fun s' _ =>
        k s' (Some (String.substring 0 (String.length s - String.length s') s)))
  | EndOfInput => match s with EmptyString => k s cap | _ => None end
  | LookAhead r1 =>
      match run r1 s cap (fun s' cap' => Some (s', cap')) with
      | Some (_, cap') => k s cap'
      | None => None
      end
  end.

Definition matchAt (r : regex) (s : string) : option (option string) :=
  match run r s None (fun s' cap => Some (s', cap)) with
  | Some (_, cap) => Some cap
  | None => None
  end.

(** [s.match(r)] for a regular expression without the [g] flag: the
    leftmost match; the result is the text of group 1 ([None] inside when
    the group took no part in the match). *)
Fixpoint jsMatch (r : regex) (s : string) : option (option string) :=
  match matchAt r s with
  | Some cap => Some cap
  | None =>
      match s with
      | EmptyString => None
      | String _ s' => jsMatch r s'
      end
  end.

End Regex.

(** ** Pattern Extractor ([services/heuristicService.ts]) *)

Module Heuristic.
Import Regex.

Record HeuristicData : Type := {
  merchant : option string;
  cacheKey : string
}.

Record Extractor : Type := {
  regex_ : regex;
  prefix : option string
}.

Definition dotLazy : regex := Rep false 1 None Js.isDot.
Definition dotStar : regex := Rep true 0 None Js.isDot.
Definition digits (n : nat) : regex := Rep true n (Some n) Js.isDigit.
Definition digits1 : regex := Rep true 1 None Js.isDigit.
Definition isChar (a : ascii) (c : ascii) : bool := Ascii.eqb a c.

Infix ">>" := Seq (at level 60, right associativity).

(** Rules to extract merchant names, in the order of the source; [group]
    is 1 in every rule. *)
Definition merchantExtractors : list Extractor := [
  (* /Lipa na M-PESA to (.+?)(?: Transaction ID:|$)/i *)
  {| regex_ := Lit "Lipa na M-PESA to " >> Group dotLazy >>
               Alt (Lit " Transaction ID:") EndOfInput;
     prefix := None |};
  (* /Pay Bill to (.+?)(?: Acc No\..*|$)/i *)
  {| regex_ := Lit "Pay Bill to " >> Group dotLazy >>
               Alt (Lit " Acc No." >> dotStar) EndOfInput;
     prefix := None |};
  (* /M-PESA Paybill, (.+?),/i *)
  {| regex_ := Lit "M-PESA Paybill, " >> Group dotLazy >> Lit ",";
     prefix := None |};
  (* /Card Purchase at (.+?)(?: on .*|$)/i *)
  {| regex_ := Lit "Card Purchase at " >> Group dotLazy >>
               Alt (Lit " on " >> dotStar) EndOfInput;
     prefix := None |};
  (* /Withdrawal from Agent ([\d\w\s-]+?)(?: at .*|$)/i *)
  {| regex_ := Lit "Withdrawal from Agent " >>
               Group (Rep false 1 None
                        (fun c => Js.isDigit c || Js.isWord c || Js.isSpace c
                                  || isChar "-" c)) >>
               Alt (Lit " at " >> dotStar) EndOfInput;
     prefix := Some "Agent " |};
  (* /KE-[\d-]+\s+([A-Z][A-Z\s&]+?)(?=\s+(?:\d|PESA)|\|)/i *)
  {| regex_ := Lit "KE-" >>
               Rep true 1 None (fun c => Js.isDigit c || isChar "-" c) >>
               Rep true 1 None Js.isSpace >>
               Group (Class Js.isUpperAZ >>
                      Rep false 1 None
                        (fun c => Js.isUpperAZ c || Js.isSpace c
                                  || isChar "&" c)) >>
               LookAhead (Alt (Rep true 1 None Js.isSpace >>
                               Alt (Class Js.isDigit) (Lit "PESA"))
                              (Lit "|"));
     prefix := None |};
  (* /DEBIT CARD TXN AT (.+?)(?:\s{2,}|\d{2}-\d{2}-\d{4})/i *)
  {| regex_ := Lit "DEBIT CARD TXN AT " >> Group dotLazy >>
               Alt (Rep true 2 None Js.isSpace)
                   (digits 2 >> Lit "-" >> digits 2 >> Lit "-" >> digits 4);
     prefix := None |};
  (* /IBANKING TRF (?:TO|FROM) \d+ (.+?)$/i *)
  {| regex_ := Lit "IBANKING TRF " >> Alt (Lit "TO") (Lit "FROM") >>
               Lit " " >> digits1 >> Lit " " >> Group dotLazy >> EndOfInput;
     prefix := None |};
  (* /PESA \S+ (.+?) \d{4}/i *)
  {| regex_ := Lit "PESA " >>
               Rep true 1 None (fun c => negb (Js.isSpace c)) >>
               Lit " " >> Group dotLazy >> Lit " " >> digits 4;
     prefix := None |};
  (* /RTGS .+ ITF (.+?) KE/i *)
  {| regex_ := Lit "RTGS " >> Rep true 1 None Js.isDot >> Lit " ITF " >>
               Group dotLazy >> Lit " KE";
     prefix := None |}
].

(** The rule list of the second copy of the service in the repository: the
    first five rules are the same, the bank-format rules differ. *)
Definition merchantExtractorsRevised : list Extractor :=
  firstn 5 merchantExtractors ++ [
  (* /IBKG MPESA PAY TO \d+-(.+?)-MOBILE MONEY/i *)
  {| regex_ := Lit "IBKG MPESA PAY TO " >> digits1 >> Lit "-" >> Group dotLazy >>
               Lit "-MOBILE MONEY";
     prefix := None |};
  (* /DEBIT CARD TXN AT (.+?)(?:\s{2,}| \d{2}-\d{2}-\d{4})/i *)
  {| regex_ := Lit "DEBIT CARD TXN AT " >> Group dotLazy >>
               Alt (Rep true 2 None Js.isSpace)
                   (Lit " " >> digits 2 >> Lit "-" >> digits 2 >> Lit "-" >> digits 4);
     prefix := None |};
  (* /KE-\d+-\d+-\d+-\d+ (.+?) \d+/i *)
  {| regex_ := Lit "KE-" >> digits1 >> Lit "-" >> digits1 >> Lit "-" >> digits1 >>
               Lit "-" >> digits1 >> Lit " " >> Group dotLazy >> Lit " " >> digits1;
     prefix := None |};
  (* /IBKG MPESA PAY TO \d+-(.+?)-AIRTIME/i *)
  {| regex_ := Lit "IBKG MPESA PAY TO " >> digits1 >> Lit "-" >> Group dotLazy >>
               Lit "-AIRTIME";
     prefix := None |};
  (* /IBKG MPESA PAY TO \d+-(.+?)-MOBILE MONEY TRANSFER/i *)
  {| regex_ := Lit "IBKG MPESA PAY TO " >> digits1 >> Lit "-" >> Group dotLazy >>
               Lit "-MOBILE MONEY TRANSFER";
     prefix := None |}
].

(** The loop of [extractHeuristicData] over a rule list: the first rule
    whose match has a non-empty group 1 decides. *)
Fixpoint firstExtraction (rules : list Extractor) (trimmedDescription : string)
  : option string :=
  match rules with
  | [] => None
  | extractor :: rest =>
      match jsMatch (regex_ extractor) trimmedDescription with
      | Some (Some g) =>
          if String.eqb g "" then firstExtraction rest trimmedDescription
          else Some (Js.collapseSpaces
                       (Js.orElse (prefix extractor) "" ++ Js.trim g))
      | _ => firstExtraction rest trimmedDescription
      end
  end.

Definition extractWith (rules : list Extractor) (description : string)
  : HeuristicData :=
  let trimmedDescription := Js.trim description in
  match firstExtraction rules trimmedDescription with
  | Some m => {| merchant := Some m; cacheKey := m |}
  | None => {| merchant := None; cacheKey := trimmedDescription |}
  end.

Definition extractHeuristicData : string -> HeuristicData :=
  extractWith merchantExtractors.

End Heuristic.

(** ** Category Rule Table ([services/merchantCategoryMapService.ts]) *)

Module CategoryMap.

Record CategoryRule : Type := {
  keywords : list string;
  category : string
}.

Definition categoryRules : list CategoryRule := [
  {| keywords := ["naivas"; "carrefour"; "quickmart"; "chandarana"; "cleanshelf"];
     category := "Groceries" |};
  {| keywords := ["kplc"; "kenya power"; "prepaid"; "postpaid"];
     category := "Utilities" |};
  {| keywords := ["zuku"; "safaricom home"; "faiba"]; category := "Utilities" |};
  {| keywords := ["nairobi water"; "nwsc"]; category := "Utilities" |};
  {| keywords := ["java"; "artcaffe"; "kfc"; "dominos"; "pizza inn"; "chicken inn"];
     category := "Eating Out" |};
  {| keywords := ["uber"; "bolt"; "little cab"]; category := "Transport" |};
  {| keywords := ["total"; "shell"; "rubis"; "ola"]; category := "Transport" |};
  {| keywords := ["equity"; "kcb"; "co-op"; "coop"; "standard chartered";
                  "stanchart"; "absia"];
     category := "Internal Transfer" |};
  {| keywords := ["nhif"]; category := "Health" |};
  {| keywords := ["gotv"; "dstv"; "netflix"]; category := "Entertainment" |};
  {| keywords := ["jumia"; "kilimall"]; category := "Shopping" |}
].

Fixpoint lookupRules (rules : list CategoryRule) (lowerCaseMerchant : string)
  : option string :=
  match rules with
  | [] => None
  | rule :: rest =>
      if existsb (Js.includes lowerCaseMerchant) (keywords rule)
      then Some (category rule)
      else lookupRules rest lowerCaseMerchant
  end.

Definition getCategoryForMerchant (merchantName : string) : option string :=
  lookupRules categoryRules (Js.toLowerCase merchantName).

End CategoryMap.

(** ** Data model ([types.ts]) *)

Inductive TransactionType : Type := Expense | Income.

Record CategorizationExample : Type := {
  ex_description : string;
  ex_category : string
}.

(** [officialName] is [web.title || enrichedData.merchant] when it comes
    from a search result, which may be [undefined]. *)
Record EnrichedMerchantInfo : Type := {
  officialName : option string;
  website : string
}.

Record ParsedTransaction : Type := {
  pt_merchant : option string;
  pt_amount : Q;
  pt_category : option string;
  pt_type : TransactionType;
  pt_date : string;
  pt_description : string
}.

(** [ParsedTransaction & { enrichedInfo?: EnrichedMerchantInfo }] *)
Record EnrichedTransaction : Type := {
  et_merchant : option string;
  et_amount : Q;
  et_category : option string;
  et_type : TransactionType;
  et_date : string;
  et_description : string;
  et_enrichedInfo : option EnrichedMerchantInfo
}.

(** [{ ...transaction, merchant, category, enrichedInfo }] *)
Definition spread (transaction : ParsedTransaction)
           (merchant category : option string)
           (info : option EnrichedMerchantInfo) : EnrichedTransaction :=
  {| et_merchant := merchant;
     et_amount := pt_amount transaction;
     et_category := category;
     et_type := pt_type transaction;
     et_date := pt_date transaction;
     et_description := pt_description transaction;
     et_enrichedInfo := info |}.

(** ** The world the asynchronous code runs on *)

(** Data structure for cached enrichment info ([cachingService.ts]). *)
Record EnrichedData : Type := {
  ed_merchant : string;
  ed_category : string;
  ed_enrichedInfo : option EnrichedMerchantInfo
}.

(** The item stored under ['shilling-sense-merchant-cache']. *)
Inductive Stored : Type :=
| Missing
| Corrupted
| Blob (entries : gmap string EnrichedData).

(** A field of the JSON object the model answers with. *)
Inductive JsonField : Type :=
| Absent
| JNull
| Present (s : string).

(** [{ ...{ f: base }, ...reply }.f] *)
Definition override (base : option string) (f : JsonField) : option string :=
  match f with
  | Absent => base
  | JNull => None
  | Present s => Some s
  end.

Definition fieldValue (f : JsonField) : option string := override None f.

Record WebResult : Type := {
  web_title : option string;
  web_uri : option string
}.

(** What [cleanJsonInfo(response.text)] and the grounding metadata of one
    successful single-item call amount to. Keys of the reply other than
    [merchant], [category] and [enrichedInfo] are not modelled. *)
Record EnrichReply : Type := {
  reply_merchant : JsonField;
  reply_category : JsonField;
  reply_enrichedInfo : option EnrichedMerchantInfo;
  reply_groundingChunks : list (option WebResult)
}.

Inductive Task : Type := Categorize | Enrich.

(** The variable parts of the single-item prompt. *)
Record EnrichRequest : Type := {
  req_description : string;
  req_task : Task;
  req_merchant : option string;
  req_examples : list CategorizationExample
}.

Record TransactionToEnrich : Type := {
  te_index : nat;
  te_description : string;
  te_cacheKey : string;
  te_identifiedMerchant : option string
}.

Record BatchEnrichmentResult : Type := {
  br_index : nat;
  br_merchant : string;
  br_category : string;
  br_enrichedInfo : option EnrichedMerchantInfo
}.

Record BatchItem : Type := {
  bi_index : nat;
  bi_description : string;
  bi_task : Task;
  bi_merchant : option string
}.

(** The hosted model. Each entry answers the call whose number (counted
    from the start of the session) is the first argument; [None] stands for
    a call that throws, be it the transport or the parsing of the answer. *)
Record Remote : Type := {
  enrichReply : nat -> EnrichRequest -> option EnrichReply;
  batchReply : nat -> list CategorizationExample -> list BatchItem ->
               option (list BatchEnrichmentResult);
  validateReply : nat -> string -> string -> option bool;
  parseReply : nat -> string -> option (Q * string * TransactionType)
}.

Record World : Type := {
  ai : Remote;
  storage : Stored;
  storageWritable : bool;
  memoryCache : option (gmap string EnrichedData);
  validationCache : gmap string bool;
  remoteCalls : nat;
  cacheReads : nat;
  sleeps : list nat
}.

Definition setMemoryCache (m : gmap string EnrichedData) (w : World) : World :=
  {| ai := ai w; storage := storage w; storageWritable := storageWritable w;
     memoryCache := Some m; validationCache := validationCache w;
     remoteCalls := remoteCalls w; cacheReads := cacheReads w;
     sleeps := sleeps w |}.

Definition setStorage (st : Stored) (w : World) : World :=
  {| ai := ai w; storage := st; storageWritable := storageWritable w;
     memoryCache := memoryCache w; validationCache := validationCache w;
     remoteCalls := remoteCalls w; cacheReads := cacheReads w;
     sleeps := sleeps w |}.

Definition setValidationCache (v : gmap string bool) (w : World) : World :=
  {| ai := ai w; storage := storage w; storageWritable := storageWritable w;
     memoryCache := memoryCache w; validationCache := v;
     remoteCalls := remoteCalls w; cacheReads := cacheReads w;
     sleeps := sleeps w |}.

Definition countRemoteCall (w : World) : World :=
  {| ai := ai w; storage := storage w; storageWritable := storageWritable w;
     memoryCache := memoryCache w; validationCache := validationCache w;
     remoteCalls := S (remoteCalls w); cacheReads := cacheReads w;
     sleeps := sleeps w |}.

Definition countCacheRead (w : World) : World :=
  {| ai := ai w; storage := storage w; storageWritable := storageWritable w;
     memoryCache := memoryCache w; validationCache := validationCache w;
     remoteCalls := remoteCalls w; cacheReads := S (cacheReads w);
     sleeps := sleeps w |}.

(** [await new Promise(resolve => setTimeout(resolve, delay))] *)
Definition sleep (delay : nat) (w : World) : World :=
  {| ai := ai w; storage := storage w; storageWritable := storageWritable w;
     memoryCache := memoryCache w; validationCache := validationCache w;
     remoteCalls := remoteCalls w; cacheReads := cacheReads w;
     sleeps := sleeps w ++ [delay] |}.

(** An [async] function: it returns or throws, and leaves a new world. *)
Inductive Outcome (A : Type) : Type :=
| Returned (a : A)
| Thrown (message : string).
Arguments Returned {A} a.
Arguments Thrown {A} message.

Definition Async (A : Type) : Type := World -> Outcome A * World.

Definition ret {A} (a : A) : Async A := fun w => (Returned a, w).

Definition throw {A} (message : string) : Async A := fun w => (Thrown message, w).

Definition bind {A B} (m : Async A) (f : A -> Async B) : Async B :=
  fun w =>
    match m w with
    | (Returned a, w') => f a w'
    | (Thrown e, w') => (Thrown e, w')
    end.

(** [try { body } catch (error) { handler }] *)
Definition tryCatch {A} (body : Async A) (handler : string -> Async A) : Async A :=
  fun w =>
    match body w with
    | (Returned a, w') => (Returned a, w')
    | (Thrown e, w') => handler e w'
    end.

Definition modify (f : World -> World) : Async unit := fun w => (Returned tt, f w).

Declare Scope async_scope.
Delimit Scope async_scope with async.
Notation "x <- m ;; k" := (bind m (fun x => k))
  (at level 100, m at next level, right associativity) : async_scope.
Notation "m ;;; k" := (bind m (fun _ => k))
  (at level 100, right associativity) : async_scope.

(** ** Enrichment Cache ([services/cachingService.ts]) *)

Module Cache.
Local Open Scope async_scope.

(** What [JSON.parse] and [Object.entries] make of the stored item; a
    missing or corrupted item starts a fresh cache. *)
Definition hydrate (st : Stored) : gmap string EnrichedData :=
  match st with
  | Blob entries => entries
  | Missing | Corrupted => ∅
  end.

Definition getCache : Async (gmap string EnrichedData) :=
  fun w =>
    match memoryCache w with
    | Some m => (Returned m, w)
    | None => let m := hydrate (storage w) in (Returned m, setMemoryCache m w)
    end.

(** [setItem] may throw (quota); the error is logged and dropped. *)
Definition persistCache : Async unit :=
  fun w =>
    match memoryCache w with
    | Some m =>
        if storageWritable w then (Returned tt, setStorage (Blob m) w)
        else (Returned tt, w)
    | None => (Returned tt, w)
    end.

Definition getCachedEnrichment (key : string) : Async (option EnrichedData) :=
  cache <- getCache ;;
  modify countCacheRead ;;;
  ret (cache !! key).

Definition setCachedEnrichment (key : string) (data : EnrichedData) : Async unit :=
  cache <- getCache ;;
  modify (setMemoryCache (<[key := data]> cache)) ;;;
  persistCache.

(** The contents of the cache as the next read will see them. *)
Definition view (w : World) : gmap string EnrichedData :=
  match memoryCache w with
  | Some m => m
  | None => hydrate (storage w)
  end.

(** The world once the in-memory map has been hydrated. *)
Definition hydrated (w : World) : World :=
  match memoryCache w with
  | Some _ => w
  | None => setMemoryCache (hydrate (storage w)) w
  end.

(** The world after [setCachedEnrichment key data]. *)
Definition written (key : string) (data : EnrichedData) (w : World) : World :=
  let m := <[key := data]> (view w) in
  let w' := setMemoryCache m (hydrated w) in
  if storageWritable w then setStorage (Blob m) w' else w'.

End Cache.

(** ** Enrichment Orchestrator ([services/geminiService.ts]) *)

Module Gemini.
Import Heuristic CategoryMap Cache.
Local Open Scope async_scope.

(** [retryWithBackoff(fn, retries = 3, delay = 500)] *)
Fixpoint retryWithBackoff {A} (fn : Async A) (retries delay : nat) : Async A :=
  fun w =>
    match fn w with
    | (Returned a, w') => (Returned a, w')
    | (Thrown error, w') =>
        match retries with
        | 0 => (Thrown error, w')
        | S retries' => retryWithBackoff fn retries' (delay * 2) (sleep delay w')
        end
    end.

Definition defaultRetries : nat := 3.
Definition defaultDelay : nat := 500.

(** One round trip to the model followed by [cleanJsonInfo]; either may
    throw. The call is counted whatever its outcome. *)
Definition generate {A} (answer : Remote -> nat -> option A) : Async A :=
  fun w =>
    match answer (ai w) (remoteCalls w) with
    | Some a => (Returned a, countRemoteCall w)
    | None => (Thrown "Failed to parse AI response.", countRemoteCall w)
    end.

(** A remote call whose [catch] block throws a fresh error, as in
    [parseBasicInfoFromText] and [parseTransactionsFromFile]. *)
Definition rethrowing {A} (answer : Remote -> nat -> option A) (message : string)
  : Async A :=
  tryCatch (generate answer) (fun _ => throw message).

Definition parseBasicInfoFromText (text : string)
  : Async (Q * string * TransactionType) :=
  retryWithBackoff
    (rethrowing (fun r n => parseReply r n text)
       "AI could not understand the transaction text. Please enter the details manually.")
    defaultRetries defaultDelay.

(** The pauses of [retryWithBackoff] when every attempt throws. *)
Fixpoint backoffDelays (retries delay : nat) : list nat :=
  match retries with
  | 0 => []
  | S retries' => delay :: backoffDelays retries' (delay * 2)
  end.

(** The rule-table layer: a truthy extracted merchant with a truthy mapped
    category. *)
Definition ruleTableHit (identifiedMerchant : option string)
  : option (string * string) :=
  match identifiedMerchant with
  | Some m =>
      if Js.truthy (Some m) then
        match getCategoryForMerchant m with
        | Some mappedCategory =>
            if Js.truthy (Some mappedCategory) then Some (m, mappedCategory)
            else None
        | None => None
        end
      else None
  | None => None
  end.

(** [groundingChunks.find(c => c.web)] *)
Definition firstWebResult (chunks : list (option WebResult)) : option WebResult :=
  match List.find (fun c => match c with Some _ => true | None => false end) chunks with
  | Some c => c
  | None => None
  end.

Definition taskFor (identifiedMerchant : option string) : Task :=
  if Js.truthy identifiedMerchant then Categorize else Enrich.

(** The variable parts of the prompt for a transaction. *)
Definition requestFor (transaction : ParsedTransaction)
           (examples : list CategorizationExample) : EnrichRequest :=
  let identifiedMerchant :=
    Heuristic.merchant (extractHeuristicData (pt_description transaction)) in
  {| req_description := pt_description transaction;
     req_task := taskFor identifiedMerchant;
     req_merchant := if Js.truthy identifiedMerchant then identifiedMerchant else None;
     req_examples := examples |}.

(** [finalData.enrichedInfo]: the one of the reply or, failing that, the
    first web result of the grounding metadata. *)
Definition replyInfo (enrichedData : EnrichReply) : option EnrichedMerchantInfo :=
  match reply_enrichedInfo enrichedData with
  | Some info => Some info
  | None =>
      match firstWebResult (reply_groundingChunks enrichedData) with
      | Some web =>
          Some {| officialName :=
                    if Js.truthy (web_title web) then web_title web
                    else fieldValue (reply_merchant enrichedData);
                  website := Js.orElse (web_uri web) "" |}
      | None => None
      end
  end.

(** [{ ...transaction, ...enrichedData }] with [enrichedInfo] filled in. *)
Definition finalData (transaction : ParsedTransaction) (enrichedData : EnrichReply)
  : EnrichedTransaction :=
  spread transaction
         (override (pt_merchant transaction) (reply_merchant enrichedData))
         (override (pt_category transaction) (reply_category enrichedData))
         (replyInfo enrichedData).

(** The entry [setCachedEnrichment] receives. *)
Definition cachedFor (transaction : ParsedTransaction) (enrichedData : EnrichReply)
  : EnrichedData :=
  {| ed_merchant := Js.orElse (et_merchant (finalData transaction enrichedData)) "Unknown";
     ed_category := Js.orElse (et_category (finalData transaction enrichedData)) "Other";
     ed_enrichedInfo := et_enrichedInfo (finalData transaction enrichedData) |}.

(** The [try] block of the remote layer of [enrichTransaction]. *)
Definition remoteEnrichment (transaction : ParsedTransaction)
           (examples : list CategorizationExample) (cacheKey : string)
  : Async EnrichedTransaction :=
  enrichedData <- generate (fun r n =>
                    enrichReply r n (requestFor transaction examples)) ;;
  setCachedEnrichment cacheKey (cachedFor transaction enrichedData) ;;;
  ret (finalData transaction enrichedData).

(** The [catch] block of the remote layer. *)
Definition degraded (transaction : ParsedTransaction)
           (identifiedMerchant : option string) : EnrichedTransaction :=
  spread transaction (Some (Js.orElse identifiedMerchant "Unknown"))
         (Some "Other") None.

Definition enrichTransaction (transaction : ParsedTransaction)
           (examples : list CategorizationExample) : Async EnrichedTransaction :=
  let h := extractHeuristicData (pt_description transaction) in
  let identifiedMerchant := Heuristic.merchant h in
  let cacheKey := Heuristic.cacheKey h in
  match ruleTableHit identifiedMerchant with
  | Some (m, mappedCategory) =>
      ret (spread transaction (Some m) (Some mappedCategory) None)
  | None =>
      cachedData <- getCachedEnrichment cacheKey ;;
      match cachedData with
      | Some cached =>
          let merchant := Js.orElse identifiedMerchant (ed_merchant cached) in
          ret (spread transaction (Some merchant) (Some (ed_category cached))
                      (ed_enrichedInfo cached))
      | None =>
          retryWithBackoff
            (tryCatch
               (remoteEnrichment transaction examples cacheKey)
               (fun _ => ret (degraded transaction identifiedMerchant)))
            defaultRetries defaultDelay
      end
  end.

(** [results.forEach(result => { ... setCachedEnrichment ... })] *)
Fixpoint cacheBatchResults (transactions : list TransactionToEnrich)
         (results : list BatchEnrichmentResult) : Async unit :=
  match results with
  | [] => ret tt
  | result :: rest =>
      match List.find (fun t => Nat.eqb (te_index t) (br_index result)) transactions with
      | Some originalTx =>
          setCachedEnrichment (te_cacheKey originalTx)
            {| ed_merchant := br_merchant result;
               ed_category := br_category result;
               ed_enrichedInfo := br_enrichedInfo result |}
      | None => ret tt
      end ;;;
      cacheBatchResults transactions rest
  end.

Definition batchItem (t : TransactionToEnrich) : BatchItem :=
  {| bi_index := te_index t;
     bi_description := te_description t;
     bi_task := taskFor (te_identifiedMerchant t);
     bi_merchant := te_identifiedMerchant t |}.

Definition batchFallback (t : TransactionToEnrich) : BatchEnrichmentResult :=
  {| br_index := te_index t;
     br_merchant := Js.orElse (te_identifiedMerchant t) "Unknown";
     br_category := "Other";
     br_enrichedInfo := None |}.

Definition batchEnrichTransactions (transactions : list TransactionToEnrich)
           (examples : list CategorizationExample)
  : Async (list BatchEnrichmentResult) :=
  match transactions with
  | [] => ret []
  | _ :: _ =>
      retryWithBackoff
        (tryCatch
           (results <- generate (fun r n =>
                         batchReply r n examples (map batchItem transactions)) ;;
            cacheBatchResults transactions results ;;;
            ret results)
           (fun _ => ret (map batchFallback transactions)))
        defaultRetries defaultDelay
  end.

Definition validationKey (description newCategory : string) : string :=
  Js.toLowerCase (Js.trim description) ++ "|" ++ Js.toLowerCase newCategory.

Definition validateCategoryMismatch (description newCategory : string)
  : Async bool :=
  let cacheKey := validationKey description newCategory in
  fun w =>
    match validationCache w !! cacheKey with
    | Some verdict => (Returned verdict, w)
    | None =>
        if String.eqb newCategory "Other" || String.eqb newCategory "General"
        then (Returned true, w)
        else
          retryWithBackoff
            (tryCatch
               (is_logical <- generate (fun r n =>
                                validateReply r n description newCategory) ;;
                modify (fun w' => setValidationCache
                                    (<[cacheKey := is_logical]> (validationCache w')) w') ;;;
                ret is_logical)
               (fun _ => ret true))
            1 defaultDelay w
    end.

End Gemini.

(** ** Budget Statistics Engine ([components/modals/BudgetModal.tsx]) *)

Module Budget.
Local Open Scope Q_scope.

Inductive BudgetStrategy : Type :=
  Aggressive | Moderate | Maintain | Increase | Custom.

Inductive FinancialGoal : Type :=
  SaveEmergency | PayDebt | Invest | BuyAsset | Travel | ControlSpend.

#[global] Instance FinancialGoal_eq_dec : EqDecision FinancialGoal.
Proof. solve_decision. Defined.

Record UserProfile : Type := {
  primaryGoal : FinancialGoal;
  targetAmount : option Q
}.

Record BudgetRecord : Type := {
  b_category : string;
  b_limit : Q;
  b_strategy : BudgetStrategy
}.

(** What [new Date(t.date)] answers to [getFullYear()] and [getMonth()]. *)
Record JsDate : Type := {
  fullYear : nat;
  monthIndex : nat
}.

(** The fields of a [Transaction] the planning computation reads; a missing
    [isTransfer] is [false]. *)
Record Transaction : Type := {
  t_date : JsDate;
  t_amount : Q;
  t_type : TransactionType;
  t_category : string;
  t_isTransfer : bool
}.

Record DraftBudget : Type := {
  category : string;
  average : Q;
  max : Q;
  min : Q;
  history : list Q;
  frequency : string;
  volatility : Q;
  limit : Q;
  strategy : BudgetStrategy;
  isDiscretionary : bool;
  isSavings : bool;
  isModified : bool
}.

Definition DISCRETIONARY_CATEGORIES : list string := [
  "Eating Out"; "Entertainment"; "Shopping"; "Personal Care"; "Gifts";
  "Travel"; "Subscriptions"; "Alcohol & Bars"; "Betting";
  "Ride Sharing/Food Delivery"
].

Definition SAVINGS_CATEGORIES : list string := [
  "Savings"; "Investments"; "Emergency Fund"; "Sacco"; "Money Market Fund";
  "Pension"; "Financial Services/Investments"
].

(** *** Numbers *)

Definition Qltb (a b : Q) : bool := negb (Qle_bool b a).

(** [Math.round]: the nearest integer, halves going up. *)
Definition Math_round (x : Q) : Q := inject_Z (Qfloor (x + (1 # 2))).

Definition isIntegerQ (x : Q) : Prop := exists z : Z, x == inject_Z z.

(** [v || 0] on a number read from an object. *)
Definition numOr0 (o : option Q) : Q :=
  match o with
  | Some v => if Qeq_bool v 0 then 0 else v
  | None => 0
  end.

(** [n || 1] on a length. *)
Definition lenOr1 (n : nat) : Q :=
  inject_Z (Z.of_nat (if Nat.eqb n 0 then 1 else n)).

(** [l.reduce((a, b) => a + b, 0)] *)
Definition sumQ (l : list Q) : Q := fold_left Qplus l 0.

(** [Math.max(...l)]; the list is never empty where it is used. *)
Definition maxQ (l : list Q) : Q :=
  match l with
  | [] => 0
  | v :: vs => fold_left (fun a b => if Qltb a b then b else a) vs v
  end.

(** [Math.min(...l)]; [None] is [Infinity]. *)
Definition minQ (l : list Q) : option Q :=
  match l with
  | [] => None
  | v :: vs => Some (fold_left (fun a b => if Qltb b a then b else a) vs v)
  end.

(** *** Month keys *)

Definition decimal (n : nat) : string :=
  NilEmpty.string_of_uint (Nat.to_uint n).

(** [s.padStart(2, '0')] *)
Definition padStart2 (s : string) : string :=
  match String.length s with
  | O => "00"
  | S O => "0" ++ s
  | _ => s
  end.

Definition monthKey (d : JsDate) : string :=
  decimal (fullYear d) ++ "-" ++ padStart2 (decimal (monthIndex d + 1)%nat).

(** *** Sorting *)

(** A stable sort: [x] goes in front of the first element it does not
    exceed. *)
Fixpoint insertBy {A} (leb : A -> A -> bool) (x : A) (l : list A) : list A :=
  match l with
  | [] => [x]
  | y :: l' => if leb x y then x :: l else y :: insertBy leb x l'
  end.

Definition sortBy {A} (leb : A -> A -> bool) (l : list A) : list A :=
  fold_right (insertBy leb) [] l.

(** *** The pass over the transactions *)

Record Tally : Type := {
  incomeByMonth : gmap string Q;
  expenseByMonthCategory : list (string * gmap string Q);
  allMonthsSet : gset string
}.

Definition emptyTally : Tally :=
  {| incomeByMonth := ∅; expenseByMonthCategory := []; allMonthsSet := ∅ |}.

Fixpoint alGet {V} (k : string) (l : list (string * V)) : option V :=
  match l with
  | [] => None
  | (k', v) :: l' => if String.eqb k k' then Some v else alGet k l'
  end.

(** Assignment to a property of an object: in place when the key is there,
    at the end when it is new. *)
Fixpoint alSet {V} (k : string) (v : V) (l : list (string * V)) : list (string * V) :=
  match l with
  | [] => [(k, v)]
  | (k', v') :: l' =>
      if String.eqb k k' then (k, v) :: l' else (k', v') :: alSet k v l'
  end.

Definition tallyStep (acc : Tally) (t : Transaction) : Tally :=
  let key := monthKey (t_date t) in
  let months := {[ key ]} ∪ allMonthsSet acc in
  match t_type t, t_isTransfer t with
  | Income, false =>
      {| incomeByMonth :=
           <[key := (numOr0 (incomeByMonth acc !! key) + t_amount t)%Q]>
             (incomeByMonth acc);
         expenseByMonthCategory := expenseByMonthCategory acc;
         allMonthsSet := months |}
  | Expense, false =>
      let byMonth :=
        match alGet (t_category t) (expenseByMonthCategory acc) with
        | Some m => m
        | None => ∅
        end in
      {| incomeByMonth := incomeByMonth acc;
         expenseByMonthCategory :=
           alSet (t_category t)
                 (<[key := (numOr0 (byMonth !! key) + t_amount t)%Q]> byMonth)
                 (expenseByMonthCategory acc);
         allMonthsSet := months |}
  | _, true =>
      {| incomeByMonth := incomeByMonth acc;
         expenseByMonthCategory := expenseByMonthCategory acc;
         allMonthsSet := months |}
  end.

Definition tally (transactions : list Transaction) : Tally :=
  fold_left tallyStep transactions emptyTally.

(** [Array.from(allMonthsSet).sort().reverse().slice(0, 12)] *)
Definition sortedMonthsOf (months : gset string) : list string :=
  firstn 12%nat (rev (sortBy String.leb (elements months))).

Definition sortedMonths (transactions : list Transaction) : list string :=
  sortedMonthsOf (allMonthsSet (tally transactions)).

(** The mean of the months with income, [0] without any. *)
Definition calculatedIncomeAvg (transactions : list Transaction) : Q :=
  let incomeValues := (map_to_list (incomeByMonth (tally transactions))).*2 in
  let nonZeroIncomes := List.filter (Qltb 0) incomeValues in
  match nonZeroIncomes with
  | [] => 0
  | _ => (sumQ nonZeroIncomes / inject_Z (Z.of_nat (length nonZeroIncomes)))%Q
  end.

Section Planning.
(** [Math.sqrt] *)
Variable Math_sqrt : Q -> Q.

Variable existingBudgets : list BudgetRecord.
Variable userProfile : option UserProfile.

Definition monthlyValuesOf (byMonth : gmap string Q) (months : list string)
  : list Q :=
  map (fun m => numOr0 (byMonth !! m)) months.

Definition frequencyOf (activeMonths window : nat) : string :=
  let presenceRatio := (inject_Z (Z.of_nat activeMonths) / lenOr1 window)%Q in
  if Qltb presenceRatio (4 # 10) then "Rare"
  else if Qltb presenceRatio (8 # 10) then "Occasional"
  else "Monthly".

Definition volatilityOf (monthlyValues : list Q) : Q :=
  let n := inject_Z (Z.of_nat (length monthlyValues)) in
  let mean := (sumQ monthlyValues / n)%Q in
  let variance :=
    (fold_left (fun sum val => sum + (val - mean) * (val - mean)) monthlyValues 0
     / n)%Q in
  let stdDev := Math_sqrt variance in
  if Qltb 0 mean then (stdDev / mean)%Q else 0.

(** The goal-driven suggestion for a category without a budget. *)
Definition suggestion (avg : Q) (isSavings isDiscretionary : bool)
  : Q * BudgetStrategy :=
  match userProfile with
  | None => (Math_round avg, Maintain)
  | Some profile =>
      let goal := primaryGoal profile in
      if isSavings then
        if bool_decide (goal ∈ [SaveEmergency; Invest; BuyAsset; Travel])
        then (Math_round (avg * (11 # 10)), Increase)
        else (Math_round avg, Maintain)
      else if isDiscretionary then
        if bool_decide (goal ∈ [SaveEmergency; PayDebt; ControlSpend])
        then (Math_round (avg * (8 # 10)), Aggressive)
        else if bool_decide (goal ∈ [Invest; BuyAsset])
        then (Math_round (avg * (9 # 10)), Moderate)
        else (Math_round avg, Maintain)
      else (Math_round avg, Maintain)
  end.

(** The body of the [map] over the categories. *)
Definition draftFor (months : list string) (cat : string)
           (byMonth : gmap string Q) : DraftBudget :=
  let monthlyValues := monthlyValuesOf byMonth months in
  let activeMonths := length (List.filter (Qltb 0) monthlyValues) in
  let total := sumQ monthlyValues in
  let avg := (total / lenOr1 (length months))%Q in
  let existing := List.find (fun b => String.eqb (b_category b) cat) existingBudgets in
  let isDiscretionary := bool_decide (cat ∈ DISCRETIONARY_CATEGORIES) in
  let isSavings := bool_decide (cat ∈ SAVINGS_CATEGORIES) in
  {| category := cat;
     average := Math_round avg;
     max := maxQ monthlyValues;
     min := match minQ (List.filter (Qltb 0) monthlyValues) with
            | Some m => m
            | None => 0
            end;
     history := monthlyValues;
     frequency := frequencyOf activeMonths (length months);
     volatility := volatilityOf monthlyValues;
     limit := match existing with
              | Some b => b_limit b
              | None => fst (suggestion avg isSavings isDiscretionary)
              end;
     strategy := match existing with
                 | Some b => b_strategy b
                 | None => snd (suggestion avg isSavings isDiscretionary)
                 end;
     isDiscretionary := isDiscretionary;
     isSavings := isSavings;
     isModified := false |}.

(** [(a, b) => b.average - a.average] puts [a] first when the difference
    is not positive. *)
Definition byAverageDesc (a b : DraftBudget) : bool :=
  Qle_bool (average b) (average a).

Definition computeDrafts (transactions : list Transaction) : list DraftBudget :=
  let months := sortedMonths transactions in
  sortBy byAverageDesc
    (map (fun entry => draftFor months (fst entry) (snd entry))
         (expenseByMonthCategory (tally transactions))).
End Planning.

Record Impact : Type := {
  plannedNetSavings : Q;
  newTotalBudget : Q;
  riskyCuts : nat;
  freedUpCash : Q
}.

(** The two branches of the [forEach] that count a draft as a risky cut. *)
Definition cutBelowMinimum (d : DraftBudget) : bool :=
  negb (isSavings d) && Qltb (limit d) (min d) && Qltb (volatility d) (2 # 10).

Definition deepCutOnRecurring (d : DraftBudget) : bool :=
  negb (isSavings d) && Qltb (limit d) (average d * (8 # 10))
  && String.eqb (frequency d) "Monthly".

Definition countRisky (n : nat) (d : DraftBudget) : nat :=
  if cutBelowMinimum d then S n
  else if deepCutOnRecurring d then S n
  else n.

Definition impactAnalysis (drafts : list DraftBudget) (avgMonthlyIncome : Q)
  : Impact :=
  let currentTotalSpent :=
    fold_left (fun acc d => acc + (if isSavings d then 0 else average d))%Q drafts 0 in
  let newTotal :=
    fold_left (fun acc d => acc + (if isSavings d then 0 else limit d))%Q drafts 0 in
  {| plannedNetSavings :=
       if Qltb 0 avgMonthlyIncome then (avgMonthlyIncome - newTotal)%Q
       else (currentTotalSpent - newTotal)%Q;
     newTotalBudget := newTotal;
     riskyCuts := fold_left countRisky drafts 0%nat;
     freedUpCash := (currentTotalSpent - newTotal)%Q |}.

End Budget.

(** ** The planner, after the drafts ([components/modals/BudgetModal.tsx]) *)

Module Planner.
Import Budget.
Local Open Scope Q_scope.

(** What a category spent in a month: the non-transfer expenses of the
    category whose date falls under the month key. The planning code has no
    such function; the properties of the monthly vectors are stated with
    it. *)
Definition inCell (cat m : string) (t : Transaction) : bool :=
  match t_type t with
  | Expense =>
      negb (t_isTransfer t) && String.eqb (t_category t) cat
      && String.eqb (monthKey (t_date t)) m
  | Income => false
  end.

Definition expenseTotal (transactions : list Transaction) (cat m : string) : Q :=
  sumQ (map t_amount (List.filter (inCell cat m) transactions)).

(** What the pass has recorded for a category and a month, as the draft
    of the category reads it. *)
Definition cellOf (entries : list (string * gmap string Q)) (cat m : string) : Q :=
  numOr0 (match alGet cat entries with
          | Some byMonth => byMonth !! m
          | None => None
          end).

(** [drafts.reduce((s, d) => s + f(d), 0)] *)
Definition sumOf (f : DraftBudget -> Q) (drafts : list DraftBudget) : Q :=
  fold_left (fun s d => s + f d) drafts 0.

Definition isMajor (thresholdAmount : Q) (d : DraftBudget) : bool :=
  Qltb thresholdAmount (average d) || isSavings d.

Definition groupedMinor (minor : list DraftBudget) : DraftBudget :=
  {| category := "Other Minor Expenses";
     average := sumOf average minor;
     max := sumOf max minor;
     min := sumOf min minor;
     history := [];
     frequency := "Various";
     volatility := 0;
     limit := sumOf limit minor;
     strategy := Maintain;
     isDiscretionary := true;
     isSavings := false;
     isModified := false |}.

(** The granularity slider: [0] shows the drafts as they are, [100] merges
    every non-savings draft below 5% of the total spend. *)
Definition displayDrafts (drafts : list DraftBudget) (granularity : Q)
  : list DraftBudget :=
  if Qeq_bool granularity 0 then drafts
  else
    let totalSpend := sumOf average drafts in
    let thresholdPercent := (granularity / 100) * (5 # 100) in
    let thresholdAmount := totalSpend * thresholdPercent in
    let major := List.filter (isMajor thresholdAmount) drafts in
    let minor := List.filter (fun d => negb (isMajor thresholdAmount d)) drafts in
    match minor with
    | [] => major
    | _ :: _ => (major ++ [groupedMinor minor])%list
    end.

(** [updateDraft(category, { limit, strategy })] *)
Definition updateDraft (cat : string) (newLimit : Q) (newStrategy : BudgetStrategy)
           (drafts : list DraftBudget) : list DraftBudget :=
  map (fun d =>
         if String.eqb (category d) cat
         then {| category := category d; average := average d; max := max d;
                 min := min d; history := history d; frequency := frequency d;
                 volatility := volatility d; limit := newLimit;
                 strategy := newStrategy; isDiscretionary := isDiscretionary d;
                 isSavings := isSavings d; isModified := true |}
         else d)
      drafts.

(** The [months] of [goalProjection]; [None] is [null]. *)
Definition goalProjection (userProfile : option UserProfile) (plannedNetSavings : Q)
  : option Z :=
  match userProfile with
  | Some profile =>
      match targetAmount profile with
      | Some target =>
          if Qeq_bool target 0 || Qle_bool plannedNetSavings 0 then None
          else Some (Qceiling (target / plannedNetSavings))
      | None => None
      end
  | None => None
  end.

Definition isMaintain (s : BudgetStrategy) : bool :=
  match s with Maintain => true | _ => false end.

(** The budgets [handleSaveAll] hands to [onSave] ([period] is always
    ['monthly']). *)
Definition budgetsToSave (drafts : list DraftBudget) : list BudgetRecord :=
  map (fun d => {| b_category := category d; b_limit := limit d;
                   b_strategy := strategy d |})
      (List.filter (fun d => isModified d || negb (isMaintain (strategy d)) || isSavings d)
                   drafts).

End Planner.

(** ** The application state ([contexts/FinancialContext.tsx]) *)

Module Points.
Import Regex Heuristic.

(** [[\d,]] *)
Definition digitOrComma (c : ascii) : bool := Js.isDigit c || Heuristic.isChar "," c.

(** Regex to find points; [group] is 1 in every rule. *)
Definition balance : regex :=
  Rep true 0 (Some 1) (Heuristic.isChar ":") >> Rep true 0 None Js.isSpace >>
  Group (Rep true 1 None digitOrComma).

Definition pointsExtractors : list regex := [
  (* /Total points:?\s*([\d,]+)/i *)
  Lit "Total points" >> balance;
  (* /Points Bal:?\s*([\d,]+)/i *)
  Lit "Points Bal" >> balance;
  (* /Points Balance:?\s*([\d,]+)/i *)
  Lit "Points Balance" >> balance
].

(** [s.replace(/,/g, '')] *)
Fixpoint removeCommas (s : string) : string :=
  match s with
  | EmptyString => EmptyString
  | String c s' =>
      if Heuristic.isChar "," c then removeCommas s' else String c (removeCommas s')
  end.

(** [parseInt(s, 10)] on a text without sign or leading space: the value
    of the leading digits, [None] (NaN) when there is none. The value is
    exact, also beyond 2^53. *)
Fixpoint leadingDigits (acc : option N) (s : string) : option N :=
  match s with
  | String c s' =>
      if Js.isDigit c
      then leadingDigits
             (Some (10 * match acc with Some n => n | None => 0 end
                    + (Js.code c - 48))%N) s'
      else acc
  | EmptyString => acc
  end.

Definition parseInt10 (s : string) : option N := leadingDigits None s.

(** The result is [None] for [null], [Some None] for NaN. *)
Fixpoint firstPoints (rules : list regex) (description : string)
  : option (option N) :=
  match rules with
  | [] => None
  | extractor :: rest =>
      match jsMatch extractor description with
      | Some (Some g) =>
          if String.eqb g "" then firstPoints rest description
          else Some (parseInt10 (removeCommas g))
      | _ => firstPoints rest description
      end
  end.

Definition extractPointsFromDescription (description : string) : option (option N) :=
  firstPoints pointsExtractors description.

(** Two tests on texts, for the statements about the rules: every
    character is in a class; the text does not go on with a character of
    a class. *)
Fixpoint every (p : ascii -> bool) (s : string) : bool :=
  match s with
  | EmptyString => true
  | String c s' => p c && every p s'
  end.

(** Where a label first stands in a text, letter case apart, as
    [s.search(/label/i)] gives it; [None] is [-1]. *)
Fixpoint firstAt (label s : string) : option nat :=
  match lit label s with
  | Some _ => Some 0%nat
  | None =>
      match s with
      | EmptyString => None
      | String _ s' => option_map S (firstAt label s')
      end
  end.

Definition stopsAt (p : ascii -> bool) (s : string) : bool :=
  match s with
  | EmptyString => true
  | String c _ => negb (p c)
  end.


End Points.

Module Ledger.

Record Transaction : Type := {
  id : string;
  accountId : string;
  date : string;
  merchant : string;
  amount : Q;
  type : TransactionType;
  category : string;
  description : string;
  logoUrl : option string;
  isTransfer : bool
}.

(** [{ ...t, id }]; a value of [Omit<Transaction, 'id'>] is a
    [Transaction] whose [id] is not read. *)
Definition withId (newId : string) (t : Transaction) : Transaction :=
  {| id := newId; accountId := accountId t; date := date t; merchant := merchant t;
     amount := amount t; type := type t; category := category t;
     description := description t; logoUrl := logoUrl t; isTransfer := isTransfer t |}.

Record LoyaltyCard : Type := {
  card_id : string;
  provider : string;
  points : N;
  lastUpdated : string
}.

Record StoredBudget : Type := {
  sb_id : string;
  sb_budget : Budget.BudgetRecord
}.

Inductive Toast : Type :=
| NoToast
| Info
| Warning.

(** The part of the provider's state the operations below read or write;
    the text of the notification is not modelled, its kind is. *)
Record State : Type := {
  transactions : list Transaction;
  categories : list string;
  budgets : list StoredBudget;
  loyaltyCards : list LoyaltyCard;
  categorizationExamples : list CategorizationExample;
  notification : Toast
}.

Definition setTransactions (f : list Transaction -> list Transaction) (s : State) : State :=
  {| transactions := f (transactions s); categories := categories s;
     budgets := budgets s; loyaltyCards := loyaltyCards s;
     categorizationExamples := categorizationExamples s;
     notification := notification s |}.

Definition setCategories (f : list string -> list string) (s : State) : State :=
  {| transactions := transactions s; categories := f (categories s);
     budgets := budgets s; loyaltyCards := loyaltyCards s;
     categorizationExamples := categorizationExamples s;
     notification := notification s |}.

Definition setBudgets (f : list StoredBudget -> list StoredBudget) (s : State) : State :=
  {| transactions := transactions s; categories := categories s;
     budgets := f (budgets s); loyaltyCards := loyaltyCards s;
     categorizationExamples := categorizationExamples s;
     notification := notification s |}.

Definition setLoyaltyCards (f : list LoyaltyCard -> list LoyaltyCard) (s : State) : State :=
  {| transactions := transactions s; categories := categories s;
     budgets := budgets s; loyaltyCards := f (loyaltyCards s);
     categorizationExamples := categorizationExamples s;
     notification := notification s |}.

Definition setCategorizationExamples
           (f : list CategorizationExample -> list CategorizationExample)
           (s : State) : State :=
  {| transactions := transactions s; categories := categories s;
     budgets := budgets s; loyaltyCards := loyaltyCards s;
     categorizationExamples := f (categorizationExamples s);
     notification := notification s |}.

Definition showToast (kind : Toast) (s : State) : State :=
  {| transactions := transactions s; categories := categories s;
     budgets := budgets s; loyaltyCards := loyaltyCards s;
     categorizationExamples := categorizationExamples s;
     notification := kind |}.

(** [l.findIndex(p)]; [None] is [-1]. *)
Fixpoint findIndex {A} (p : A -> bool) (l : list A) : option nat :=
  match l with
  | [] => None
  | x :: l' => if p x then Some 0 else option_map S (findIndex p l')
  end.

(** Logic: Loyalty Points. [now] is [Date.now().toString()], [today] the
    date of the day. The result tells whether a balance was found. *)
Definition checkAndAddPoints (now today : string) (transaction : Transaction)
           (s : State) : bool * State :=
  match Points.extractPointsFromDescription (description transaction) with
  | Some (Some (Npos p)) =>
      let extractedPoints := Npos p in
      let providerName := merchant transaction in
      (true,
       setLoyaltyCards (fun prev =>
         match findIndex (fun c => String.eqb (Js.toLowerCase (provider c))
                                              (Js.toLowerCase providerName)) prev with
         | Some existingIndex =>
             match prev !! existingIndex with
             | Some card =>
                 <[existingIndex := {| card_id := card_id card;
                                       provider := provider card;
                                       points := extractedPoints;
                                       lastUpdated := today |}]> prev
             | None => prev
             end
         | None =>
             (prev ++ [{| card_id := now; provider := providerName;
                          points := extractedPoints; lastUpdated := today |}])%list
         end) s)
  | _ => (false, s)
  end.

Section Importing.
(** [String(n)] for an amount. *)
Variable showNumber : Q -> string.

Definition showType (t : TransactionType) : string :=
  match t with Expense => "expense" | Income => "income" end.

(** [`${t.date}|${t.description.trim()}|${t.amount}|${t.type}|${t.accountId}`] *)
Definition txKey (t : Transaction) : string :=
  date t ++ "|" ++ Js.trim (description t) ++ "|" ++ showNumber (amount t) ++ "|"
  ++ showType (type t) ++ "|" ++ accountId t.

(** [Array.from(new Set(l))]: the first occurrences, in order. *)
Fixpoint distinct (seen : list string) (l : list string) : list string :=
  match l with
  | [] => []
  | x :: l' =>
      if existsb (String.eqb x) seen then distinct seen l'
      else x :: distinct (x :: seen) l'
  end.

(** [newTransactions.forEach(tx => checkAndAddPoints(tx))] *)
Definition addAllPoints (now today : string) (newTransactions : list Transaction)
           (s : State) : State :=
  fold_left (fun s' tx => snd (checkAndAddPoints now today tx s')) newTransactions s.

(** [uniqueImportedTransactions.map((t, i) => ({ ...t, id: `${Date.now()}-${i}` }))] *)
Fixpoint numbered (now : string) (i : nat) (l : list Transaction) : list Transaction :=
  match l with
  | [] => []
  | t :: l' => withId (now ++ "-" ++ Budget.decimal i) t :: numbered now (S i) l'
  end.

(** Logic: Import. *)
Definition importTransactions (now today : string)
           (importedTransactions : list Transaction) (s : State) : State :=
  let existingTxKeys : gset string := list_to_set (map txKey (transactions s)) in
  let uniqueImportedTransactions :=
    List.filter (fun t => negb (bool_decide (txKey t ∈ existingTxKeys)))
                importedTransactions in
  let skippedCount :=
    (length importedTransactions - length uniqueImportedTransactions)%nat in
  match uniqueImportedTransactions with
  | _ :: _ =>
      let newTransactions := numbered now 0 uniqueImportedTransactions in
      let s1 := setTransactions (fun prev => (prev ++ newTransactions)%list) s in
      let s2 := addAllPoints now today newTransactions s1 in
      let importedCategories := distinct [] (map category uniqueImportedTransactions) in
      let newCategories :=
        List.filter (fun cat => negb (existsb (String.eqb cat) (categories s)))
                    importedCategories in
      let s3 :=
        match newCategories with
        | [] => s2
        | _ :: _ =>
            setCategories (fun prev => Budget.sortBy String.leb (prev ++ newCategories)%list) s2
        end in
      showToast Info s3
  | [] =>
      match skippedCount with
      | O => s
      | S _ => showToast Warning s
      end
  end.
End Importing.

(** Logic: Budgets. [ids] are the identifiers drawn for the budgets that
    are pushed, one per new budget. *)
Definition upsertBudget (updated : list StoredBudget)
           (entry : string * Budget.BudgetRecord) : list StoredBudget :=
  let (newId, newB) := entry in
  match findIndex (fun b => String.eqb (Budget.b_category (sb_budget b))
                                       (Budget.b_category newB)) updated with
  | Some idx =>
      match updated !! idx with
      | Some old => <[idx := {| sb_id := sb_id old; sb_budget := newB |}]> updated
      | None => updated
      end
  | None => (updated ++ [{| sb_id := newId; sb_budget := newB |}])%list
  end.

Definition addBudget (ids : list string) (newBudgets : list Budget.BudgetRecord)
           (s : State) : State :=
  showToast Info
    (setBudgets (fun prev => fold_left upsertBudget (combine ids newBudgets) prev) s).

(** Logic: Optimistic Category Update. *)
Definition recategorise (transactionId newCategory : string) (t : Transaction)
  : Transaction :=
  if String.eqb (id t) transactionId
  then {| id := id t; accountId := accountId t; date := date t; merchant := merchant t;
          amount := amount t; type := type t; category := newCategory;
          description := description t; logoUrl := logoUrl t;
          isTransfer := String.eqb newCategory "Internal Transfer" |}
  else t.

Definition updateCategory (transactionId newCategory : string) (s : State)
  : Async State :=
  match List.find (fun t => String.eqb (id t) transactionId) (transactions s) with
  | None => ret s
  | Some transaction =>
      let s1 := setTransactions (map (recategorise transactionId newCategory)) s in
      let s2 :=
        if existsb (String.eqb newCategory) (categories s) then s1
        else setCategories (fun prev => Budget.sortBy String.leb (prev ++ [newCategory])%list) s1 in
      tryCatch
        (bind (Gemini.validateCategoryMismatch (description transaction) newCategory)
              (fun isLogical =>
                 if isLogical
                 then ret (setCategorizationExamples
                             (fun prev => (prev ++ [{| ex_description := description transaction;
                                                       ex_category := newCategory |}])%list) s2)
                 else ret (showToast Warning s2)))
        (fun _ => ret s2)
  end.

End Ledger.

(** ** The import review ([components/modals/ImportTransactionsModal.tsx]) *)

Module ImportReview.
Import Heuristic CategoryMap Cache Gemini.
Local Open Scope async_scope.

(** A parsed row before any enrichment. *)
Definition asRow (tx : ParsedTransaction) : EnrichedTransaction :=
  spread tx (pt_merchant tx) (pt_category tx) None.

(** [{ index, description: tx.description, cacheKey,
       identifiedMerchant: identifiedMerchant || undefined }] *)
Definition queueEntry (index : nat) (tx : ParsedTransaction) : TransactionToEnrich :=
  let h := extractHeuristicData (pt_description tx) in
  {| te_index := index;
     te_description := pt_description tx;
     te_cacheKey := Heuristic.cacheKey h;
     te_identifiedMerchant :=
       if Js.truthy (Heuristic.merchant h) then Heuristic.merchant h else None |}.

(** The first loop of [enrichAll]: rule table, then cache; what is left is
    queued for the batch with its position. *)
Fixpoint localPass (index : nat) (rows : list ParsedTransaction)
  : Async (list EnrichedTransaction * list TransactionToEnrich) :=
  match rows with
  | [] => ret ([], [])
  | tx :: rest =>
      let h := extractHeuristicData (pt_description tx) in
      let identifiedMerchant := Heuristic.merchant h in
      match ruleTableHit identifiedMerchant with
      | Some (m, mappedCategory) =>
          r <- localPass (S index) rest ;;
          ret (spread tx (Some m) (Some mappedCategory) None :: fst r, snd r)
      | None =>
          cachedData <- getCachedEnrichment (Heuristic.cacheKey h) ;;
          r <- localPass (S index) rest ;;
          match cachedData with
          | Some cached =>
              (* { ...tx, merchant: identifiedMerchant || cachedData.merchant, ...cachedData } *)
              ret (spread tx (Some (ed_merchant cached)) (Some (ed_category cached))
                          (ed_enrichedInfo cached) :: fst r, snd r)
          | None =>
              ret (asRow tx :: fst r, queueEntry index tx :: snd r)
          end
      end
  end.

(** [{ ...row, ...result }]; a result without [enrichedInfo] keeps the one
    of the row. *)
Definition mergeResult (row : EnrichedTransaction) (result : BatchEnrichmentResult)
  : EnrichedTransaction :=
  {| et_merchant := Some (br_merchant result);
     et_amount := et_amount row;
     et_category := Some (br_category result);
     et_type := et_type row;
     et_date := et_date row;
     et_description := et_description row;
     et_enrichedInfo := match br_enrichedInfo result with
                        | Some info => Some info
                        | None => et_enrichedInfo row
                        end |}.

(** [batchResults.forEach(result => { if (finalUpdated[result.index]) ... })] *)
Definition scatter (rows : list EnrichedTransaction)
           (batchResults : list BatchEnrichmentResult) : list EnrichedTransaction :=
  fold_left (fun finalUpdated result =>
               match finalUpdated !! br_index result with
               | Some row => <[br_index result := mergeResult row result]> finalUpdated
               | None => finalUpdated
               end)
            batchResults rows.

(** [enrichAll], from the parsed rows to the rows of the review list, when
    the user edits nothing in between. *)
Definition enrichAll (parsedTransactions : list ParsedTransaction)
           (categorizationExamples : list CategorizationExample)
  : Async (list EnrichedTransaction) :=
  r <- localPass 0 parsedTransactions ;;
  match snd r with
  | [] => ret (fst r)
  | _ :: _ =>
      tryCatch
        (batchResults <- batchEnrichTransactions (snd r) categorizationExamples ;;
         ret (scatter (fst r) batchResults))
        (fun _ => ret (fst r))
  end.

End ImportReview.

(** ** Transfer suggestions ([suggestTransferPairs] of [services/geminiService.ts]) *)

Module Transfers.
Import Gemini.
Local Open Scope async_scope.

(** The fields of a [Transaction] the suggestion reads; [time] is
    [new Date(t.date).getTime()]. *)
Record Candidate : Type := {
  c_id : string;
  c_time : Z;
  c_amount : Q;
  c_type : TransactionType;
  c_description : string;
  c_isTransfer : bool
}.

(** [(a, b) => time(b) - time(a)] puts [a] first when [b] is not later. *)
Definition latestFirst (a b : Candidate) : bool := (c_time b <=? c_time a)%Z.

Definition recentTxs (transactions : list Candidate) : list Candidate :=
  List.filter (fun t => negb (c_isTransfer t))
              (firstn 100 (Budget.sortBy latestFirst transactions)).

(** [pair.map(p => recentTxs.find(t => t.id === p.id)).filter(t => !!t)] *)
Definition resolvePair (recent : list Candidate) (pair : list string) : list Candidate :=
  omap (fun p => List.find (fun t => String.eqb (c_id t) p) recent) pair.

(** [pairsReply] is the model for this call: the identifiers it pairs up,
    [None] when the call or the parsing of its answer throws. *)
Definition suggestTransferPairs
           (pairsReply : nat -> list Candidate -> option (list (list string)))
           (transactions : list Candidate) : Async (list (list Candidate)) :=
  let recent := recentTxs transactions in
  if Nat.ltb (length recent) 2 then ret []
  else
    retryWithBackoff
      (tryCatch
         (pairsIds <- generate (fun _ n => pairsReply n recent) ;;
          ret (map (resolvePair recent) pairsIds))
         (fun _ => ret []))
      defaultRetries defaultDelay.

End Transfers.

(** ** Adding one transaction ([components/modals/AddTransactionModal.tsx]
       and [addTransaction] of [contexts/FinancialContext.tsx]) *)

Module AddTransaction.
Import Gemini Ledger.
Local Open Scope async_scope.

(** Logic: Add Transaction. The toast is the one of the first transaction;
    [transactions.length] is the one the callback was created with. *)
Definition addTransaction (now today : string) (transactionData : Transaction)
           (s : State) : State :=
  let newTransaction := withId now transactionData in
  let s1 := setTransactions (fun prev => (prev ++ [newTransaction])%list) s in
  let s2 := snd (checkAndAddPoints now today newTransaction s1) in
  match transactions s with
  | [] => showToast Info s2
  | _ :: _ => s2
  end.

(** How [handleAdd] ends: it returns at once, it hands a transaction to
    [onAdd], or it shows an error and switches to manual entry. *)
Inductive AddOutcome : Type :=
| Ignored
| Added (s : State)
| ManualMode (error : string).

Section HandleAdd.
(** [new URL(website).hostname]; [None] when the constructor throws. *)
Variable hostnameOf : string -> option string.

Definition logoOf (info : option EnrichedMerchantInfo) : option string :=
  match info with
  | Some i =>
      if Js.truthy (Some (website i))
         && (String.prefix "http://" (website i) || String.prefix "https://" (website i))
      then hostnameOf (website i)
      else None
  | None => None
  end.

Definition newTransactionOf (accountId : string) (enrichedData : EnrichedTransaction)
  : Transaction :=
  {| id := "";
     accountId := accountId;
     date := et_date enrichedData;
     merchant :=
       Js.orElse (match et_enrichedInfo enrichedData with
                  | Some i => officialName i
                  | None => None
                  end)
                 (Js.orElse (et_merchant enrichedData) "Unknown");
     amount := et_amount enrichedData;
     type := et_type enrichedData;
     category := Js.orElse (et_category enrichedData) "Other";
     description := et_description enrichedData;
     logoUrl := logoOf (et_enrichedInfo enrichedData);
     isTransfer := match et_category enrichedData with
                   | Some c => String.eqb c "Internal Transfer"
                   | None => false
                   end |}.

Definition handleAdd (now today accountId description : string)
           (categorizationExamples : list CategorizationExample) (s : State)
  : Async AddOutcome :=
  if negb (Js.truthy (Some description)) || negb (Js.truthy (Some accountId))
  then ret Ignored
  else
    tryCatch
      (basicInfo <- parseBasicInfoFromText description ;;
       let transactionToEnrich :=
         {| pt_merchant := None; pt_amount := fst (fst basicInfo);
            pt_category := None; pt_type := snd basicInfo;
            pt_date := today; pt_description := snd (fst basicInfo) |} in
       enrichedData <- enrichTransaction transactionToEnrich categorizationExamples ;;
       ret (Added (addTransaction now today (newTransactionOf accountId enrichedData) s)))
      (fun e => ret (ManualMode e)).
End HandleAdd.

End AddTransaction.

(** * Properties *)

(** ** Sample inputs *)

Definition uberDescription : string :=
  "DEBIT CARD TXN AT UBER * PENDING AMSTERDAM     17-11-2025 / 08:52:09 47-83-9408 16530408 4783940816530408".

(** A model that fails every call. *)
Definition silentRemote : Remote :=
  {| enrichReply := fun _ _ => None;
     batchReply := fun _ _ _ => None;
     validateReply := fun _ _ _ => None;
     parseReply := fun _ _ => None |}.

(** The world at the start of a session with nothing stored. *)
Definition freshWorld (r : Remote) : World :=
  {| ai := r; storage := Missing; storageWritable := true;
     memoryCache := None; validationCache := ∅;
     remoteCalls := 0; cacheReads := 0; sleeps := [] |}.

Definition sampleTransaction (d : string) : ParsedTransaction :=
  {| pt_merchant := None; pt_amount := 100; pt_category := None;
     pt_type := Expense; pt_date := "2025-11-17"; pt_description := d |}.

Definition uberMerchant : string := "UBER * PENDING AMSTERDAM".

Definition johnDoe : ParsedTransaction :=
  sampleTransaction "Lipa na M-PESA to John Doe".

(** A model that answers every single-item call with a trade name and a
    category. *)
Definition renamingRemote : Remote :=
  {| enrichReply := fun _ _ =>
       Some {| reply_merchant := Present "John D Enterprises";
               reply_category := Present "Shopping";
               reply_enrichedInfo := None;
               reply_groundingChunks := [] |};
     batchReply := fun _ _ _ => None;
     validateReply := fun _ _ _ => None;
     parseReply := fun _ _ => None |}.

(** A model that answers a batch with an index nobody sent. *)
Definition strayRemote : Remote :=
  {| enrichReply := fun _ _ => None;
     batchReply := fun _ _ _ =>
       Some [{| br_index := 7; br_merchant := "Kiosk"; br_category := "Shopping";
                br_enrichedInfo := None |}];
     validateReply := fun _ _ _ => None;
     parseReply := fun _ _ => None |}.

Definition sampleBatch : list TransactionToEnrich :=
  [{| te_index := 0; te_description := "hello world"; te_cacheKey := "hello world";
      te_identifiedMerchant := None |};
   {| te_index := 3; te_description := "Lipa na M-PESA to John Doe";
      te_cacheKey := "John Doe"; te_identifiedMerchant := Some "John Doe" |}].

(** A model that finds every categorisation illogical. *)
Definition scepticalRemote : Remote :=
  {| enrichReply := fun _ _ => None;
     batchReply := fun _ _ _ => None;
     validateReply := fun _ _ _ => Some false;
     parseReply := fun _ _ => None |}.

(** A model that fails its first two calls and answers from the third on. *)
Definition flakyRemote : Remote :=
  {| enrichReply := fun _ _ => None;
     batchReply := fun _ _ _ => None;
     validateReply := fun _ _ _ => None;
     parseReply := fun n _ =>
       if Nat.ltb n 2 then None else Some (250%Q, "Lipa na M-PESA to Naivas", Expense) |}.

Definition transactionOn (year monthIndex : nat) (amount : Q)
           (type : TransactionType) (category : string) : Budget.Transaction :=
  {| Budget.t_date := {| Budget.fullYear := year; Budget.monthIndex := monthIndex |};
     Budget.t_amount := amount; Budget.t_type := type;
     Budget.t_category := category; Budget.t_isTransfer := false |}.

(** Rent paid in January 2025, a salary received in February 2025. *)
Definition rentThenSalary : list Budget.Transaction :=
  [transactionOn 2025 0 100 Expense "Rent"; transactionOn 2025 1 5000 Income "Income"].

Definition halfShillingBudget : list Budget.BudgetRecord :=
  [{| Budget.b_category := "Rent"; Budget.b_limit := 1 # 2;
      Budget.b_strategy := Budget.Custom |}].

(** A stand-in for [Math.sqrt], good to three decimals. *)
Definition sqrtMilli (x : Q) : Q :=
  Z.sqrt (Qfloor (x * 1000000)) # 1000.

Definition stableRent : Budget.DraftBudget :=
  {| Budget.category := "Rent"; Budget.average := 100; Budget.max := 100;
     Budget.min := 100; Budget.history := [100%Q; 100%Q]; Budget.frequency := "Monthly";
     Budget.volatility := 0; Budget.limit := 90; Budget.strategy := Budget.Custom;
     Budget.isDiscretionary := false; Budget.isSavings := false;
     Budget.isModified := true |}.

Definition emptiedSavings : Budget.DraftBudget :=
  {| Budget.category := "Savings"; Budget.average := 100; Budget.max := 100;
     Budget.min := 100; Budget.history := [100%Q; 100%Q]; Budget.frequency := "Monthly";
     Budget.volatility := 0; Budget.limit := 0; Budget.strategy := Budget.Custom;
     Budget.isDiscretionary := false; Budget.isSavings := true;
     Budget.isModified := true |}.

(** A session in which the cache already knows "John Doe". *)
Definition cachedWorld : World :=
  {| ai := silentRemote; storage := Missing; storageWritable := true;
     memoryCache :=
       Some {[ "John Doe" := {| ed_merchant := "John D Enterprises";
                                ed_category := "Shopping";
                                ed_enrichedInfo := None |} ]};
     validationCache := ∅;
     remoteCalls := 0; cacheReads := 0; sleeps := [] |}.

(** ** The cache *)

Section CacheFacts.
Import Cache.

Lemma getCache_run w : getCache w = (Returned (view w), hydrated w).
Proof. unfold getCache, view, hydrated. destruct (memoryCache w); reflexivity. Qed.

Lemma view_hydrated w : view (hydrated w) = view w.
Proof. unfold hydrated, view. destruct (memoryCache w) eqn:E; simpl; [now rewrite E | reflexivity]. Qed.

Lemma getCachedEnrichment_run key w :
  getCachedEnrichment key w = (Returned (view w !! key), countCacheRead (hydrated w)).
Proof. unfold getCachedEnrichment, bind, modify, ret. rewrite getCache_run. reflexivity. Qed.

Lemma setCachedEnrichment_run key data w :
  setCachedEnrichment key data w = (Returned tt, written key data w).
Proof.
  unfold setCachedEnrichment, bind, modify, persistCache, written, getCache,
    view, hydrated.
  destruct w as [r st sw mc v n c sl]; simpl. destruct mc, sw; reflexivity.
Qed.

Lemma view_written key data w : view (written key data w) = <[key := data]> (view w).
Proof. unfold written. destruct (storageWritable w); reflexivity. Qed.

Lemma remoteCalls_hydrated w : remoteCalls (hydrated w) = remoteCalls w.
Proof. unfold hydrated. destruct (memoryCache w); reflexivity. Qed.

Lemma storage_hydrated w : storage (hydrated w) = storage w.
Proof. unfold hydrated. destruct (memoryCache w); reflexivity. Qed.

Lemma ai_hydrated w : ai (hydrated w) = ai w.
Proof. unfold hydrated. destruct (memoryCache w); reflexivity. Qed.

Lemma remoteCalls_written key data w : remoteCalls (written key data w) = remoteCalls w.
Proof.
  unfold written. destruct (storageWritable w); simpl; apply remoteCalls_hydrated.
Qed.

Lemma ai_written key data w : ai (written key data w) = ai w.
Proof. unfold written. destruct (storageWritable w); simpl; apply ai_hydrated. Qed.

End CacheFacts.

(** ** The rule table *)

Section RuleTableFacts.
Import CategoryMap.

Lemma lookupRules_nonempty rules s c :
  Forall (fun r => category r <> "") rules ->
  lookupRules rules s = Some c -> c <> "".
Proof.
  induction 1 as [| r rules Hr _ IH]; simpl; [discriminate |].
  destruct (existsb _ _); [intros [= <-]; exact Hr | exact IH].
Qed.

Lemma categoryRules_nonempty : Forall (fun r => category r <> "") categoryRules.
Proof. unfold categoryRules. repeat constructor; discriminate. Qed.

Lemma getCategoryForMerchant_nonempty m c :
  getCategoryForMerchant m = Some c -> c <> "".
Proof. apply lookupRules_nonempty, categoryRules_nonempty. Qed.

Lemma getCategoryForMerchant_empty : getCategoryForMerchant "" = None.
Proof. reflexivity. Qed.

Lemma truthy_Some s : Js.truthy (Some s) = true <-> s <> "".
Proof.
  unfold Js.truthy. destruct (String.eqb_spec s ""); simpl; split; congruence.
Qed.

(** The rule-table layer answers exactly when the table knows the extracted
    merchant. *)
Lemma ruleTableHit_spec (o : option string) :
  Gemini.ruleTableHit o =
  match o with
  | Some m =>
      match getCategoryForMerchant m with
      | Some c => Some (m, c)
      | None => None
      end
  | None => None
  end.
Proof.
  destruct o as [m |]; [| reflexivity]. unfold Gemini.ruleTableHit.
  destruct (Js.truthy (Some m)) eqn:Hm.
  - destruct (getCategoryForMerchant m) as [c |] eqn:Hc; [| reflexivity].
    apply getCategoryForMerchant_nonempty, truthy_Some in Hc. now rewrite Hc.
  - assert (m = "") as ->.
    { unfold Js.truthy in Hm. destruct (String.eqb_spec m ""); [assumption | discriminate]. }
    reflexivity.
Qed.

End RuleTableFacts.

(** ** The single-item cascade *)

Section EnrichFacts.
Import Heuristic CategoryMap Cache Gemini.

Lemma retry_returned {A} (fn : Async A) retries delay w a w' :
  fn w = (Returned a, w') ->
  retryWithBackoff fn retries delay w = (Returned a, w').
Proof. intros H. destruct retries; simpl; now rewrite H. Qed.

(** The cascade, layer by layer. *)
Lemma enrichTransaction_run transaction examples w :
  let h := extractHeuristicData (pt_description transaction) in
  enrichTransaction transaction examples w =
  match ruleTableHit (Heuristic.merchant h) with
  | Some (m, c) => (Returned (spread transaction (Some m) (Some c) None), w)
  | None =>
      let w1 := countCacheRead (hydrated w) in
      match view w !! Heuristic.cacheKey h with
      | Some cached =>
          (Returned (spread transaction
                       (Some (Js.orElse (Heuristic.merchant h) (ed_merchant cached)))
                       (Some (ed_category cached)) (ed_enrichedInfo cached)),
           w1)
      | None =>
          match enrichReply (ai w) (remoteCalls w) (requestFor transaction examples) with
          | Some reply =>
              (Returned (finalData transaction reply),
               written (Heuristic.cacheKey h) (cachedFor transaction reply)
                       (countRemoteCall w1))
          | None =>
              (Returned (degraded transaction (Heuristic.merchant h)),
               countRemoteCall w1)
          end
      end
  end.
Proof.
  unfold enrichTransaction, remoteEnrichment.
  generalize (requestFor transaction examples). intros req.
  generalize (extractHeuristicData (pt_description transaction)). intros h. cbv zeta.
  destruct (ruleTableHit (Heuristic.merchant h)) as [[m c] |]; [reflexivity |].
  unfold bind at 1. rewrite getCachedEnrichment_run.
  destruct (view w !! Heuristic.cacheKey h) as [cached |]; [reflexivity |].
  set (w1 := countCacheRead (hydrated w)).
  assert (Hai : ai w1 = ai w) by (unfold w1; simpl; apply ai_hydrated).
  assert (Hn : remoteCalls w1 = remoteCalls w) by (unfold w1; simpl; apply remoteCalls_hydrated).
  destruct (enrichReply (ai w) (remoteCalls w) _) as [reply |] eqn:Hreply.
  - apply retry_returned.
    unfold tryCatch, remoteEnrichment, bind, generate.
    rewrite Hai, Hn, Hreply. rewrite setCachedEnrichment_run. reflexivity.
  - apply retry_returned.
    unfold tryCatch, remoteEnrichment, bind, generate.
    rewrite Hai, Hn, Hreply. reflexivity.
Qed.

Lemma view_counted w : view (countRemoteCall (countCacheRead (hydrated w))) = view w.
Proof. rewrite <- (view_hydrated w). reflexivity. Qed.

Lemma storage_counted w :
  storage (countRemoteCall (countCacheRead (hydrated w))) = storage w.
Proof. simpl. apply storage_hydrated. Qed.

Lemma no_rule_hit (o : option string) :
  (forall m, o = Some m -> getCategoryForMerchant m = None) ->
  ruleTableHit o = None.
Proof.
  intros H. rewrite ruleTableHit_spec. destruct o as [m |]; [| reflexivity].
  now rewrite (H m eq_refl).
Qed.

(** C1. The cascade short-circuits. When the rule table knows the extracted
    merchant, [enrichTransaction] returns the transaction with that merchant
    and the mapped category and leaves the world as it was: no cache read,
    no remote call. Otherwise, when the cache holds an entry for the cache
    key, it returns the transaction with the cached category and enriched
    info and with the extracted merchant if one was found (a non-empty
    string), the cached merchant if not, and makes no remote call. *)
Theorem enrich_short_circuits transaction examples w :
  let h := extractHeuristicData (pt_description transaction) in
  (forall m c,
      Heuristic.merchant h = Some m -> getCategoryForMerchant m = Some c ->
      enrichTransaction transaction examples w =
      (Returned (spread transaction (Some m) (Some c) None), w))
  /\
  (forall cached,
      (forall m, Heuristic.merchant h = Some m -> getCategoryForMerchant m = None) ->
      view w !! Heuristic.cacheKey h = Some cached ->
      exists merchant w',
        enrichTransaction transaction examples w =
        (Returned (spread transaction (Some merchant) (Some (ed_category cached))
                          (ed_enrichedInfo cached)), w')
        /\ remoteCalls w' = remoteCalls w
        /\ (forall m, Heuristic.merchant h = Some m -> m <> "" -> merchant = m)
        /\ (Js.truthy (Heuristic.merchant h) = false -> merchant = ed_merchant cached)).
Proof.
  intros h. split.
  - intros m c Hm Hc. rewrite enrichTransaction_run. fold h.
    rewrite ruleTableHit_spec, Hm, Hc. reflexivity.
  - intros cached Hrule Hcache. rewrite enrichTransaction_run. fold h.
    rewrite (no_rule_hit _ Hrule). cbv zeta. rewrite Hcache.
    eexists. eexists. split; [reflexivity |]. split.
    + simpl. apply remoteCalls_hydrated.
    + split.
      * intros m Hm Hne. rewrite Hm. simpl.
        destruct (String.eqb_spec m ""); congruence.
      * intros Hf. destruct (Heuristic.merchant h) as [m |]; [| reflexivity].
        simpl in *. destruct (String.eqb m ""); [reflexivity | discriminate].
Qed.

Lemma enrich_short_circuits_witness :
  enrichTransaction (sampleTransaction uberDescription) [] (freshWorld silentRemote) =
  (Returned (spread (sampleTransaction uberDescription) (Some uberMerchant)
                    (Some "Transport") None),
   freshWorld silentRemote)
  /\ exists w',
      enrichTransaction johnDoe [] cachedWorld =
      (Returned (spread johnDoe (Some "John Doe") (Some "Shopping") None), w')
      /\ remoteCalls w' = 0.
Proof.
  split.
  - apply (proj1 (enrich_short_circuits (sampleTransaction uberDescription) []
                    (freshWorld silentRemote))); reflexivity.
  - destruct (proj2 (enrich_short_circuits johnDoe [] cachedWorld)
                {| ed_merchant := "John D Enterprises"; ed_category := "Shopping";
                   ed_enrichedInfo := None |})
      as (merchant & w' & Hrun & Hcalls & Hm & _).
    + intros m Hm. vm_compute in Hm. injection Hm as <-. reflexivity.
    + reflexivity.
    + exists w'. rewrite Hrun.
      rewrite (Hm "John Doe"); [| reflexivity | discriminate].
      split; [reflexivity | exact Hcalls].
Defined.

(** C2. [enrichTransaction] never throws. When the resolution reaches the
    remote layer (no rule-table hit, no cache entry) and the remote call
    fails, it returns the transaction with the extracted merchant or
    "Unknown" and the category "Other", and the cache and the durable
    storage are as they were. The cache changes only when the remote call
    succeeded. *)
Theorem enrich_remote_failure_degrades transaction examples w :
  let h := extractHeuristicData (pt_description transaction) in
  (exists r w', enrichTransaction transaction examples w = (Returned r, w'))
  /\
  ((forall m, Heuristic.merchant h = Some m -> getCategoryForMerchant m = None) ->
   view w !! Heuristic.cacheKey h = None ->
   enrichReply (ai w) (remoteCalls w) (requestFor transaction examples) = None ->
   exists w',
     enrichTransaction transaction examples w =
     (Returned (spread transaction
                       (Some (Js.orElse (Heuristic.merchant h) "Unknown"))
                       (Some "Other") None), w')
     /\ view w' = view w /\ storage w' = storage w)
  /\
  (forall r w',
      enrichTransaction transaction examples w = (r, w') ->
      view w' <> view w ->
      exists reply,
        enrichReply (ai w) (remoteCalls w) (requestFor transaction examples) = Some reply).
Proof.
  intros h. rewrite enrichTransaction_run. fold h. cbv zeta.
  split; [| split].
  - destruct (ruleTableHit _) as [[m c] |]; [eauto |].
    destruct (view w !! _); [eauto |].
    destruct (enrichReply _ _ _); eauto.
  - intros Hrule Hcache Hfail.
    rewrite (no_rule_hit _ Hrule), Hcache, Hfail.
    eexists. split; [reflexivity |]. split; [apply view_counted | apply storage_counted].
  - intros r w'. destruct (ruleTableHit _) as [[m c] |].
    { intros [= _ <-] Hne. now contradiction Hne. }
    destruct (view w !! _).
    { intros [= _ <-] Hne. contradiction Hne. apply (view_hydrated w). }
    destruct (enrichReply _ _ _) as [reply |]; [eauto |].
    intros [= _ <-] Hne. contradiction Hne. apply view_counted.
Qed.

Lemma enrich_remote_failure_degrades_witness :
  exists w',
    enrichTransaction johnDoe [] (freshWorld silentRemote) =
    (Returned (spread johnDoe (Some "John Doe") (Some "Other") None), w')
    /\ view w' = ∅ /\ storage w' = Missing.
Proof.
  destruct (proj1 (proj2 (enrich_remote_failure_degrades johnDoe []
                            (freshWorld silentRemote))))
    as (w' & Hrun & Hview & Hst).
  - intros m Hm. vm_compute in Hm. injection Hm as <-. reflexivity.
  - reflexivity.
  - reflexivity.
  - exists w'. split; [exact Hrun | split; assumption].
Defined.

Lemma orElse_truthy (o : option string) d :
  Js.truthy o = true -> Some (Js.orElse o d) = o.
Proof.
  destruct o as [x |]; simpl; [| discriminate].
  destruct (String.eqb x ""); [discriminate | reflexivity].
Qed.

Lemma orElse_falsy (o : option string) d : Js.truthy o = false -> Js.orElse o d = d.
Proof.
  destruct o as [x |]; simpl; [| reflexivity].
  destruct (String.eqb x ""); [reflexivity | discriminate].
Qed.

(** C3, the claim as stated fails: a remote merchant that differs from the
    extracted one is returned by the first call and replaced by the
    extracted one when the second call is served from the cache. *)
Lemma enrich_twice_merchant_differs :
  ~ (forall transaction examples w r1 w1 r2 w2,
        enrichTransaction transaction examples w = (Returned r1, w1) ->
        enrichTransaction transaction examples w1 = (Returned r2, w2) ->
        et_merchant r1 = et_merchant r2 /\ et_category r1 = et_category r2
        /\ remoteCalls w2 = remoteCalls w1).
Proof.
  intros H.
  pose (w1 := snd (enrichTransaction johnDoe [] (freshWorld renamingRemote))).
  pose (w2 := snd (enrichTransaction johnDoe [] w1)).
  destruct (H johnDoe [] (freshWorld renamingRemote)
              (spread johnDoe (Some "John D Enterprises") (Some "Shopping") None) w1
              (spread johnDoe (Some "John Doe") (Some "Shopping") None) w2)
    as [Hm _].
  - vm_compute. reflexivity.
  - vm_compute. reflexivity.
  - discriminate Hm.
Qed.

(** C3, amended. When the first call is settled by the rule table, by a
    cache hit or by a successful remote call, a second call on the same
    transaction makes no remote call. It returns the category of the first
    call whenever that category is non-empty, and the merchant of the first
    call whenever that merchant is non-empty and the extractor found no
    merchant or that same merchant. After a rule-table or cache hit the two
    results are equal. *)
Theorem enrich_twice transaction examples w r1 w1 :
  let h := extractHeuristicData (pt_description transaction) in
  enrichTransaction transaction examples w = (Returned r1, w1) ->
  (ruleTableHit (Heuristic.merchant h) <> None
   \/ view w !! Heuristic.cacheKey h <> None
   \/ enrichReply (ai w) (remoteCalls w) (requestFor transaction examples) <> None) ->
  exists r2 w2,
    enrichTransaction transaction examples w1 = (Returned r2, w2)
    /\ remoteCalls w2 = remoteCalls w1
    /\ (Js.truthy (et_category r1) = true -> et_category r2 = et_category r1)
    /\ (Js.truthy (et_merchant r1) = true ->
        Js.truthy (Heuristic.merchant h) = false
        \/ Heuristic.merchant h = et_merchant r1 ->
        et_merchant r2 = et_merchant r1)
    /\ (ruleTableHit (Heuristic.merchant h) <> None
        \/ view w !! Heuristic.cacheKey h <> None -> r2 = r1).
Proof.
  intros h. rewrite !enrichTransaction_run. fold h. cbv zeta.
  destruct (ruleTableHit (Heuristic.merchant h)) as [[m c] |] eqn:Hrule.
  { intros [= <- <-] _. eexists. eexists.
    split; [reflexivity |]. repeat split; reflexivity. }
  destruct (view w !! Heuristic.cacheKey h) as [cached |] eqn:Hcache.
  { intros [= <- <-] _.
    change (view (countCacheRead (hydrated w))) with (view (hydrated w)).
    rewrite view_hydrated, Hcache. eexists. eexists.
    split; [reflexivity |]. split; [simpl; now rewrite remoteCalls_hydrated |].
    repeat split; reflexivity. }
  destruct (enrichReply (ai w) (remoteCalls w) _) as [reply |] eqn:Hreply.
  2:{ intros _ [Hc | [Hc | Hc]]; now contradiction Hc. }
  intros [= <- <-] _. rewrite view_written, lookup_insert_eq.
  eexists. eexists. split; [reflexivity |].
  split; [simpl; now rewrite remoteCalls_hydrated |]. split; [| split].
  - intros Ht. simpl. apply orElse_truthy. exact Ht.
  - intros Ht [Hf | Heq]; simpl.
    + rewrite (orElse_falsy _ _ Hf). apply orElse_truthy. exact Ht.
    + rewrite Heq. apply orElse_truthy. exact Ht.
  - intros [Hc | Hc]; now contradiction Hc.
Qed.

Lemma enrich_twice_witness :
  exists r2 w2,
    enrichTransaction johnDoe []
      (snd (enrichTransaction johnDoe [] (freshWorld renamingRemote))) =
    (Returned r2, w2)
    /\ remoteCalls w2 = 1
    /\ et_category r2 = Some "Shopping".
Proof.
  destruct (enrich_twice johnDoe [] (freshWorld renamingRemote)
              (spread johnDoe (Some "John D Enterprises") (Some "Shopping") None)
              (snd (enrichTransaction johnDoe [] (freshWorld renamingRemote))))
    as (r2 & w2 & Hrun & Hcalls & Hcat & _).
  - vm_compute. reflexivity.
  - right. right. discriminate.
  - exists r2, w2. split; [exact Hrun |]. split; [exact Hcalls |].
    apply Hcat. reflexivity.
Defined.

(** C5, the claim as stated fails: the rule table does know the merchant
    extracted from the sample description. *)
Lemma uber_does_not_fall_through :
  ~ (exists m,
        Heuristic.merchant (extractHeuristicData uberDescription) = Some m
        /\ Js.includes m "UBER" = true
        /\ Heuristic.cacheKey (extractHeuristicData uberDescription) = m
        /\ getCategoryForMerchant m = None).
Proof.
  intros (m & Hm & _ & _ & Hnone). vm_compute in Hm. injection Hm as <-.
  vm_compute in Hnone. discriminate.
Qed.

(** C5, amended. For the sample description the Pattern Extractor yields
    the merchant "UBER * PENDING AMSTERDAM", which contains "UBER", with a
    cache key equal to it; the rule table maps it to "Transport" through the
    keyword "uber", so [enrichTransaction] returns that merchant and that
    category and leaves the world as it was: the cache and the remote layer
    are not reached. The revised rule list extracts the same merchant. *)
Theorem uber_resolved_by_rule_table merchant amount category type date examples w :
  let transaction :=
    {| pt_merchant := merchant; pt_amount := amount; pt_category := category;
       pt_type := type; pt_date := date; pt_description := uberDescription |} in
  extractHeuristicData uberDescription =
    {| Heuristic.merchant := Some uberMerchant; Heuristic.cacheKey := uberMerchant |}
  /\ extractWith merchantExtractorsRevised uberDescription =
     extractHeuristicData uberDescription
  /\ Js.includes uberMerchant "UBER" = true
  /\ Js.includes (Js.toLowerCase uberMerchant) "uber" = true
  /\ getCategoryForMerchant uberMerchant = Some "Transport"
  /\ enrichTransaction transaction examples w =
     (Returned (spread transaction (Some uberMerchant) (Some "Transport") None), w).
Proof.
  intros transaction.
  assert (Hx : extractHeuristicData uberDescription =
               {| Heuristic.merchant := Some uberMerchant;
                  Heuristic.cacheKey := uberMerchant |}) by (vm_compute; reflexivity).
  assert (Hc : getCategoryForMerchant uberMerchant = Some "Transport")
    by (vm_compute; reflexivity).
  split; [exact Hx |]. split; [vm_compute; reflexivity |].
  split; [vm_compute; reflexivity |].
  split; [vm_compute; reflexivity |]. split; [exact Hc |].
  rewrite enrichTransaction_run. unfold transaction at 1 2. simpl pt_description.
  rewrite Hx. simpl Heuristic.merchant. rewrite ruleTableHit_spec, Hc. reflexivity.
Qed.

End EnrichFacts.

(** ** The batched variant *)

Section BatchFacts.
Import Heuristic CategoryMap Cache Gemini.

Lemma cacheBatchResults_run transactions results : forall w,
  exists w',
    cacheBatchResults transactions results w = (Returned tt, w')
    /\ remoteCalls w' = remoteCalls w
    /\ forall key,
        view w' !! key <> view w !! key ->
        exists result t,
          In result results /\ In t transactions
          /\ te_index t = br_index result /\ te_cacheKey t = key.
Proof.
  induction results as [| result rest IH]; intros w; simpl.
  - exists w. split; [reflexivity |]. split; [reflexivity |].
    intros key Hne. now contradiction Hne.
  - unfold bind.
    destruct (List.find _ transactions) as [originalTx |] eqn:Hfind.
    + rewrite setCachedEnrichment_run.
      set (data := {| ed_merchant := br_merchant result;
                      ed_category := br_category result;
                      ed_enrichedInfo := br_enrichedInfo result |}).
      destruct (IH (written (te_cacheKey originalTx) data w))
        as (w' & Hrun & Hcalls & Hkeys).
      exists w'. split; [exact Hrun |].
      split; [now rewrite Hcalls, remoteCalls_written |].
      apply find_some in Hfind. destruct Hfind as [Hin Hidx].
      apply Nat.eqb_eq in Hidx.
      intros key Hne.
      destruct (decide (te_cacheKey originalTx = key)) as [Hk | Hk].
      * exists result, originalTx. auto.
      * destruct (Hkeys key) as (result' & t & Hr & Ht).
        { rewrite view_written, lookup_insert_ne by exact Hk. exact Hne. }
        exists result', t. split; [now right | exact Ht].
    + destruct (IH w) as (w' & Hrun & Hcalls & Hkeys).
      exists w'. split; [exact Hrun |]. split; [exact Hcalls |].
      intros key Hne. destruct (Hkeys key Hne) as (result' & t & Hr & Ht).
      exists result', t. split; [now right | exact Ht].
Qed.

(** C6, the claim as stated fails: on success the output is the list the
    model answered with, and an index in it need not be one the caller
    sent. *)
Lemma batch_index_not_preserved :
  ~ (forall transactions examples w out w',
        batchEnrichTransactions transactions examples w = (Returned out, w') ->
        Forall (fun o => exists t, In t transactions /\ te_index t = br_index o) out).
Proof.
  intros H.
  specialize (H sampleBatch [] (freshWorld strayRemote)
                [{| br_index := 7; br_merchant := "Kiosk"; br_category := "Shopping";
                    br_enrichedInfo := None |}]
                (countRemoteCall (freshWorld strayRemote)) eq_refl).
  inversion H as [| o out (t & Hin & Hidx) _]; subst.
  simpl in Hin, Hidx. destruct Hin as [<- | [<- | []]]; discriminate.
Qed.

(** C6, amended. The batched enrichment never throws. An empty batch
    returns an empty list without a remote call. When the remote call
    fails, the output has one item per input item, in the order of the
    input, each with the index of its input item, the identified merchant
    or "Unknown" and the category "Other". When the remote call succeeds,
    the output is the list the model answered with, every item carrying the
    index the model gave it, and a cache entry changes only under the cache
    key of an input item whose index the model answered with. *)
Theorem batch_enrich_outputs transactions examples w :
  (exists out w',
      batchEnrichTransactions transactions examples w = (Returned out, w'))
  /\ (transactions = [] ->
      batchEnrichTransactions transactions examples w = (Returned [], w))
  /\ (transactions <> [] ->
      batchReply (ai w) (remoteCalls w) examples (map batchItem transactions) = None ->
      exists out,
        batchEnrichTransactions transactions examples w =
        (Returned out, countRemoteCall w)
        /\ out = map batchFallback transactions
        /\ map br_index out = map te_index transactions
        /\ Forall2 (fun t o => br_merchant o = Js.orElse (te_identifiedMerchant t) "Unknown"
                               /\ br_category o = "Other")
                   transactions out)
  /\ (forall results,
      transactions <> [] ->
      batchReply (ai w) (remoteCalls w) examples (map batchItem transactions)
      = Some results ->
      exists w',
        batchEnrichTransactions transactions examples w = (Returned results, w')
        /\ remoteCalls w' = S (remoteCalls w)
        /\ forall key,
            view w' !! key <> view w !! key ->
            exists result t,
              In result results /\ In t transactions
              /\ te_index t = br_index result /\ te_cacheKey t = key).
Proof.
  assert (Hfail : transactions <> [] ->
      batchReply (ai w) (remoteCalls w) examples (map batchItem transactions) = None ->
      batchEnrichTransactions transactions examples w =
      (Returned (map batchFallback transactions), countRemoteCall w)).
  { intros Hne Hreply. destruct transactions as [| t ts]; [congruence |].
    unfold batchEnrichTransactions. apply retry_returned.
    unfold tryCatch, bind, generate. now rewrite Hreply. }
  assert (Hok : forall results, transactions <> [] ->
      batchReply (ai w) (remoteCalls w) examples (map batchItem transactions)
      = Some results ->
      exists w',
        batchEnrichTransactions transactions examples w = (Returned results, w')
        /\ remoteCalls w' = S (remoteCalls w)
        /\ forall key,
            view w' !! key <> view w !! key ->
            exists result t,
              In result results /\ In t transactions
              /\ te_index t = br_index result /\ te_cacheKey t = key).
  { intros results Hne Hreply. destruct transactions as [| t ts]; [congruence |].
    destruct (cacheBatchResults_run (t :: ts) results (countRemoteCall w))
      as (w' & Hrun & Hcalls & Hkeys).
    exists w'. split; [| split; [exact Hcalls | exact Hkeys]].
    unfold batchEnrichTransactions. apply retry_returned.
    unfold tryCatch, bind, generate. rewrite Hreply, Hrun. reflexivity. }
  split; [| split; [| split]].
  - destruct transactions as [| t ts] eqn:Ht; [eexists; eexists; reflexivity |].
    destruct (batchReply (ai w) (remoteCalls w) examples (map batchItem (t :: ts)))
      as [results |] eqn:Hreply.
    + destruct (Hok results) as (w' & Hrun & _); [discriminate | reflexivity |]. eauto.
    + rewrite Hfail; [eauto | discriminate | reflexivity].
  - intros ->. reflexivity.
  - intros Hne Hreply. eexists. split; [apply Hfail; assumption |].
    split; [reflexivity |]. split.
    + rewrite map_map. reflexivity.
    + clear. induction transactions; simpl; constructor; auto.
  - exact Hok.
Qed.

Lemma batch_enrich_outputs_witness :
  exists out,
    batchEnrichTransactions sampleBatch [] (freshWorld silentRemote) =
    (Returned out, countRemoteCall (freshWorld silentRemote))
    /\ map br_index out = [0; 3]
    /\ map br_merchant out = ["Unknown"; "John Doe"].
Proof.
  destruct (proj1 (proj2 (proj2 (batch_enrich_outputs sampleBatch []
                                   (freshWorld silentRemote)))))
    as (out & Hrun & Hout & Hidx & _).
  - discriminate.
  - reflexivity.
  - exists out. split; [exact Hrun |]. split; [exact Hidx |].
    rewrite Hout. reflexivity.
Defined.

End BatchFacts.

(** ** Retries *)

Section RetryFacts.
Import Gemini.
Local Open Scope nat_scope.

Lemma generate_run {A} (answer : Remote -> nat -> option A) w :
  generate answer w =
  match answer (ai w) (remoteCalls w) with
  | Some a => (Returned a, countRemoteCall w)
  | None => (Thrown "Failed to parse AI response.", countRemoteCall w)
  end.
Proof. reflexivity. Qed.

Lemma retry_all_fail {A} (answer : Remote -> nat -> option A) message retries :
  forall delay w,
    (forall k, k <= retries -> answer (ai w) (remoteCalls w + k) = None) ->
    exists w',
      retryWithBackoff (rethrowing answer message) retries delay w = (Thrown message, w')
      /\ ai w' = ai w
      /\ remoteCalls w' = remoteCalls w + retries + 1
      /\ sleeps w' = (sleeps w ++ backoffDelays retries delay)%list.
Proof.
  induction retries as [| retries IH]; intros delay w Hfail.
  - pose proof (Hfail 0 (le_n 0)) as H0. rewrite Nat.add_0_r in H0.
    exists (countRemoteCall w). simpl. unfold rethrowing, tryCatch, generate, throw.
    rewrite H0. simpl.
    repeat split; [lia | now rewrite app_nil_r].
  - pose proof (Hfail 0 (Nat.le_0_l _)) as H0. rewrite Nat.add_0_r in H0.
    simpl. unfold rethrowing at 1, tryCatch, generate, throw.
    rewrite H0.
    destruct (IH (delay * 2) (sleep delay (countRemoteCall w)))
      as (w' & Hrun & Hai & Hcalls & Hsleeps).
    { intros k Hk. simpl. rewrite <- Nat.add_succ_r. apply Hfail. lia. }
    exists w'. split; [exact Hrun |]. split; [exact Hai |]. split.
    + rewrite Hcalls. simpl. lia.
    + rewrite Hsleeps. simpl. now rewrite <- app_assoc.
Qed.

Lemma retry_succeeds_at {A} (answer : Remote -> nat -> option A) message a :
  forall k retries delay w,
    k <= retries ->
    (forall j, j < k -> answer (ai w) (remoteCalls w + j) = None) ->
    answer (ai w) (remoteCalls w + k) = Some a ->
    exists w',
      retryWithBackoff (rethrowing answer message) retries delay w = (Returned a, w')
      /\ remoteCalls w' = remoteCalls w + k + 1
      /\ sleeps w' = (sleeps w ++ firstn k (backoffDelays retries delay))%list.
Proof.
  induction k as [| k IH]; intros retries delay w Hk Hfail Hok.
  - exists (countRemoteCall w). rewrite Nat.add_0_r in Hok. split.
    + apply retry_returned. unfold rethrowing, tryCatch, generate. now rewrite Hok.
    + simpl. split; [lia | now rewrite app_nil_r].
  - destruct retries as [| retries]; [lia |].
    pose proof (Hfail 0 (Nat.lt_0_succ _)) as H0. rewrite Nat.add_0_r in H0.
    simpl. unfold rethrowing at 1, tryCatch, generate, throw.
    rewrite H0.
    destruct (IH retries (delay * 2) (sleep delay (countRemoteCall w)))
      as (w' & Hrun & Hcalls & Hsleeps).
    + lia.
    + intros j Hj. simpl. rewrite <- Nat.add_succ_r. apply Hfail. lia.
    + simpl. rewrite <- Nat.add_succ_r. exact Hok.
    + exists w'. split; [exact Hrun |]. split.
      * rewrite Hcalls. simpl. lia.
      * rewrite Hsleeps. simpl. now rewrite <- app_assoc.
Qed.

Lemma validate_run description newCategory w :
  let key := validationKey description newCategory in
  validateCategoryMismatch description newCategory w =
  match validationCache w !! key with
  | Some verdict => (Returned verdict, w)
  | None =>
      if String.eqb newCategory "Other" || String.eqb newCategory "General"
      then (Returned true, w)
      else
        match validateReply (ai w) (remoteCalls w) description newCategory with
        | Some is_logical =>
            (Returned is_logical,
             setValidationCache (<[key := is_logical]> (validationCache w))
                                (countRemoteCall w))
        | None => (Returned true, countRemoteCall w)
        end
  end.
Proof.
  intros key. unfold validateCategoryMismatch. fold key.
  destruct (validationCache w !! key); [reflexivity |].
  destruct (String.eqb newCategory "Other" || String.eqb newCategory "General");
    [reflexivity |].
  destruct (validateReply (ai w) (remoteCalls w) description newCategory) eqn:Hreply;
    apply retry_returned; unfold tryCatch, bind, generate, modify, ret;
    rewrite Hreply; reflexivity.
Qed.

(** A failing enrichment call is made once: its [catch] block answers
    before [retryWithBackoff] sees an error, so there is no pause and no
    second attempt. *)
Lemma enrich_failure_is_attempted_once transaction examples w :
  let h := Heuristic.extractHeuristicData (pt_description transaction) in
  ruleTableHit (Heuristic.merchant h) = None ->
  Cache.view w !! Heuristic.cacheKey h = None ->
  enrichReply (ai w) (remoteCalls w) (requestFor transaction examples) = None ->
  remoteCalls (snd (enrichTransaction transaction examples w)) = S (remoteCalls w)
  /\ sleeps (snd (enrichTransaction transaction examples w)) = sleeps w.
Proof.
  intros h Hrule Hcache Hfail. rewrite enrichTransaction_run. fold h.
  rewrite Hrule. cbv zeta. rewrite Hcache, Hfail. simpl.
  unfold Cache.hydrated. destruct (memoryCache w); split; reflexivity.
Qed.




(** C9, the claim as stated fails. The verdicts are memoised under a key
    that folds the case of the category, and the memo is consulted first:
    once the model has found "x" as "other" illogical, asking about "x" as
    "Other" returns [false]. *)
Lemma validate_other_can_be_false :
  (let w1 := snd (validateCategoryMismatch "x" "other" (freshWorld scepticalRemote)) in
   validateCategoryMismatch "x" "Other" w1 = (Returned false, w1))
  /\ ~ (forall description w,
          exists w',
            validateCategoryMismatch description "Other" w = (Returned true, w')
            /\ remoteCalls w' = remoteCalls w).
Proof.
  split.
  - vm_compute. reflexivity.
  - intros H.
    destruct (H "x" (snd (validateCategoryMismatch "x" "other"
                            (freshWorld scepticalRemote)))) as (w' & Hrun & _).
    vm_compute in Hrun. discriminate.
Qed.

(** C9, amended. [validateCategoryMismatch] never throws. A verdict
    memoised for the description and the category (trimmed, case folded)
    is returned as it is, without a remote call. Without a memoised
    verdict, the categories "Other" and "General" return [true] without a
    remote call, and a failing remote call returns [true] and memoises
    nothing. [false] is returned only when it is the memoised verdict or
    when the remote call succeeds and reports the categorisation as not
    logical. *)
Theorem validate_fail_open description newCategory w :
  let key := validationKey description newCategory in
  (exists verdict w',
      validateCategoryMismatch description newCategory w = (Returned verdict, w'))
  /\ (forall verdict,
        validationCache w !! key = Some verdict ->
        validateCategoryMismatch description newCategory w = (Returned verdict, w))
  /\ (validationCache w !! key = None ->
      newCategory = "Other" \/ newCategory = "General" ->
      validateCategoryMismatch description newCategory w = (Returned true, w))
  /\ (validationCache w !! key = None ->
      validateReply (ai w) (remoteCalls w) description newCategory = None ->
      exists w',
        validateCategoryMismatch description newCategory w = (Returned true, w')
        /\ validationCache w' = validationCache w)
  /\ (forall w',
        validateCategoryMismatch description newCategory w = (Returned false, w') ->
        validationCache w !! key = Some false
        \/ (validationCache w !! key = None
            /\ validateReply (ai w) (remoteCalls w) description newCategory = Some false)).
Proof.
  intros key. rewrite validate_run. fold key. cbv zeta.
  split; [| split; [| split; [| split]]].
  - destruct (validationCache w !! key); [eauto |].
    destruct (_ || _); [eauto |]. destruct (validateReply _ _ _ _); eauto.
  - intros verdict ->. reflexivity.
  - intros -> [-> | ->]; reflexivity.
  - intros -> ->. destruct (_ || _); eexists; split; reflexivity.
  - intros w'. destruct (validationCache w !! key) as [verdict |].
    { intros [= -> _]. now left. }
    destruct (_ || _); [discriminate |].
    destruct (validateReply _ _ _ _) as [b |]; [| discriminate].
    intros [= -> _]. right. split; reflexivity.
Qed.

Lemma validate_fail_open_witness :
  validateCategoryMismatch "x" "Other" (freshWorld scepticalRemote) =
  (Returned true, freshWorld scepticalRemote)
  /\ exists w',
      validateCategoryMismatch "Lipa na M-PESA to Naivas" "Groceries"
        (freshWorld silentRemote) = (Returned true, w')
      /\ validationCache w' = ∅.
Proof.
  split.
  - apply (proj1 (proj2 (proj2 (validate_fail_open "x" "Other"
                                  (freshWorld scepticalRemote))))).
    + reflexivity.
    + left. reflexivity.
  - apply (proj1 (proj2 (proj2 (proj2 (validate_fail_open "Lipa na M-PESA to Naivas"
                                         "Groceries" (freshWorld silentRemote))))));
      reflexivity.
Defined.

End RetryFacts.

(** ** The budget statistics *)

Section BudgetFacts.
Import Budget.
Local Open Scope Q_scope.

Lemma Qltb_lt a b : Qltb a b = true <-> a < b.
Proof.
  unfold Qltb. rewrite negb_true_iff. split.
  - intros H. apply Qnot_le_lt. intros Hle. apply Qle_bool_iff in Hle. congruence.
  - intros H. destruct (Qle_bool b a) eqn:E; [| reflexivity].
    apply Qle_bool_iff in E. lra.
Qed.

Lemma countRisky_shift drafts : forall n,
  fold_left countRisky drafts n = (n + fold_left countRisky drafts 0%nat)%nat.
Proof.
  induction drafts as [| d drafts IH]; intros n; simpl; [lia |].
  rewrite (IH (countRisky n d)), (IH (countRisky 0 d)). unfold countRisky.
  destruct (cutBelowMinimum d); [lia |]. destruct (deepCutOnRecurring d); lia.
Qed.

Lemma riskyCuts_app l1 l2 income :
  riskyCuts (impactAnalysis (l1 ++ l2) income) =
  (riskyCuts (impactAnalysis l1 income) + riskyCuts (impactAnalysis l2 income))%nat.
Proof. simpl. rewrite fold_left_app. apply countRisky_shift. Qed.

(** C8. [impactAnalysis] counts a draft as a risky cut when it is not a
    savings category, its limit is below its historical minimum and its
    volatility is below 0.2; a draft whose [isSavings] flag is set adds
    nothing to the count, whatever its limit. *)
Theorem risky_cut_counting l1 d l2 income :
  (isSavings d = false -> limit d < min d -> volatility d < 2 # 10 ->
   riskyCuts (impactAnalysis (l1 ++ d :: l2) income) =
   S (riskyCuts (impactAnalysis (l1 ++ l2) income)))
  /\ (isSavings d = true ->
      riskyCuts (impactAnalysis (l1 ++ d :: l2) income) =
      riskyCuts (impactAnalysis (l1 ++ l2) income)).
Proof.
  rewrite !riskyCuts_app. change (d :: l2) with ([d] ++ l2)%list.
  rewrite riskyCuts_app. split.
  - intros Hs Hl Hv. apply Qltb_lt in Hl, Hv.
    assert (riskyCuts (impactAnalysis [d] income) = 1%nat) as ->; [| lia].
    simpl. unfold countRisky, cutBelowMinimum. now rewrite Hs, Hl, Hv.
  - intros Hs.
    assert (riskyCuts (impactAnalysis [d] income) = 0%nat) as ->; [| lia].
    simpl. unfold countRisky, cutBelowMinimum, deepCutOnRecurring. now rewrite Hs.
Qed.

Lemma risky_cut_counting_witness :
  riskyCuts (impactAnalysis ([emptiedSavings] ++ stableRent :: [emptiedSavings]) 0) = 1%nat
  /\ riskyCuts (impactAnalysis ([] ++ emptiedSavings :: []) 0) = 0%nat.
Proof.
  split.
  - rewrite (proj1 (risky_cut_counting [emptiedSavings] stableRent [emptiedSavings] 0));
      reflexivity.
  - rewrite (proj2 (risky_cut_counting [] emptiedSavings [] 0)); reflexivity.
Defined.

Lemma Math_round_integer x : isIntegerQ (Math_round x).
Proof. exists (Qfloor (x + (1 # 2))). reflexivity. Qed.

Lemma Math_round_close x : Qabs (Math_round x - x) <= 1 # 2.
Proof.
  unfold Math_round. apply Qabs_Qle_condition.
  pose proof (Qfloor_le (x + (1 # 2))) as Hle.
  pose proof (Qlt_floor (x + (1 # 2))) as Hlt.
  rewrite inject_Z_plus in Hlt. change (inject_Z 1) with 1 in Hlt.
  split; lra.
Qed.

Lemma suggestion_integer profile avg s dsc :
  isIntegerQ (fst (suggestion profile avg s dsc)).
Proof.
  unfold suggestion. destruct profile as [profile |]; [| apply Math_round_integer].
  destruct s; [destruct (bool_decide _); apply Math_round_integer |].
  destruct dsc; [| apply Math_round_integer].
  destruct (bool_decide _); [apply Math_round_integer |].
  destruct (bool_decide _); apply Math_round_integer.
Qed.

Lemma In_insertBy {A} (leb : A -> A -> bool) x y l :
  In y (insertBy leb x l) <-> y = x \/ In y l.
Proof.
  induction l as [| z l IH]; simpl; [intuition |].
  destruct (leb x z); simpl; [intuition |]. rewrite IH. intuition.
Qed.

Lemma In_sortBy {A} (leb : A -> A -> bool) y l : In y (sortBy leb l) <-> In y l.
Proof.
  induction l as [| x l IH]; simpl; [reflexivity |].
  rewrite In_insertBy, IH. intuition.
Qed.

Lemma In_computeDrafts sqrt budgets profile transactions d :
  In d (computeDrafts sqrt budgets profile transactions) <->
  exists cat byMonth,
    In (cat, byMonth) (expenseByMonthCategory (tally transactions))
    /\ d = draftFor sqrt budgets profile (sortedMonths transactions) cat byMonth.
Proof.
  unfold computeDrafts. rewrite In_sortBy, in_map_iff. split.
  - intros ([cat byMonth] & <- & Hin). eauto.
  - intros (cat & byMonth & Hin & ->). exists (cat, byMonth). auto.
Qed.

Lemma average_draftFor sqrt budgets profile months cat byMonth :
  average (draftFor sqrt budgets profile months cat byMonth) =
  Math_round (sumQ (monthlyValuesOf byMonth months) / lenOr1 (length months)).
Proof. reflexivity. Qed.

Lemma history_draftFor sqrt budgets profile months cat byMonth :
  history (draftFor sqrt budgets profile months cat byMonth) =
  monthlyValuesOf byMonth months.
Proof. reflexivity. Qed.

Lemma category_draftFor sqrt budgets profile months cat byMonth :
  category (draftFor sqrt budgets profile months cat byMonth) = cat.
Proof. reflexivity. Qed.

Lemma limit_draftFor sqrt budgets profile months cat byMonth :
  limit (draftFor sqrt budgets profile months cat byMonth) =
  match List.find (fun b => String.eqb (b_category b) cat) budgets with
  | Some b => b_limit b
  | None =>
      fst (suggestion profile
             (sumQ (monthlyValuesOf byMonth months) / lenOr1 (length months))
             (bool_decide (cat ∈ SAVINGS_CATEGORIES))
             (bool_decide (cat ∈ DISCRETIONARY_CATEGORIES)))
  end.
Proof. reflexivity. Qed.

Lemma length_monthlyValuesOf byMonth months :
  length (monthlyValuesOf byMonth months) = length months.
Proof. apply length_map. Qed.



(** *** The order of the month keys *)

Lemma string_leb_trans a : forall b c,
  String.leb a b = true -> String.leb b c = true -> String.leb a c = true.
Proof.
  unfold String.leb.
  induction a as [| x a IH]; intros [| y b] [| z c]; simpl;
    try (intros; reflexivity || discriminate).
  unfold Ascii.compare.
  destruct (N.compare_spec (N_of_ascii x) (N_of_ascii y));
    destruct (N.compare_spec (N_of_ascii y) (N_of_ascii z));
    destruct (N.compare_spec (N_of_ascii x) (N_of_ascii z));
    try lia; try (intros; reflexivity || discriminate); apply IH.
Qed.

Lemma string_ltb_leb a b : String.ltb a b = true <-> String.leb a b = true /\ a <> b.
Proof.
  unfold String.ltb, String.leb.
  destruct (String.compare a b) eqn:E; split.
  - discriminate.
  - intros [_ Hne]. contradiction Hne. now apply String.compare_eq_iff.
  - intros _. split; [reflexivity |]. intros ->.
    pose proof (String.compare_antisym b b) as H. rewrite E in H. discriminate H.
  - reflexivity.
  - discriminate.
  - intros [H _]. exact H.
Qed.

(** *** Sorting *)

Section SortBy.
Context {A : Type} (leb : A -> A -> bool).
Hypothesis leb_total : forall a b, leb a b = true \/ leb b a = true.
Hypothesis leb_trans : forall a b c, leb a b = true -> leb b c = true -> leb a c = true.

Let le (a b : A) : Prop := leb a b = true.

Lemma insertBy_perm x l : Permutation (insertBy leb x l) (x :: l).
Proof.
  induction l as [| y l IH]; simpl; [reflexivity |].
  destruct (leb x y); [reflexivity |].
  rewrite IH. apply perm_swap.
Qed.

Lemma sortBy_perm l : Permutation (sortBy leb l) l.
Proof.
  induction l as [| x l IH]; simpl; [reflexivity |].
  rewrite insertBy_perm. now constructor.
Qed.

Lemma insertBy_sorted x l :
  StronglySorted le l -> StronglySorted le (insertBy leb x l).
Proof.
  induction 1 as [| y l Hs IH Hall]; simpl.
  - repeat constructor.
  - destruct (leb x y) eqn:E.
    + constructor; [now constructor |]. constructor; [exact E |].
      eapply List.Forall_impl; [| exact Hall]. intros z Hz. exact (leb_trans _ _ _ E Hz).
    + constructor; [exact IH |].
      apply List.Forall_forall. intros z Hz. apply In_insertBy in Hz.
      destruct Hz as [-> | Hz].
      * destruct (leb_total x y) as [H | H]; [congruence | exact H].
      * rewrite List.Forall_forall in Hall. now apply Hall.
Qed.

Lemma sortBy_sorted l : StronglySorted le (sortBy leb l).
Proof.
  induction l as [| x l IH]; simpl; [constructor | now apply insertBy_sorted].
Qed.
End SortBy.

Lemma StronglySorted_rev {A} (R : A -> A -> Prop) l :
  StronglySorted R l -> StronglySorted (fun a b => R b a) (rev l).
Proof.
  induction 1 as [| x l Hs IH Hall]; simpl; [constructor |].
  apply StronglySorted_app. split; [| split; [exact IH | repeat constructor]].
  intros a b Ha Hb. apply list_elem_of_In in Ha, Hb.
  destruct Hb as [<- | []]. rewrite List.Forall_forall in Hall.
  apply Hall. now apply in_rev.
Qed.

Lemma StronglySorted_strict l :
  StronglySorted (fun a b => String.leb a b = true) l -> NoDup l ->
  StronglySorted (fun a b => String.ltb a b = true) l.
Proof.
  induction 1 as [| x l Hs IH Hall]; intros Hnd; [constructor |].
  apply NoDup_cons in Hnd. destruct Hnd as [Hx Hnd].
  constructor; [now apply IH |].
  rewrite List.Forall_forall in Hall. apply List.Forall_forall. intros y Hy.
  apply string_ltb_leb. split; [now apply Hall |].
  intros ->. apply Hx. now apply list_elem_of_In.
Qed.

(** The months of a set, latest key first. *)
Lemma descending_months (months : gset string) :
  let l := rev (sortBy String.leb (elements months)) in
  StronglySorted (fun a b => String.ltb b a = true) l
  /\ forall m, In m l <-> m ∈ months.
Proof.
  intros l. split.
  - apply (StronglySorted_rev (fun a b => String.ltb a b = true)).
    apply StronglySorted_strict.
    + apply sortBy_sorted; [apply String.leb_total | intros a b c; apply string_leb_trans].
    + rewrite (sortBy_perm String.leb (elements months)). apply NoDup_elements.
  - intros m. unfold l. rewrite <- in_rev, In_sortBy, <- list_elem_of_In.
    apply elem_of_elements.
Qed.

(** *** The pass over the transactions *)

Lemma allMonthsSet_step acc t :
  allMonthsSet (tallyStep acc t) = {[ monthKey (t_date t) ]} ∪ allMonthsSet acc.
Proof. unfold tallyStep. destruct (t_type t), (t_isTransfer t); reflexivity. Qed.

Lemma months_fold transactions : forall acc m,
  m ∈ allMonthsSet (fold_left tallyStep transactions acc) <->
  m ∈ allMonthsSet acc \/ exists t, In t transactions /\ monthKey (t_date t) = m.
Proof.
  induction transactions as [| t ts IH]; intros acc m; simpl.
  - split; [auto | intros [H | (t & [] & _)]; exact H].
  - rewrite IH, allMonthsSet_step, elem_of_union, elem_of_singleton. split.
    + intros [[-> | H] | (t' & Hin & Hk)]; eauto.
    + intros [H | (t' & [<- | Hin] & Hk)]; eauto.
Qed.

Lemma alGet_In {V} k (v : V) l : alGet k l = Some v -> In (k, v) l.
Proof.
  induction l as [| [k' v'] l IH]; simpl; [discriminate |].
  destruct (String.eqb_spec k k') as [<- | Hne]; [intros [= ->]; now left | auto].
Qed.

Lemma In_alSet {V} k (v : V) l k' v' :
  In (k', v') (alSet k v l) -> (k' = k /\ v' = v) \/ In (k', v') l.
Proof.
  induction l as [| [k0 v0] l IH]; simpl.
  - intros [[= <- <-] | []]. now left.
  - destruct (String.eqb k k0); simpl.
    + intros [[= <- <-] | H]; auto.
    + intros [H | H]; [auto |]. destruct (IH H); auto.
Qed.

Lemma expense_step acc t cat byMonth m (v : Q) :
  In (cat, byMonth) (expenseByMonthCategory (tallyStep acc t)) ->
  byMonth !! m = Some v ->
  (exists byMonth0 v0,
      In (cat, byMonth0) (expenseByMonthCategory acc) /\ byMonth0 !! m = Some v0)
  \/ (t_type t = Expense /\ t_isTransfer t = false /\ t_category t = cat
      /\ monthKey (t_date t) = m).
Proof.
  unfold tallyStep. destruct (t_type t) eqn:Hty, (t_isTransfer t) eqn:Htr; simpl;
    try solve [intros Hin Hv; left; eauto].
  intros Hin Hv. apply In_alSet in Hin. destruct Hin as [[-> ->] | Hin]; [| left; eauto].
  destruct (decide (monthKey (t_date t) = m)) as [Hk | Hk]; [right; auto |].
  rewrite lookup_insert_ne in Hv by exact Hk.
  destruct (alGet (t_category t) (expenseByMonthCategory acc)) as [old |] eqn:Hget.
  - left. apply alGet_In in Hget. eauto.
  - rewrite lookup_empty in Hv. discriminate.
Qed.

Lemma expense_fold transactions : forall acc cat byMonth m (v : Q),
  In (cat, byMonth) (expenseByMonthCategory (fold_left tallyStep transactions acc)) ->
  byMonth !! m = Some v ->
  (exists byMonth0 v0,
      In (cat, byMonth0) (expenseByMonthCategory acc) /\ byMonth0 !! m = Some v0)
  \/ (exists t, In t transactions /\ t_type t = Expense /\ t_isTransfer t = false
                /\ t_category t = cat /\ monthKey (t_date t) = m).
Proof.
  induction transactions as [| t ts IH]; intros acc cat byMonth m v Hin Hv; simpl in *.
  - left. eauto.
  - destruct (IH _ _ _ _ _ Hin Hv) as [(byMonth0 & v0 & Hin0 & Hv0) | (t' & Ht' & H)].
    + destruct (expense_step _ _ _ _ _ _ Hin0 Hv0) as [H | H]; [left; exact H |].
      right. exists t. split; [now left | exact H].
    + right. exists t'. split; [now right | exact H].
Qed.




End BudgetFacts.


(** * Further properties *)

(** ** Strings and the Pattern Extractor *)

Section ExtractorFacts.
Import Heuristic.

Lemma collapseFrom_again s :
  Js.collapseFrom true (Js.collapseFrom true s) = Js.collapseFrom true s
  /\ Js.collapseFrom false (Js.collapseFrom true s) = Js.collapseFrom true s
  /\ Js.collapseFrom false (Js.collapseFrom false s) = Js.collapseFrom false s.
Proof.
  induction s as [| c s (IH1 & IH2 & IH3)]; [repeat split |].
  simpl. destruct (Js.isSpace c) eqn:Hc.
  - split; [exact IH1 |]. split; [exact IH2 |].
    simpl. now rewrite IH1.
  - simpl. rewrite Hc, IH3. repeat split.
Qed.

Lemma trimStart_head s :
  Js.trimStart s = EmptyString
  \/ exists c r, Js.trimStart s = String c r /\ Js.isSpace c = false.
Proof.
  induction s as [| c s IH]; [now left |]. simpl.
  destruct (Js.isSpace c) eqn:Hc; [exact IH | right; eauto].
Qed.

Lemma trimEnd_again s : Js.trimEnd (Js.trimEnd s) = Js.trimEnd s.
Proof.
  induction s as [| c s IH]; [reflexivity |]. simpl.
  destruct (Js.trimEnd s) as [| x r] eqn:E.
  - destruct (Js.isSpace c) eqn:Hc; [reflexivity |]. simpl. now rewrite Hc.
  - change (Js.trimEnd (String c (String x r))) with
      (match Js.trimEnd (String x r) with
       | EmptyString => if Js.isSpace c then EmptyString else String c EmptyString
       | String a b => String c (String a b)
       end).
    now rewrite IH.
Qed.

Lemma trimEnd_head c r :
  Js.isSpace c = false -> exists r', Js.trimEnd (String c r) = String c r'.
Proof.
  intros Hc. simpl. destruct (Js.trimEnd r); [rewrite Hc |]; eauto.
Qed.

Lemma trim_again s : Js.trim (Js.trim s) = Js.trim s.
Proof.
  unfold Js.trim. destruct (trimStart_head s) as [-> | (c & r & -> & Hc)]; [reflexivity |].
  destruct (trimEnd_head c r Hc) as [r' Hr]. rewrite Hr. simpl. rewrite Hc.
  rewrite <- Hr. apply trimEnd_again.
Qed.

Lemma firstExtraction_collapsed rules trimmed m :
  firstExtraction rules trimmed = Some m -> Js.collapseSpaces m = m.
Proof.
  induction rules as [| extractor rest IH]; simpl; [discriminate |].
  destruct (Regex.jsMatch _ _) as [[g |] |]; try exact IH.
  destruct (String.eqb g ""); [exact IH |].
  intros [= <-]. apply collapseFrom_again.
Qed.

(** X1. Whatever the rule list and the description, an extracted merchant
    is whitespace-normalised: replacing its runs of whitespace by single
    spaces once more changes nothing, and it is the cache key. *)
Theorem extracted_merchant_is_normalised rules description m :
  Heuristic.merchant (extractWith rules description) = Some m ->
  Js.collapseSpaces m = m /\ Heuristic.cacheKey (extractWith rules description) = m.
Proof.
  unfold extractWith.
  destruct (firstExtraction rules (Js.trim description)) as [m' |] eqn:E; simpl;
    [| discriminate].
  intros [= <-]. split; [exact (firstExtraction_collapsed _ _ _ E) | reflexivity].
Qed.

Lemma extracted_merchant_is_normalised_witness :
  Js.collapseSpaces "Agent 12345 - Mama Shop" = "Agent 12345 - Mama Shop"
  /\ Heuristic.cacheKey
       (extractWith merchantExtractors
          "Withdrawal from Agent 12345 - Mama   Shop at Kawangware")
     = "Agent 12345 - Mama Shop".
Proof.
  apply (extracted_merchant_is_normalised merchantExtractors
           "Withdrawal from Agent 12345 - Mama   Shop at Kawangware").
  reflexivity.
Defined.

(** X2. The extractor does not see the whitespace around a description:
    trimming the input beforehand gives the same merchant and the same
    cache key, and the cache key of an unmatched description is itself
    trimmed. *)
Theorem extractor_ignores_outer_whitespace rules description :
  extractWith rules (Js.trim description) = extractWith rules description
  /\ (Heuristic.merchant (extractWith rules description) = None ->
      Js.trim (Heuristic.cacheKey (extractWith rules description))
      = Heuristic.cacheKey (extractWith rules description)).
Proof.
  unfold extractWith. rewrite trim_again. split; [reflexivity |].
  destruct (firstExtraction rules (Js.trim description)); simpl;
    [discriminate | intros _; apply trim_again].
Qed.

Lemma extractor_ignores_outer_whitespace_witness :
  Js.trim (Heuristic.cacheKey (extractHeuristicData "   hello world  "))
  = Heuristic.cacheKey (extractHeuristicData "   hello world  ").
Proof.
  apply (proj2 (extractor_ignores_outer_whitespace merchantExtractors "   hello world  ")).
  reflexivity.
Defined.

End ExtractorFacts.

(** ** The rule table *)

Section RuleTableMore.
Import CategoryMap.

Lemma lookupRules_category rules s c :
  lookupRules rules s = Some c -> In c (map category rules).
Proof.
  induction rules as [| r rules IH]; simpl; [discriminate |].
  destruct (existsb _ _); [intros [= <-]; now left | intros H; right; auto].
Qed.

(** X3. The rule table answers with one of its eight categories and with
    nothing else: never "Other", never an empty category. *)
Theorem rule_table_categories merchantName c :
  getCategoryForMerchant merchantName = Some c ->
  In c ["Groceries"; "Utilities"; "Eating Out"; "Transport"; "Internal Transfer";
        "Health"; "Entertainment"; "Shopping"].
Proof.
  intros H. apply lookupRules_category in H. simpl in H. simpl.
  intuition.
Qed.

Lemma rule_table_categories_witness :
  In "Groceries" ["Groceries"; "Utilities"; "Eating Out"; "Transport";
                  "Internal Transfer"; "Health"; "Entertainment"; "Shopping"].
Proof.
  apply (rule_table_categories "NAIVAS WESTLANDS"). reflexivity.
Defined.

Lemma toLowerChar_again c : Js.toLowerChar (Js.toLowerChar c) = Js.toLowerChar c.
Proof. destruct c as [[] [] [] [] [] [] [] []]; reflexivity. Qed.

Lemma toLowerCase_again s : Js.toLowerCase (Js.toLowerCase s) = Js.toLowerCase s.
Proof.
  induction s as [| c s IH]; simpl; [reflexivity |].
  now rewrite toLowerChar_again, IH.
Qed.

Lemma toLowerCase_app a b :
  Js.toLowerCase (a ++ b) = Js.toLowerCase a ++ Js.toLowerCase b.
Proof. induction a as [| c a IH]; simpl; [reflexivity | now rewrite IH]. Qed.

Lemma prefix_app k s b : String.prefix k s = true -> String.prefix k (s ++ b) = true.
Proof.
  revert s. induction k as [| x k IH]; intros s;
    [intros _; destruct (s ++ b); reflexivity |].
  destruct s as [| y s]; simpl; [discriminate |].
  destruct (Ascii.ascii_dec x y); [apply IH | discriminate].
Qed.

Lemma includes_app_r s b k : Js.includes s k = true -> Js.includes (s ++ b) k = true.
Proof.
  induction s as [| c s IH]; simpl.
  - rewrite orb_false_r. intros H. destruct k; [| discriminate].
    destruct b; reflexivity.
  - intros H. apply orb_true_iff in H. apply orb_true_iff.
    destruct H as [H | H]; [left; now apply (prefix_app k (String c s)) | right; auto].
Qed.

Lemma includes_app_l a s k : Js.includes s k = true -> Js.includes (a ++ s) k = true.
Proof.
  intros H. induction a as [| c a IH]; [exact H |].
  simpl. apply orb_true_iff. now right.
Qed.

Lemma lookupRules_monotone rules s s' c :
  (forall k, Js.includes s k = true -> Js.includes s' k = true) ->
  lookupRules rules s = Some c -> exists c', lookupRules rules s' = Some c'.
Proof.
  intros Hmono. induction rules as [| r rules IH]; simpl; [discriminate |].
  destruct (existsb (Js.includes s) (keywords r)) eqn:E.
  - intros _. apply existsb_exists in E. destruct E as (k & Hin & Hk).
    assert (E' : existsb (Js.includes s') (keywords r) = true)
      by (apply existsb_exists; eauto).
    rewrite E'. eauto.
  - destruct (existsb (Js.includes s') (keywords r)); eauto.
Qed.

(** X4. The rule-table lookup is case-insensitive, and text around a known
    merchant does not hide it: when the table knows a name it knows every
    name that contains it. *)
Theorem rule_table_is_robust merchantName c :
  getCategoryForMerchant merchantName = Some c ->
  getCategoryForMerchant (Js.toLowerCase merchantName) = Some c
  /\ forall before after,
      exists c', getCategoryForMerchant (before ++ merchantName ++ after) = Some c'.
Proof.
  unfold getCategoryForMerchant. intros H. split.
  - now rewrite toLowerCase_again.
  - intros before after. rewrite !toLowerCase_app.
    apply (lookupRules_monotone _ _ _ _ (fun k Hk =>
             includes_app_l _ _ _ (includes_app_r _ _ _ Hk)) H).
Qed.

Lemma rule_table_is_robust_witness :
  exists c', getCategoryForMerchant ("PAYMENT TO " ++ "Naivas" ++ " WESTLANDS 0012") = Some c'.
Proof.
  apply (proj2 (rule_table_is_robust "Naivas" "Groceries" eq_refl)).
Defined.

End RuleTableMore.

(** ** The cache, once more *)

Section CacheMore.
Import Cache.

(** X5. Round trip: a lookup after [setCachedEnrichment key data] returns
    [data]; the entries under the other keys are what they were. *)
Theorem cache_round_trip key data w :
  let w1 := snd (setCachedEnrichment key data w) in
  fst (getCachedEnrichment key w1) = Returned (Some data)
  /\ forall key', key' <> key ->
       fst (getCachedEnrichment key' w1) = fst (getCachedEnrichment key' w).
Proof.
  intros w1. unfold w1. rewrite setCachedEnrichment_run. simpl snd. split.
  - rewrite getCachedEnrichment_run. simpl fst.
    now rewrite view_written, lookup_insert_eq.
  - intros key' Hne. rewrite !getCachedEnrichment_run. simpl fst.
    now rewrite view_written, lookup_insert_ne by congruence.
Qed.

(** A new session on the same durable storage. *)
Lemma view_fresh_session w w2 :
  memoryCache w2 = None -> storage w2 = storage w -> view w2 = hydrate (storage w).
Proof. intros Hm Hs. unfold view. now rewrite Hm, Hs. Qed.

(** X6. Write-through: while the durable storage accepts writes, every
    [setCachedEnrichment] leaves in it a snapshot of the whole cache, so a
    new session that starts from that storage sees exactly the entries of
    the old one; this holds even when the stored item was missing or
    corrupted before. *)
Theorem cache_survives_restart key data w w2 :
  storageWritable w = true ->
  let w1 := snd (setCachedEnrichment key data w) in
  memoryCache w2 = None -> storage w2 = storage w1 ->
  storage w1 = Blob (view w1) /\ view w2 = view w1.
Proof.
  intros Hw w1 Hm Hs.
  assert (Hst : storage w1 = Blob (view w1)).
  { unfold w1. rewrite setCachedEnrichment_run. simpl snd.
    rewrite view_written. unfold written. now rewrite Hw. }
  split; [exact Hst |].
  rewrite (view_fresh_session w1 w2 Hm Hs), Hst. reflexivity.
Qed.

Lemma cache_survives_restart_witness :
  let data := {| ed_merchant := "Naivas"; ed_category := "Groceries";
                 ed_enrichedInfo := None |} in
  let w1 := snd (setCachedEnrichment "Naivas" data (freshWorld silentRemote)) in
  storage w1 = Blob (view w1)
  /\ view (freshWorld silentRemote) = ∅
  /\ view {| ai := silentRemote; storage := storage w1; storageWritable := true;
             memoryCache := None; validationCache := ∅; remoteCalls := 0;
             cacheReads := 0; sleeps := [] |} = view w1.
Proof.
  intros data w1.
  destruct (cache_survives_restart "Naivas" data (freshWorld silentRemote)
              {| ai := silentRemote; storage := storage w1; storageWritable := true;
                 memoryCache := None; validationCache := ∅; remoteCalls := 0;
                 cacheReads := 0; sleeps := [] |} eq_refl eq_refl eq_refl)
    as [Hst Hview].
  split; [exact Hst |]. split; [reflexivity | exact Hview].
Defined.

(** X7. A lookup changes neither the entries of the cache nor the durable
    storage, and once the in-memory map is hydrated a later change of the
    stored item is not seen: the map in memory stays the source of truth. *)
Theorem cache_reads_are_pure key w :
  let w1 := snd (getCachedEnrichment key w) in
  view w1 = view w /\ storage w1 = storage w
  /\ forall st, fst (getCachedEnrichment key (setStorage st w1))
                = fst (getCachedEnrichment key w).
Proof.
  intros w1. unfold w1. rewrite getCachedEnrichment_run. simpl snd.
  split; [apply (view_hydrated w) |]. split; [simpl; apply storage_hydrated |].
  intros st. rewrite !getCachedEnrichment_run. simpl. f_equal. f_equal.
  unfold view, hydrated. destruct w as [r st0 sw mc v n c sl]; simpl.
  destruct mc; reflexivity.
Qed.

End CacheMore.

(** ** The orchestrator, once more *)

Section GeminiMore.
Import Heuristic CategoryMap Cache Gemini.
Local Open Scope nat_scope.

Lemma backoffDelays_sum retries : forall delay,
  list_sum (backoffDelays retries delay) + delay = delay * 2 ^ retries.
Proof.
  induction retries as [| retries IH]; intros delay; simpl; [lia |].
  specialize (IH (delay * 2)). lia.
Qed.

Lemma list_sum_app_nat (l1 l2 : list nat) :
  list_sum (l1 ++ l2) = list_sum l1 + list_sum l2.
Proof. induction l1 as [| x l1 IH]; simpl; [reflexivity | lia]. Qed.

(** X8. Worst case of the retry policy: when every attempt of a remote
    call throws, [retryWithBackoff] has paused [delay * (2 ^ retries - 1)]
    milliseconds in all before it gives up, 3500 ms with the defaults. *)
Theorem retry_total_pause {A} (answer : Remote -> nat -> option A) message
        retries delay w :
  (forall k, k <= retries -> answer (ai w) (remoteCalls w + k) = None) ->
  let w' := snd (retryWithBackoff (rethrowing answer message) retries delay w) in
  list_sum (sleeps w') = list_sum (sleeps w) + delay * (2 ^ retries - 1)
  /\ defaultDelay * (2 ^ defaultRetries - 1) = 3500.
Proof.
  intros Hfail w'.
  destruct (retry_all_fail answer message retries delay w Hfail)
    as (w1 & Hrun & _ & _ & Hsleeps).
  unfold w'. rewrite Hrun. simpl snd. rewrite Hsleeps, list_sum_app_nat.
  split; [| reflexivity].
  pose proof (backoffDelays_sum retries delay) as Hsum.
  assert (1 <= 2 ^ retries) by (apply Nat.neq_0_lt_0, Nat.pow_nonzero; lia).
  nia.
Qed.

Lemma retry_total_pause_witness :
  list_sum (sleeps (snd (parseBasicInfoFromText "x" (freshWorld silentRemote)))) = 3500.
Proof.
  apply (proj1 (retry_total_pause (fun r n => parseReply r n "x")
    "AI could not understand the transaction text. Please enter the details manually."
    3 500 (freshWorld silentRemote) (fun k _ => eq_refl))).
Defined.

Lemma orElse_nonempty o d : d <> "" -> Js.orElse o d <> "".
Proof.
  intros Hd. destruct o as [s |]; simpl; [| exact Hd].
  destruct (String.eqb_spec s ""); [exact Hd | assumption].
Qed.

(** X9. [enrichTransaction] keeps the cache free of blank entries: when
    every entry has a non-empty merchant and a non-empty category before
    the call, every entry has them after it, whatever the model answered
    ("Unknown" and "Other" stand in for what is missing). *)
Theorem enrich_caches_no_blank transaction examples w :
  map_Forall (fun _ e => ed_merchant e <> "" /\ ed_category e <> "") (view w) ->
  map_Forall (fun _ e => ed_merchant e <> "" /\ ed_category e <> "")
             (view (snd (enrichTransaction transaction examples w))).
Proof.
  intros Hinv. rewrite enrichTransaction_run. cbv zeta.
  destruct (ruleTableHit _) as [[m c] |]; [exact Hinv |].
  destruct (view w !! _) as [cached |].
  { simpl snd. change (view (countCacheRead (hydrated w))) with (view (hydrated w)).
    now rewrite view_hydrated. }
  destruct (enrichReply _ _ _) as [reply |]; simpl snd.
  - rewrite view_written, view_counted. apply map_Forall_insert_2; [| exact Hinv].
    split; apply orElse_nonempty; discriminate.
  - now rewrite view_counted.
Qed.

Lemma enrich_caches_no_blank_witness :
  map_Forall (fun _ e => ed_merchant e <> "" /\ ed_category e <> "")
             (view (snd (enrichTransaction johnDoe [] (freshWorld renamingRemote)))).
Proof.
  apply (enrich_caches_no_blank johnDoe [] (freshWorld renamingRemote)).
  apply map_Forall_empty.
Defined.

(** X10. A verdict of the model is asked once: after a call of
    [validateCategoryMismatch] whose remote call did not fail, the same
    question returns the same verdict and reaches neither the model nor the
    memo again; a failed remote call leaves no trace, so the next call
    asks the model again. *)
Theorem validate_asks_once description newCategory w :
  let key := validationKey description newCategory in
  let r1 := fst (validateCategoryMismatch description newCategory w) in
  let w1 := snd (validateCategoryMismatch description newCategory w) in
  (validationCache w !! key = None ->
   validateReply (ai w) (remoteCalls w) description newCategory = None ->
   validationCache w1 !! key = None)
  /\ (validationCache w !! key <> None
      \/ String.eqb newCategory "Other" || String.eqb newCategory "General" = true
      \/ validateReply (ai w) (remoteCalls w) description newCategory <> None ->
      validateCategoryMismatch description newCategory w1 = (r1, w1)).
Proof.
  intros key r1 w1. unfold r1, w1. rewrite !validate_run. fold key. cbv zeta.
  destruct (validationCache w !! key) as [v |] eqn:Hmemo.
  { split; [discriminate |]. intros _. cbn [fst snd]. now rewrite Hmemo. }
  destruct (_ || _) eqn:Hother.
  { split; [intros _ _; exact Hmemo |]. intros _. cbn [fst snd].
    now rewrite Hmemo. }
  destruct (validateReply _ _ _ _) as [b |] eqn:Hreply.
  - split; [discriminate |]. intros _. cbn [fst snd validationCache setValidationCache].
    now rewrite lookup_insert_eq.
  - split; [intros _ _; exact Hmemo |].
    intros [H | [H | H]]; [now contradiction H | discriminate | now contradiction H].
Qed.

Lemma validate_asks_once_witness :
  let w1 := snd (validateCategoryMismatch "Naivas" "Rent" (freshWorld scepticalRemote)) in
  validateCategoryMismatch "Naivas" "Rent" w1 = (Returned false, w1).
Proof.
  intros w1.
  apply (proj2 (validate_asks_once "Naivas" "Rent" (freshWorld scepticalRemote))).
  right. right. discriminate.
Defined.

End GeminiMore.

(** ** The drafts, once more *)

Section DraftFacts.
Import Budget Planner.
Local Open Scope Q_scope.

Lemma byAverageDesc_total a b : byAverageDesc a b = true \/ byAverageDesc b a = true.
Proof.
  unfold byAverageDesc. destruct (Qlt_le_dec (average a) (average b)) as [H | H].
  - right. apply Qle_bool_iff. lra.
  - left. now apply Qle_bool_iff.
Qed.

Lemma byAverageDesc_trans a b c :
  byAverageDesc a b = true -> byAverageDesc b c = true -> byAverageDesc a c = true.
Proof.
  unfold byAverageDesc. rewrite !Qle_bool_iff. intros H1 H2. lra.
Qed.

Lemma StronglySorted_weaken {A} (R R' : A -> A -> Prop) l :
  (forall a b, R a b -> R' a b) -> StronglySorted R l -> StronglySorted R' l.
Proof.
  intros Himp. induction 1 as [| x l Hs IH Hall]; constructor; [exact IH |].
  eapply List.Forall_impl; [| exact Hall]. intros b. apply Himp.
Qed.

(** X11. The drafts come out by average spend, largest first. *)
Theorem drafts_sorted_by_average sqrt budgets profile transactions :
  StronglySorted (fun a b => average b <= average a)
                 (computeDrafts sqrt budgets profile transactions).
Proof.
  unfold computeDrafts.
  eapply StronglySorted_weaken;
    [| apply (sortBy_sorted byAverageDesc byAverageDesc_total byAverageDesc_trans)].
  intros a b H. now apply Qle_bool_iff.
Qed.

(** *** One draft per category *)

Lemma alSet_keys {V} k (v : V) l k' :
  In k' (map fst (alSet k v l)) <-> k' = k \/ In k' (map fst l).
Proof.
  induction l as [| [k0 v0] l IH]; simpl; [intuition |].
  destruct (String.eqb_spec k k0) as [-> | Hne]; simpl; [intuition |].
  rewrite IH. intuition.
Qed.

Lemma alSet_NoDup {V} k (v : V) l : NoDup (map fst l) -> NoDup (map fst (alSet k v l)).
Proof.
  induction l as [| [k0 v0] l IH]; simpl; intros Hnd.
  - repeat constructor. intros H. inversion H.
  - apply NoDup_cons in Hnd. destruct Hnd as [Hk0 Hnd].
    destruct (String.eqb_spec k k0) as [-> | Hne]; simpl.
    + apply NoDup_cons. auto.
    + apply NoDup_cons. split; [| auto].
      rewrite list_elem_of_In, alSet_keys. rewrite list_elem_of_In in Hk0.
      intros [-> | H]; [congruence | contradiction].
Qed.

Lemma keys_step acc t cat :
  In cat (map fst (expenseByMonthCategory (tallyStep acc t))) <->
  In cat (map fst (expenseByMonthCategory acc)) \/ (t_type t = Expense /\ t_isTransfer t = false /\ t_category t = cat).
Proof.
  unfold tallyStep.
  destruct (t_type t), (t_isTransfer t); simpl; try rewrite alSet_keys;
    intuition congruence.
Qed.

Lemma NoDup_step acc t :
  NoDup (map fst (expenseByMonthCategory acc)) ->
  NoDup (map fst (expenseByMonthCategory (tallyStep acc t))).
Proof.
  unfold tallyStep. destruct (t_type t), (t_isTransfer t); simpl; auto.
  apply alSet_NoDup.
Qed.

Lemma keys_fold transactions : forall acc,
  (NoDup (map fst (expenseByMonthCategory acc)) ->
   NoDup (map fst (expenseByMonthCategory (fold_left tallyStep transactions acc))))
  /\ forall cat,
      In cat (map fst (expenseByMonthCategory (fold_left tallyStep transactions acc))) <->
      In cat (map fst (expenseByMonthCategory acc))
      \/ exists t, In t transactions /\ (t_type t = Expense /\ t_isTransfer t = false /\ t_category t = cat).
Proof.
  induction transactions as [| t ts IH]; intros acc; simpl.
  - split; [auto |]. intros cat. split; [auto | intros [H | (t & [] & _)]; exact H].
  - destruct (IH (tallyStep acc t)) as [IHnd IHin]. split.
    + intros Hnd. apply IHnd, NoDup_step, Hnd.
    + intros cat. rewrite IHin, keys_step. split.
      * intros [[H | H] | (t' & Hin & H)]; eauto.
      * intros [H | (t' & [<- | Hin] & H)]; eauto.
Qed.

Lemma map_category_drafts sqrt budgets profile months entries :
  map category (map (fun entry => draftFor sqrt budgets profile months (fst entry) (snd entry))
                    entries)
  = map fst entries.
Proof. rewrite map_map. apply map_ext. reflexivity. Qed.


(** *** The entries of the monthly vectors *)

Lemma fold_Qplus_shift l : forall a, fold_left Qplus l a == a + fold_left Qplus l 0.
Proof.
  induction l as [| x l IH]; intros a; simpl; [ring |].
  rewrite (IH (a + x)), (IH (0 + x)). ring.
Qed.

Lemma sumQ_cons x l : sumQ (x :: l) == x + sumQ l.
Proof. unfold sumQ. simpl. rewrite fold_Qplus_shift. ring. Qed.

Lemma numOr0_Some v : numOr0 (Some v) == v.
Proof.
  unfold numOr0. destruct (Qeq_bool v 0) eqn:E; [| reflexivity].
  apply Qeq_bool_eq in E. now symmetry.
Qed.

Lemma alGet_alSet {V} k (v : V) l k' :
  alGet k' (alSet k v l) = if String.eqb k' k then Some v else alGet k' l.
Proof.
  induction l as [| [k0 v0] l IH]; simpl; [destruct (String.eqb k' k); reflexivity |].
  destruct (String.eqb_spec k k0) as [-> | Hne]; simpl.
  - destruct (String.eqb k' k0); reflexivity.
  - destruct (String.eqb_spec k' k0) as [-> | Hne'].
    + destruct (String.eqb_spec k0 k); [congruence | reflexivity].
    + exact IH.
Qed.

Lemma alGet_In_NoDup {V} k (v : V) l :
  NoDup (map fst l) -> In (k, v) l -> alGet k l = Some v.
Proof.
  induction l as [| [k0 v0] l IH]; simpl; intros Hnd; [intros [] |].
  apply NoDup_cons in Hnd. destruct Hnd as [Hk0 Hnd].
  intros [[= -> ->] | Hin].
  - now rewrite String.eqb_refl.
  - destruct (String.eqb_spec k k0) as [-> | Hne]; [| auto].
    contradiction Hk0. apply list_elem_of_In, in_map_iff. exists (k0, v). auto.
Qed.

Lemma expenseTotal_cons t ts cat m :
  expenseTotal (t :: ts) cat m ==
  (if inCell cat m t then t_amount t else 0) + expenseTotal ts cat m.
Proof.
  unfold expenseTotal. simpl. destruct (inCell cat m t); simpl.
  - apply sumQ_cons.
  - ring.
Qed.

Lemma cell_step acc t cat m :
  cellOf (expenseByMonthCategory (tallyStep acc t)) cat m ==
  cellOf (expenseByMonthCategory acc) cat m
  + (if inCell cat m t then t_amount t else 0).
Proof.
  unfold cellOf, tallyStep, inCell.
  destruct (t_type t), (t_isTransfer t); simpl; try ring.
  rewrite alGet_alSet.
  destruct (String.eqb_spec cat (t_category t)) as [-> | Hne].
  - rewrite String.eqb_refl. simpl.
    destruct (String.eqb_spec (monthKey (t_date t)) m) as [<- | Hk].
    + rewrite lookup_insert_eq, numOr0_Some.
      destruct (alGet (t_category t) (expenseByMonthCategory acc)); [reflexivity |].
      now rewrite lookup_empty.
    + rewrite lookup_insert_ne by exact Hk.
      destruct (alGet (t_category t) (expenseByMonthCategory acc));
        [| rewrite lookup_empty]; ring.
  - destruct (String.eqb_spec (t_category t) cat); [congruence |]. simpl. ring.
Qed.

Lemma cell_fold transactions cat m : forall acc,
  cellOf (expenseByMonthCategory (fold_left tallyStep transactions acc)) cat m ==
  cellOf (expenseByMonthCategory acc) cat m + expenseTotal transactions cat m.
Proof.
  induction transactions as [| t ts IH]; intros acc; simpl.
  - unfold expenseTotal, sumQ. simpl. ring.
  - rewrite IH, cell_step, expenseTotal_cons. ring.
Qed.



End DraftFacts.

(** ** The planner *)

Section PlannerFacts.
Import Budget Planner.
Local Open Scope Q_scope.

Lemma sumOf_shift f l : forall a,
  fold_left (fun s d => s + f d) l a == a + sumOf f l.
Proof.
  unfold sumOf. induction l as [| x l IH]; intros a; simpl; [ring |].
  rewrite (IH (a + f x)), (IH (0 + f x)). ring.
Qed.

Lemma sumOf_nil f : sumOf f [] = 0.
Proof. reflexivity. Qed.

Lemma sumOf_cons f x l : sumOf f (x :: l) == f x + sumOf f l.
Proof. unfold sumOf at 1. simpl. rewrite sumOf_shift. ring. Qed.

Lemma sumOf_app f l1 l2 : sumOf f (l1 ++ l2) == sumOf f l1 + sumOf f l2.
Proof.
  induction l1 as [| x l1 IH]; simpl.
  - unfold sumOf at 2. simpl. ring.
  - rewrite !sumOf_cons, IH. ring.
Qed.

Lemma sumOf_split f p l :
  sumOf f (List.filter p l) + sumOf f (List.filter (fun d => negb (p d)) l)
  == sumOf f l.
Proof.
  induction l as [| x l IH]; simpl; [unfold sumOf; simpl; ring |].
  destruct (p x); simpl; rewrite !sumOf_cons, <- IH; ring.
Qed.

Lemma filter_split_length {A} (p : A -> bool) l :
  (length (List.filter p l) + length (List.filter (fun d => negb (p d)) l)
   = length l)%nat.
Proof. induction l as [| x l IH]; simpl; [reflexivity |]. destruct (p x); simpl; lia. Qed.

(** X14. Grouping for display loses no money and no savings category: at
    every granularity the averages of the drafts shown add up to the
    averages of all drafts, and so do the limits; every savings draft is
    shown as it is; and there are never more rows than drafts. *)
Theorem display_conserves_totals drafts granularity :
  sumOf average (displayDrafts drafts granularity) == sumOf average drafts
  /\ sumOf limit (displayDrafts drafts granularity) == sumOf limit drafts
  /\ (forall d, In d drafts -> isSavings d = true ->
                In d (displayDrafts drafts granularity))
  /\ (length (displayDrafts drafts granularity) <= length drafts)%nat.
Proof.
  unfold displayDrafts. destruct (Qeq_bool granularity 0).
  { repeat split; auto; reflexivity. }
  set (threshold := sumOf average drafts * (granularity / 100 * (5 # 100))).
  pose proof (sumOf_split average (isMajor threshold) drafts) as Havg.
  pose proof (sumOf_split limit (isMajor threshold) drafts) as Hlim.
  pose proof (filter_split_length (isMajor threshold) drafts) as Hlen.
  assert (Hsav : forall d, In d drafts -> isSavings d = true ->
                           In d (List.filter (isMajor threshold) drafts)).
  { intros d Hd Hs. apply filter_In. split; [exact Hd |].
    unfold isMajor. rewrite Hs. apply orb_true_r. }
  destruct (List.filter (fun d => negb (isMajor threshold d)) drafts) as [| x minor] eqn:E.
  - rewrite sumOf_nil in Havg, Hlim. simpl in Hlen.
    split; [rewrite <- Havg; ring |]. split; [rewrite <- Hlim; ring |].
    split; [exact Hsav | lia].
  - split; [| split; [| split]].
    + rewrite sumOf_app, sumOf_cons, sumOf_nil.
      change (average (groupedMinor (x :: minor))) with (sumOf average (x :: minor)).
      rewrite <- Havg. ring.
    + rewrite sumOf_app, sumOf_cons, sumOf_nil.
      change (limit (groupedMinor (x :: minor))) with (sumOf limit (x :: minor)).
      rewrite <- Hlim. ring.
    + intros d Hd Hs. apply in_or_app. left. now apply Hsav.
    + rewrite length_app. simpl length in *. lia.
Qed.

Lemma display_conserves_totals_witness :
  In emptiedSavings (displayDrafts [stableRent; emptiedSavings] 100).
Proof.
  apply (proj1 (proj2 (proj2 (display_conserves_totals [stableRent; emptiedSavings] 100))));
    [right; left; reflexivity | reflexivity].
Defined.



End PlannerFacts.

(** ** The application state *)

Section LedgerFacts.
Import Budget Planner Ledger.
Local Arguments upsertBudget : simpl never.

Lemma upsertBudget_cons b l newId newB :
  upsertBudget (b :: l) (newId, newB) =
  if String.eqb (b_category (sb_budget b)) (b_category newB)
  then {| sb_id := sb_id b; sb_budget := newB |} :: l
  else b :: upsertBudget l (newId, newB).
Proof.
  unfold upsertBudget. simpl.
  destruct (String.eqb (b_category (sb_budget b)) (b_category newB)); [reflexivity |].
  destruct (findIndex _ l) as [idx |]; simpl; [| reflexivity].
  destruct (l !! idx); reflexivity.
Qed.

Lemma find_upsert l newId newB c :
  List.find (fun b => String.eqb (b_category b) c)
            (map sb_budget (upsertBudget l (newId, newB)))
  = if String.eqb (b_category newB) c then Some newB
    else List.find (fun b => String.eqb (b_category b) c) (map sb_budget l).
Proof.
  induction l as [| b l IH].
  - reflexivity.
  - rewrite upsertBudget_cons.
    destruct (String.eqb_spec (b_category (sb_budget b)) (b_category newB)) as [E | E];
      simpl.
    + rewrite E. destruct (String.eqb (b_category newB) c); reflexivity.
    + destruct (String.eqb_spec (b_category (sb_budget b)) c) as [E' | E'].
      * destruct (String.eqb_spec (b_category newB) c); [congruence | reflexivity].
      * exact IH.
Qed.

Lemma categories_upsert l newId newB c :
  In c (map (fun b => b_category (sb_budget b)) (upsertBudget l (newId, newB))) <->
  c = b_category newB \/ In c (map (fun b => b_category (sb_budget b)) l).
Proof.
  induction l as [| b l IH].
  - simpl. intuition.
  - rewrite upsertBudget_cons.
    destruct (String.eqb_spec (b_category (sb_budget b)) (b_category newB)) as [E | E];
      simpl; [rewrite E; intuition | rewrite IH; intuition].
Qed.

Lemma NoDup_upsert l newId newB :
  NoDup (map (fun b => b_category (sb_budget b)) l) ->
  NoDup (map (fun b => b_category (sb_budget b)) (upsertBudget l (newId, newB))).
Proof.
  induction l as [| b l IH]; intros Hnd.
  - simpl. repeat constructor. intros H. inversion H.
  - rewrite upsertBudget_cons. simpl in Hnd. apply NoDup_cons in Hnd.
    destruct Hnd as [Hb Hnd].
    destruct (String.eqb_spec (b_category (sb_budget b)) (b_category newB)) as [E | E];
      simpl; apply NoDup_cons.
    + rewrite <- E. auto.
    + split; [| auto]. rewrite list_elem_of_In, categories_upsert.
      rewrite list_elem_of_In in Hb. intros [H | H]; [congruence | contradiction].
Qed.

Lemma ids_upsert l newId newB b :
  In b l -> b_category (sb_budget b) <> b_category newB ->
  In b (upsertBudget l (newId, newB)).
Proof.
  induction l as [| x l IH]; [intros [] |]. intros Hin Hne.
  rewrite upsertBudget_cons.
  destruct (String.eqb_spec (b_category (sb_budget x)) (b_category newB)) as [E | E].
  - destruct Hin as [-> | Hin]; [congruence | now right].
  - destruct Hin as [-> | Hin]; [now left | right; auto].
Qed.

(** X16. [addBudget] keeps one budget per category: when the stored
    budgets have pairwise distinct categories they still have after it; the
    categories afterwards are the old ones and the new ones; and a budget
    whose category is not among the new ones is untouched. *)
Theorem addBudget_keeps_categories_unique ids newBudgets s :
  length ids = length newBudgets ->
  NoDup (map (fun b => b_category (sb_budget b)) (budgets s)) ->
  NoDup (map (fun b => b_category (sb_budget b)) (budgets (addBudget ids newBudgets s)))
  /\ (forall c,
        In c (map (fun b => b_category (sb_budget b))
                  (budgets (addBudget ids newBudgets s))) <->
        In c (map b_category newBudgets)
        \/ In c (map (fun b => b_category (sb_budget b)) (budgets s)))
  /\ (forall b, In b (budgets s) ->
                ~ In (b_category (sb_budget b)) (map b_category newBudgets) ->
                In b (budgets (addBudget ids newBudgets s))).
Proof.
  simpl. generalize (budgets s). clear s. revert ids.
  induction newBudgets as [| nb nbs IH]; intros ids l Hlen Hnd.
  - destruct ids; [| discriminate]. simpl. split; [exact Hnd |].
    split; [intuition | auto].
  - destruct ids as [| i ids]; [discriminate |]. simpl.
    destruct (IH ids (upsertBudget l (i, nb)) (eq_add_S _ _ Hlen) (NoDup_upsert _ _ _ Hnd))
      as (Hnd' & Hin' & Hkeep').
    split; [exact Hnd' |]. split.
    + intros c. rewrite Hin', categories_upsert. intuition.
    + intros b Hb Hnot. apply Hkeep'; [| intuition].
      apply ids_upsert; [exact Hb | intuition].
Qed.

Lemma addBudget_keeps_categories_unique_witness :
  NoDup (map (fun b => b_category (sb_budget b))
             (budgets (addBudget ["b1"; "b2"] (halfShillingBudget ++ halfShillingBudget)
                         {| transactions := []; categories := []; budgets := [];
                            loyaltyCards := []; categorizationExamples := [];
                            notification := NoToast |}))).
Proof.
  apply (addBudget_keeps_categories_unique ["b1"; "b2"]
           (halfShillingBudget ++ halfShillingBudget)
           {| transactions := []; categories := []; budgets := [];
              loyaltyCards := []; categorizationExamples := [];
              notification := NoToast |} eq_refl).
  constructor.
Defined.

Lemma find_fold_other entries c : forall l,
  ~ In c (map (fun e => b_category (snd e)) entries) ->
  List.find (fun b => String.eqb (b_category b) c)
            (map sb_budget (fold_left upsertBudget entries l))
  = List.find (fun b => String.eqb (b_category b) c) (map sb_budget l).
Proof.
  induction entries as [| [i nb] entries IH]; intros l Hnot; [reflexivity |].
  simpl in *. rewrite IH by intuition. rewrite find_upsert.
  destruct (String.eqb_spec (b_category nb) c); [intuition | reflexivity].
Qed.

Lemma find_fold_new entries : forall l i nb,
  NoDup (map (fun e => b_category (snd e)) entries) ->
  In (i, nb) entries ->
  List.find (fun b => String.eqb (b_category b) (b_category nb))
            (map sb_budget (fold_left upsertBudget entries l))
  = Some nb.
Proof.
  induction entries as [| [i0 nb0] entries IH]; intros l i nb Hnd Hin; [destruct Hin |].
  simpl in Hnd. apply NoDup_cons in Hnd. destruct Hnd as [Hfresh Hnd]. simpl.
  destruct Hin as [[= -> ->] | Hin].
  - rewrite find_fold_other by (now rewrite <- list_elem_of_In).
    rewrite find_upsert. now rewrite String.eqb_refl.
  - apply (IH _ i); assumption.
Qed.

Lemma strategy_draftFor sqrt budgets profile months cat byMonth b :
  List.find (fun b => String.eqb (b_category b) cat) budgets = Some b ->
  limit (draftFor sqrt budgets profile months cat byMonth) = b_limit b
  /\ strategy (draftFor sqrt budgets profile months cat byMonth) = b_strategy b.
Proof. intros H. unfold draftFor. simpl. now rewrite H. Qed.

Lemma combine_snd_In {A B} (l1 : list A) (l2 : list B) y :
  length l1 = length l2 -> In y l2 -> exists x, In (x, y) (combine l1 l2).
Proof.
  revert l1. induction l2 as [| b l2 IH]; intros [| a l1] Hlen Hin;
    try discriminate; [destruct Hin |].
  destruct Hin as [-> | Hin]; [exists a; now left |].
  destruct (IH l1 (eq_add_S _ _ Hlen) Hin) as [x Hx]. exists x. now right.
Qed.

Lemma combine_snd_map {A B C} (f : B -> C) (l1 : list A) (l2 : list B) :
  length l1 = length l2 -> map (fun e => f (snd e)) (combine l1 l2) = map f l2.
Proof.
  revert l1. induction l2 as [| b l2 IH]; intros [| a l1] Hlen; try discriminate;
    [reflexivity |].
  simpl. now rewrite IH by (now injection Hlen).
Qed.

(** X17. Saving and reopening the planner brings the saved plan back: when
    the drafts have pairwise distinct categories, every draft that
    [handleSaveAll] saves (edited, not on "maintain", or a savings draft)
    reappears, at the next planning session over any transactions, with the
    limit and the strategy it was saved with. *)
Theorem saved_plan_is_restored ids drafts s d sqrt profile transactions d' :
  NoDup (map Budget.category drafts) ->
  length ids = length (budgetsToSave drafts) ->
  In d drafts ->
  isModified d || negb (isMaintain (strategy d)) || isSavings d = true ->
  In d' (computeDrafts sqrt (map sb_budget (budgets (addBudget ids (budgetsToSave drafts) s)))
                       profile transactions) ->
  Budget.category d' = Budget.category d ->
  limit d' = limit d /\ strategy d' = strategy d.
Proof.
  intros Hnd Hlen Hd Hsaved Hd' Hcat.
  apply In_computeDrafts in Hd'. destruct Hd' as (cat & byMonth & _ & ->).
  rewrite category_draftFor in Hcat. subst cat.
  set (nb := {| b_category := Budget.category d; b_limit := limit d; b_strategy := strategy d |}).
  assert (Hnb : In nb (budgetsToSave drafts)).
  { unfold budgetsToSave. apply in_map_iff. exists d. split; [reflexivity |].
    apply filter_In. auto. }
  destruct (combine_snd_In ids _ nb Hlen Hnb) as [i Hi].
  assert (Hnd' : NoDup (map (fun e => b_category (snd e))
                            (combine ids (budgetsToSave drafts)))).
  { rewrite combine_snd_map by exact Hlen. unfold budgetsToSave.
    rewrite map_map. simpl.
    clear -Hnd. induction drafts as [| x l IH]; simpl; [constructor |].
    simpl in Hnd. apply NoDup_cons in Hnd. destruct Hnd as [Hx Hnd].
    destruct (isModified x || negb (isMaintain (strategy x)) || isSavings x);
      simpl; [| auto].
    apply NoDup_cons. split; [| auto].
    rewrite list_elem_of_In in *. intros H. apply Hx.
    apply in_map_iff in H. destruct H as (y & Hy & Hin).
    apply filter_In in Hin. apply in_map_iff. exists y. tauto. }
  pose proof (find_fold_new _ (budgets s) i nb Hnd' Hi) as Hfind.
  apply (strategy_draftFor sqrt _ profile _ _ byMonth nb). exact Hfind.
Qed.

Lemma saved_plan_is_restored_witness :
  Forall (fun d' => Budget.category d' = "Rent" ->
                    limit d' = 90%Q /\ strategy d' = Custom)
         (computeDrafts sqrtMilli
            (map sb_budget
               (budgets (addBudget ["b1"] (budgetsToSave [stableRent])
                           {| transactions := []; categories := []; budgets := [];
                              loyaltyCards := []; categorizationExamples := [];
                              notification := NoToast |})))
            None rentThenSalary).
Proof.
  apply List.Forall_forall. intros d' Hd' Hcat.
  apply (saved_plan_is_restored ["b1"] [stableRent]
           {| transactions := []; categories := []; budgets := [];
              loyaltyCards := []; categorizationExamples := [];
              notification := NoToast |}
           stableRent sqrtMilli None rentThenSalary d');
    [repeat constructor; intros H; inversion H | reflexivity | now left | reflexivity
     | exact Hd' | exact Hcat].
Defined.

(** *** Loyalty points *)

Lemma findIndex_Some {A} (p : A -> bool) l i :
  findIndex p l = Some i -> exists x, l !! i = Some x /\ p x = true.
Proof.
  revert i. induction l as [| y l IH]; intros i; simpl; [discriminate |].
  destruct (p y) eqn:Hy; [intros [= <-]; eauto |].
  destruct (findIndex p l) as [j |]; simpl; [| discriminate].
  intros [= <-]. apply (IH j eq_refl).
Qed.

Lemma findIndex_None {A} (p : A -> bool) l x :
  findIndex p l = None -> In x l -> p x = false.
Proof.
  induction l as [| y l IH]; simpl; [intros _ [] |].
  destruct (p y) eqn:Hy; [discriminate |].
  destruct (findIndex p l); [discriminate |].
  intros _ [<- | Hin]; auto.
Qed.

Lemma checkAndAddPoints_false now today tx s :
  fst (checkAndAddPoints now today tx s) = false ->
  snd (checkAndAddPoints now today tx s) = s.
Proof.
  unfold checkAndAddPoints.
  destruct (Points.extractPointsFromDescription _) as [[[| p] |] |];
    simpl; congruence.
Qed.

(** X18. Loyalty cards stay one per provider, letter case apart: when no
    two cards name the same provider, none do after [checkAndAddPoints]; a
    balance that is missing, unreadable or zero changes nothing; and a
    balance that is found ends up on a card of the merchant, the card list
    growing by one card at most. Nothing but the cards is touched. *)
Theorem loyalty_cards_stay_unique now today tx s :
  let found := fst (checkAndAddPoints now today tx s) in
  let s' := snd (checkAndAddPoints now today tx s) in
  (NoDup (map (fun c => Js.toLowerCase (provider c)) (loyaltyCards s)) ->
   NoDup (map (fun c => Js.toLowerCase (provider c)) (loyaltyCards s')))
  /\ (found = false -> s' = s)
  /\ (found = true ->
      exists n card,
        Points.extractPointsFromDescription (description tx) = Some (Some n)
        /\ In card (loyaltyCards s')
        /\ Js.toLowerCase (provider card) = Js.toLowerCase (merchant tx)
        /\ points card = n
        /\ (length (loyaltyCards s') <= S (length (loyaltyCards s)))%nat)
  /\ transactions s' = transactions s /\ budgets s' = budgets s
  /\ Ledger.categories s' = Ledger.categories s.
Proof.
  intros found s'. unfold found, s', checkAndAddPoints.
  destruct (Points.extractPointsFromDescription _) as [[[| p] |] |];
    try (simpl; repeat split; auto; discriminate).
  cbn [fst snd]. split; [| split; [discriminate | split; [| repeat split]]].
  - intros Hnd. simpl.
    destruct (findIndex _ (loyaltyCards s)) as [i |] eqn:Hfind.
    + destruct (findIndex_Some _ _ _ Hfind) as (card & Hcard & _). rewrite Hcard.
      rewrite list_fmap_insert. simpl.
      rewrite list_insert_id; [exact Hnd |].
      now rewrite list_lookup_fmap, Hcard.
    + rewrite map_app. simpl. apply NoDup_app. split; [exact Hnd |].
      split; [| repeat constructor; intros H; inversion H].
      intros x Hx Hx'. apply list_elem_of_In in Hx, Hx'.
      destruct Hx' as [<- | []]. apply in_map_iff in Hx.
      destruct Hx as (c & Hc & Hin).
      pose proof (findIndex_None _ _ c Hfind Hin) as Hno. simpl in Hno.
      rewrite Hc, String.eqb_refl in Hno. discriminate.
  - intros _. simpl.
    destruct (findIndex _ (loyaltyCards s)) as [i |] eqn:Hfind.
    + destruct (findIndex_Some _ _ _ Hfind) as (card & Hcard & Hp). rewrite Hcard.
      apply String.eqb_eq in Hp.
      eexists. eexists. split; [reflexivity |]. split.
      * apply list_elem_of_In. apply list_elem_of_lookup. exists i.
        apply list_lookup_insert_eq. now apply lookup_lt_Some in Hcard.
      * split; [exact Hp |]. split; [reflexivity |]. rewrite length_insert. lia.
    + eexists. eexists. split; [reflexivity |]. split.
      * apply in_or_app. right. now left.
      * split; [reflexivity |]. split; [reflexivity |]. rewrite length_app. simpl. lia.
Qed.

Lemma loyalty_cards_stay_unique_witness :
  let s0 := {| transactions := []; categories := []; budgets := [];
               loyaltyCards := [{| card_id := "c1"; provider := "Naivas";
                                   points := 10; lastUpdated := "2025-01-01" |}];
               categorizationExamples := []; notification := NoToast |} in
  let tx := {| id := "t1"; accountId := "a"; date := "2025-02-01"; merchant := "NAIVAS";
               amount := 100; type := Expense; category := "Groceries";
               description := "You have earned 20 points. Total points: 1,450";
               logoUrl := None; isTransfer := false |} in
  NoDup (map (fun c => Js.toLowerCase (provider c))
             (loyaltyCards (snd (checkAndAddPoints "now" "2025-02-01" tx s0))))
  /\ map points (loyaltyCards (snd (checkAndAddPoints "now" "2025-02-01" tx s0)))
     = [1450%N].
Proof.
  intros s0 tx. split; [| reflexivity].
  apply (proj1 (loyalty_cards_stay_unique "now" "2025-02-01" tx s0)).
  repeat constructor. intros H. inversion H.
Defined.

(** *** Import *)

Section ImportFacts.
Variable showNumber : Q -> string.

Lemma txKey_withId i t : txKey showNumber (withId i t) = txKey showNumber t.
Proof. reflexivity. Qed.

Lemma numbered_keys now l : forall i,
  map (txKey showNumber) (numbered now i l) = map (txKey showNumber) l.
Proof. induction l as [| t l IH]; intros i; simpl; [reflexivity | now rewrite IH]. Qed.

Lemma checkAndAddPoints_transactions now today tx s :
  transactions (snd (checkAndAddPoints now today tx s)) = transactions s.
Proof.
  unfold checkAndAddPoints.
  destruct (Points.extractPointsFromDescription _) as [[[| p] |] |]; reflexivity.
Qed.

Lemma addAllPoints_transactions now today l : forall s,
  transactions (addAllPoints now today l s) = transactions s.
Proof.
  unfold addAllPoints. induction l as [| t l IH]; intros s; simpl; [reflexivity |].
  rewrite IH. apply checkAndAddPoints_transactions.
Qed.

Lemma filter_nil {A} (p : A -> bool) l :
  (forall x, In x l -> p x = false) -> List.filter p l = [].
Proof.
  induction l as [| x l IH]; intros H; simpl; [reflexivity |].
  rewrite (H x (or_introl eq_refl)). apply IH. intros y Hy. apply H. now right.
Qed.

Lemma importTransactions_transactions now today batch s :
  transactions (importTransactions showNumber now today batch s) =
  (transactions s ++
   numbered now 0
     (List.filter (fun t => negb (bool_decide
                                    (txKey showNumber t ∈
                                     (list_to_set (map (txKey showNumber) (transactions s))
                                      : gset string))))
                  batch))%list.
Proof.
  unfold importTransactions.
  destruct (List.filter _ batch) as [| u us] eqn:E.
  - destruct (length batch - length []%list)%nat; simpl; now rewrite app_nil_r.
  - cbv zeta.
    match goal with
    | |- transactions (showToast Info ?x) = _ =>
        change (transactions (showToast Info x)) with (transactions x)
    end.
    destruct (List.filter _ (distinct [] _)); [| change (transactions (setCategories ?f ?x)) with (transactions x)];
      rewrite addAllPoints_transactions; reflexivity.
Qed.

(** X19. Importing is idempotent and never doubles what the ledger has:
    the transactions in the ledger stay in place, what is appended are the
    imported transactions whose key (date, trimmed description, amount,
    type, account) the ledger did not have, in the order of the file; and
    importing the same file once more appends nothing. *)
Theorem reimport_adds_nothing now today now' today' batch s :
  let s1 := importTransactions showNumber now today batch s in
  (exists added,
      transactions s1 = (transactions s ++ added)%list
      /\ map (txKey showNumber) added =
         List.filter (fun k => negb (bool_decide
                                       (k ∈ (list_to_set (map (txKey showNumber)
                                                              (transactions s))
                                             : gset string))))
                     (map (txKey showNumber) batch))
  /\ transactions (importTransactions showNumber now' today' batch s1) = transactions s1.
Proof.
  intros s1. unfold s1. split.
  - eexists. split; [apply importTransactions_transactions |].
    rewrite numbered_keys. generalize (list_to_set (map (txKey showNumber) (transactions s)) : gset string).
    intros keys. induction batch as [| t l IH]; simpl; [reflexivity |].
    destruct (bool_decide (txKey showNumber t ∈ keys)); simpl; now rewrite IH.
  - rewrite (importTransactions_transactions now' today').
    rewrite filter_nil; [now rewrite app_nil_r |].
    intros t Ht. apply negb_false_iff, bool_decide_eq_true.
    rewrite elem_of_list_to_set, importTransactions_transactions, map_app.
    rewrite elem_of_app.
    destruct (decide (txKey showNumber t ∈ map (txKey showNumber) (transactions s)))
      as [Hold | Hnew]; [now left | right].
    rewrite numbered_keys. apply list_elem_of_In, in_map, filter_In.
    split; [exact Ht |]. apply negb_true_iff, bool_decide_eq_false.
    now rewrite elem_of_list_to_set.
Qed.

End ImportFacts.

End LedgerFacts.

(** *** The optimistic category update *)

Section UpdateCategoryFacts.
Import Gemini Ledger.

Lemma validate_returns description newCategory w :
  exists isLogical w',
    validateCategoryMismatch description newCategory w = (Returned isLogical, w').
Proof.
  rewrite validate_run. cbv zeta.
  destruct (validationCache w !! _); [eauto |].
  destruct (_ || _); [eauto |].
  destruct (validateReply _ _ _ _); eauto.
Qed.

Lemma recategorise_id transactionId newCategory t :
  id (recategorise transactionId newCategory t) = id t.
Proof. unfold recategorise. destruct (String.eqb (id t) transactionId); reflexivity. Qed.

(** X20. The category update is optimistic and is never taken back. For an
    unknown transaction nothing happens, and no remote call is made. For a
    known one the call returns whatever the validation does: every
    transaction with the identifier carries the new category (and is a
    transfer exactly for "Internal Transfer"), the other transactions stay
    as they are, and the category is among the known categories. The
    description is recorded as a training example exactly when the
    validation says the category is logical, which includes a validation
    that could not reach the model; otherwise a warning is shown. *)
Theorem category_change_is_never_reverted transactionId newCategory s w :
  (List.find (fun t => String.eqb (id t) transactionId) (transactions s) = None ->
   updateCategory transactionId newCategory s w = (Returned s, w))
  /\ forall transaction,
      List.find (fun t => String.eqb (id t) transactionId) (transactions s)
      = Some transaction ->
      exists isLogical s' w',
        validateCategoryMismatch (description transaction) newCategory w
        = (Returned isLogical, w')
        /\ updateCategory transactionId newCategory s w = (Returned s', w')
        /\ length (transactions s') = length (transactions s)
        /\ (forall i t, transactions s !! i = Some t ->
              exists t', transactions s' !! i = Some t'
                /\ id t' = id t
                /\ (id t = transactionId ->
                    category t' = newCategory
                    /\ isTransfer t' = String.eqb newCategory "Internal Transfer")
                /\ (id t <> transactionId -> t' = t))
        /\ In newCategory (Ledger.categories s')
        /\ categorizationExamples s' =
           (if isLogical
            then (categorizationExamples s ++
                  [{| ex_description := description transaction;
                      ex_category := newCategory |}])%list
            else categorizationExamples s)
        /\ (isLogical = false -> notification s' = Warning)
        /\ (validationCache w !! validationKey (description transaction) newCategory = None ->
            validateReply (ai w) (remoteCalls w) (description transaction) newCategory = None ->
            isLogical = true).
Proof.
  split.
  - intros Hfind. unfold updateCategory. now rewrite Hfind.
  - intros transaction Hfind.
    destruct (validate_returns (description transaction) newCategory w)
      as (isLogical & w' & Hrun).
    exists isLogical.
    set (s1 := setTransactions (map (recategorise transactionId newCategory)) s).
    set (s2 := if existsb (String.eqb newCategory) (Ledger.categories s) then s1
               else setCategories
                      (fun prev => Budget.sortBy String.leb (prev ++ [newCategory])%list) s1).
    exists (if isLogical
            then setCategorizationExamples
                   (fun prev => (prev ++ [{| ex_description := description transaction;
                                             ex_category := newCategory |}])%list) s2
            else showToast Warning s2).
    exists w'.
    assert (Htx : transactions s2 = map (recategorise transactionId newCategory)
                                        (transactions s)).
    { unfold s2. destruct (existsb _ _); reflexivity. }
    assert (Hex : categorizationExamples s2 = categorizationExamples s).
    { unfold s2. destruct (existsb _ _); reflexivity. }
    assert (Hcat : In newCategory (Ledger.categories s2)).
    { unfold s2. destruct (existsb _ _) eqn:E.
      - apply existsb_exists in E. destruct E as (c & Hc & Heq).
        apply String.eqb_eq in Heq. now subst c.
      - simpl. apply In_sortBy, in_or_app. right. now left. }
    split; [exact Hrun |]. split.
    { unfold updateCategory. rewrite Hfind. fold s1. fold s2.
      unfold tryCatch, bind. rewrite Hrun. destruct isLogical; reflexivity. }
    split.
    { destruct isLogical; simpl; rewrite Htx; apply length_map. }
    split.
    { intros i t Hi. exists (recategorise transactionId newCategory t).
      split.
      { destruct isLogical; simpl; rewrite Htx;
          change (map ?f ?l) with (f <$> l); now rewrite list_lookup_fmap, Hi. }
      split; [apply recategorise_id |]. unfold recategorise. split.
      - intros ->. now rewrite String.eqb_refl.
      - intros Hne. apply String.eqb_neq in Hne. now rewrite Hne. }
    split; [destruct isLogical; exact Hcat |].
    split; [destruct isLogical; simpl; now rewrite Hex |].
    split; [intros ->; reflexivity |].
    intros Hmemo Hreply. rewrite validate_run in Hrun. cbv zeta in Hrun.
    rewrite Hmemo, Hreply in Hrun.
    destruct (_ || _); congruence.
Qed.

Lemma category_change_is_never_reverted_witness :
  let s0 := {| transactions :=
                 [{| id := "t1"; accountId := "a"; date := "2025-02-01";
                     merchant := "Naivas"; amount := 100; type := Expense;
                     category := "Other"; description := "NAIVAS WESTLANDS";
                     logoUrl := None; isTransfer := false |}];
               categories := ["Other"]; budgets := []; loyaltyCards := [];
               categorizationExamples := []; notification := NoToast |} in
  exists s' w',
    updateCategory "t1" "Groceries" s0 (freshWorld scepticalRemote) = (Returned s', w')
    /\ map category (transactions s') = ["Groceries"]
    /\ categorizationExamples s' = []
    /\ notification s' = Warning.
Proof.
  intros s0.
  destruct (proj2 (category_change_is_never_reverted "t1" "Groceries" s0
                     (freshWorld scepticalRemote)) _ eq_refl)
    as (isLogical & s' & w' & Hrun & Hupd & Hlen & Htx & _ & Hex & Hwarn & _).
  assert (isLogical = false) as -> by (vm_compute in Hrun; congruence).
  exists s', w'. split; [exact Hupd |]. split; [| split; [exact Hex | now apply Hwarn]].
  destruct (Htx 0%nat _ eq_refl) as (t' & Ht' & _ & Hnew & _).
  destruct (transactions s') as [| t0 [| t1 rest]]; simpl in Ht', Hlen;
    try discriminate.
  injection Ht' as ->. simpl. f_equal. now apply Hnew.
Defined.

End UpdateCategoryFacts.

(** ** The import review *)

Section ImportReviewFacts.
Import Heuristic CategoryMap Cache Gemini ImportReview.

Lemma view_read w : view (countCacheRead (hydrated w)) = view w.
Proof. rewrite <- (view_hydrated w). reflexivity. Qed.

Lemma scatter_cons rows r rest :
  scatter rows (r :: rest) =
  scatter (match rows !! br_index r with
           | Some row => <[br_index r := mergeResult row r]> rows
           | None => rows
           end) rest.
Proof. reflexivity. Qed.

Lemma scatter_app rows before after :
  scatter rows (before ++ after) = scatter (scatter rows before) after.
Proof. apply fold_left_app. Qed.

Lemma scatter_length results : forall rows,
  length (scatter rows results) = length rows.
Proof.
  induction results as [| r rest IH]; intros rows; [reflexivity |].
  rewrite scatter_cons, IH.
  destruct (rows !! br_index r); [apply length_insert | reflexivity].
Qed.

Lemma scatter_untouched results i : forall rows,
  Forall (fun r => br_index r <> i) results ->
  scatter rows results !! i = rows !! i.
Proof.
  induction results as [| r rest IH]; intros rows H; [reflexivity |].
  inversion H as [| ? ? Hr Hrest]; subst. rewrite scatter_cons, IH by exact Hrest.
  destruct (rows !! br_index r); [now apply list_lookup_insert_ne | reflexivity].
Qed.

Lemma scatter_fallback queue : forall rows t row,
  NoDup (map te_index queue) -> In t queue ->
  rows !! te_index t = Some row ->
  scatter rows (map batchFallback queue) !! te_index t
  = Some (mergeResult row (batchFallback t)).
Proof.
  induction queue as [| a q IH]; intros rows t row Hnd Hin Hrow; [destruct Hin |].
  simpl in Hnd. apply NoDup_cons in Hnd. destruct Hnd as [Hnotin Hnd].
  change (map batchFallback (a :: q)) with (batchFallback a :: map batchFallback q).
  rewrite scatter_cons.
  change (br_index (batchFallback a)) with (te_index a).
  destruct Hin as [-> | Hin].
  - rewrite Hrow, scatter_untouched.
    + apply list_lookup_insert_eq. now apply lookup_lt_Some in Hrow.
    + apply List.Forall_forall. intros r Hr Heq.
      apply in_map_iff in Hr. destruct Hr as (t' & <- & Ht').
      apply Hnotin, list_elem_of_In, in_map_iff. exists t'. split; [exact Heq | exact Ht'].
  - assert (Hne : te_index a <> te_index t).
    { intros Heq. apply Hnotin, list_elem_of_In, in_map_iff. exists t. auto. }
    apply IH; [exact Hnd | exact Hin |].
    destruct (rows !! te_index a); [| exact Hrow].
    rewrite list_lookup_insert_ne by exact Hne. exact Hrow.
Qed.

Lemma localPass_run rows : forall index w,
  exists done queue w',
    localPass index rows w = (Returned (done, queue), w')
    /\ view w' = view w /\ remoteCalls w' = remoteCalls w /\ ai w' = ai w
    /\ length done = length rows
    /\ Forall (fun t => exists i tx,
                 rows !! i = Some tx /\ t = queueEntry (index + i) tx) queue
    /\ NoDup (map te_index queue)
    /\ forall i tx, rows !! i = Some tx ->
         let h := extractHeuristicData (pt_description tx) in
         match ruleTableHit (Heuristic.merchant h) with
         | Some (m, c) =>
             done !! i = Some (spread tx (Some m) (Some c) None)
             /\ Forall (fun t => te_index t <> (index + i)%nat) queue
         | None =>
             match view w !! Heuristic.cacheKey h with
             | Some cached =>
                 done !! i = Some (spread tx (Some (ed_merchant cached))
                                          (Some (ed_category cached))
                                          (ed_enrichedInfo cached))
                 /\ Forall (fun t => te_index t <> (index + i)%nat) queue
             | None =>
                 done !! i = Some (asRow tx)
                 /\ In (queueEntry (index + i) tx) queue
             end
         end.
Proof.
  induction rows as [| tx rest IH]; intros index w.
  - exists [], [], w. repeat split; try constructor. intros i tx Hi. discriminate Hi.
  - assert (Hshift : forall queue,
              Forall (fun t => exists i tx',
                        rest !! i = Some tx' /\ t = queueEntry (S index + i) tx') queue ->
              Forall (fun t => exists i tx',
                        (tx :: rest) !! i = Some tx' /\ t = queueEntry (index + i) tx') queue
              /\ Forall (fun t => te_index t <> (index + 0)%nat) queue).
    { intros queue Hq. split; (eapply List.Forall_impl; [| exact Hq]); simpl.
      - intros t (i & tx' & Hi & ->). exists (S i), tx'. split; [exact Hi |].
        now rewrite Nat.add_succ_r.
      - intros t (i & tx' & _ & ->). simpl. lia. }
    simpl localPass.
    destruct (ruleTableHit (Heuristic.merchant (extractHeuristicData (pt_description tx))))
      as [[m c] |] eqn:Hrule.
    + destruct (IH (S index) w)
        as (done & queue & w' & Hrun & Hview & Hcalls & Hai & Hlen & Hfrom & Hnd & Hrows).
      destruct (Hshift queue Hfrom) as [Hfrom' Hhead].
      exists (spread tx (Some m) (Some c) None :: done), queue, w'.
      unfold bind. rewrite Hrun. simpl.
      split; [reflexivity |]. split; [exact Hview |]. split; [exact Hcalls |].
      split; [exact Hai |]. split; [now rewrite Hlen |].
      split; [exact Hfrom' |]. split; [exact Hnd |].
      intros [| i] tx' Hi; simpl in Hi.
      * injection Hi as <-. rewrite Hrule. split; [reflexivity | exact Hhead].
      * specialize (Hrows i tx' Hi). rewrite Nat.add_succ_r. exact Hrows.
    + unfold bind at 1. rewrite getCachedEnrichment_run.
      destruct (IH (S index) (countCacheRead (hydrated w)))
        as (done & queue & w' & Hrun & Hview & Hcalls & Hai & Hlen & Hfrom & Hnd & Hrows).
      destruct (Hshift queue Hfrom) as [Hfrom' Hhead].
      rewrite view_read in *.
      assert (Hcalls' : remoteCalls w' = remoteCalls w)
        by (rewrite Hcalls; simpl; apply remoteCalls_hydrated).
      assert (Hai' : ai w' = ai w) by (rewrite Hai; simpl; apply ai_hydrated).
      unfold bind. rewrite Hrun.
      destruct (view w !! Heuristic.cacheKey (extractHeuristicData (pt_description tx)))
        as [cached |] eqn:Hcached.
      * eexists. exists queue, w'. split; [reflexivity |].
        split; [exact Hview |]. split; [exact Hcalls' |]. split; [exact Hai' |].
        split; [simpl; now rewrite Hlen |].
        split; [exact Hfrom' |]. split; [exact Hnd |].
        intros [| i] tx' Hi; simpl in Hi.
        -- injection Hi as <-. rewrite Hrule, Hcached. split; [reflexivity | exact Hhead].
        -- specialize (Hrows i tx' Hi). rewrite Nat.add_succ_r. exact Hrows.
      * eexists. eexists. exists w'. split; [reflexivity |].
        split; [exact Hview |]. split; [exact Hcalls' |]. split; [exact Hai' |].
        split; [simpl; now rewrite Hlen |].
        split.
        { constructor; [| exact Hfrom'].
          exists 0%nat, tx. split; [reflexivity | now rewrite Nat.add_0_r]. }
        split.
        { simpl. apply NoDup_cons. split; [| exact Hnd].
          intros Hin. apply list_elem_of_In, in_map_iff in Hin.
          destruct Hin as (t & Ht & Hin).
          rewrite List.Forall_forall in Hhead. apply (Hhead t Hin).
          rewrite Ht. simpl. lia. }
        intros [| i] tx' Hi; simpl in Hi.
        -- injection Hi as <-. rewrite Hrule, Hcached. rewrite Nat.add_0_r.
           split; [reflexivity | now left].
        -- specialize (Hrows i tx' Hi). rewrite Nat.add_succ_r.
           cbv zeta in Hrows |- *. revert Hrows.
           destruct (ruleTableHit
                       (Heuristic.merchant (extractHeuristicData (pt_description tx'))))
             as [[m c] |];
             [| destruct (view w !! Heuristic.cacheKey
                                      (extractHeuristicData (pt_description tx')))];
             intros [Hd Hq]; (split; [exact Hd |]);
             try (constructor; [simpl; lia | exact Hq]).
           now right.
Qed.

Lemma batch_run transactions examples w :
  exists out w',
    batchEnrichTransactions transactions examples w = (Returned out, w')
    /\ (remoteCalls w' <= S (remoteCalls w))%nat
    /\ (transactions = [] -> w' = w)
    /\ (batchReply (ai w) (remoteCalls w) examples (map batchItem transactions) = None ->
        out = map batchFallback transactions /\ view w' = view w).
Proof.
  destruct transactions as [| t ts].
  - exists [], w. split; [reflexivity |]. split; [lia |]. split; [reflexivity |].
    intros _. split; reflexivity.
  - destruct (batchReply (ai w) (remoteCalls w) examples (map batchItem (t :: ts)))
      as [results |] eqn:Hreply.
    + destruct (cacheBatchResults_run (t :: ts) results (countRemoteCall w))
        as (w' & Hrun & Hcalls & _).
      exists results, w'. split.
      * unfold batchEnrichTransactions. apply retry_returned.
        unfold tryCatch, bind, generate. rewrite Hreply, Hrun. reflexivity.
      * split; [rewrite Hcalls; simpl; lia |]. split; [discriminate | discriminate].
    + exists (map batchFallback (t :: ts)), (countRemoteCall w). split.
      * unfold batchEnrichTransactions. apply retry_returned.
        unfold tryCatch, bind, generate. now rewrite Hreply.
      * split; [simpl; lia |]. split; [discriminate |]. intros _. split; reflexivity.
Qed.

(** X21. What the model answers lands by position, and nothing checks the
    position against what was asked: the number of rows never changes; a
    row whose position no result names stays as it is; a result naming a
    position past the end is dropped; and for a position named by several
    results the last one gives the merchant and the category. *)
Theorem batch_results_land_by_position rows results :
  length (scatter rows results) = length rows
  /\ (forall i, Forall (fun r => br_index r <> i) results ->
                scatter rows results !! i = rows !! i)
  /\ (forall r, (length rows <= br_index r)%nat ->
                scatter rows (results ++ [r]) = scatter rows results)
  /\ (forall before r after row,
        results = (before ++ r :: after)%list ->
        Forall (fun r' => br_index r' <> br_index r) after ->
        rows !! br_index r = Some row ->
        exists row',
          scatter rows results !! br_index r = Some row'
          /\ et_merchant row' = Some (br_merchant r)
          /\ et_category row' = Some (br_category r)).
Proof.
  split; [apply scatter_length |]. split; [intros i; apply scatter_untouched |].
  split.
  - intros r Hr. rewrite scatter_app. simpl.
    rewrite lookup_ge_None_2; [reflexivity |]. now rewrite scatter_length.
  - intros before r after row -> Hafter Hrow.
    rewrite scatter_app, scatter_cons.
    destruct (scatter rows before !! br_index r) as [row0 |] eqn:Hrow0.
    + exists (mergeResult row0 r). rewrite scatter_untouched by exact Hafter.
      split; [| split; reflexivity].
      apply list_lookup_insert_eq. now apply lookup_lt_Some in Hrow0.
    + apply lookup_ge_None in Hrow0. rewrite scatter_length in Hrow0.
      apply lookup_lt_Some in Hrow. lia.
Qed.

Lemma batch_results_land_by_position_witness :
  let row := spread johnDoe None None None in
  exists row',
    scatter [row; row]
            [{| br_index := 1; br_merchant := "Kiosk"; br_category := "Shopping";
                br_enrichedInfo := None |};
             {| br_index := 1; br_merchant := "Duka"; br_category := "Groceries";
                br_enrichedInfo := None |};
             {| br_index := 7; br_merchant := "Stray"; br_category := "Other";
                br_enrichedInfo := None |}] !! 1%nat = Some row'
    /\ et_merchant row' = Some "Duka" /\ et_category row' = Some "Groceries".
Proof.
  intros row.
  apply (proj2 (proj2 (proj2 (batch_results_land_by_position [row; row] _)))
           [{| br_index := 1; br_merchant := "Kiosk"; br_category := "Shopping";
               br_enrichedInfo := None |}]
           {| br_index := 1; br_merchant := "Duka"; br_category := "Groceries";
              br_enrichedInfo := None |}
           [{| br_index := 7; br_merchant := "Stray"; br_category := "Other";
               br_enrichedInfo := None |}] row);
    [reflexivity | repeat constructor; discriminate | reflexivity].
Defined.

(** X22. The import review never fails and never loses a row: whatever the
    model does, [enrichAll] returns one row per parsed row, after one
    remote call at most; and when every row is settled by the rule table
    or the cache, no remote call is made at all. *)
Theorem import_review_keeps_every_row parsed examples w :
  exists out w',
    enrichAll parsed examples w = (Returned out, w')
    /\ length out = length parsed
    /\ (remoteCalls w' <= S (remoteCalls w))%nat
    /\ (Forall (fun tx =>
                  let h := extractHeuristicData (pt_description tx) in
                  ruleTableHit (Heuristic.merchant h) <> None
                  \/ view w !! Heuristic.cacheKey h <> None) parsed ->
        remoteCalls w' = remoteCalls w /\ view w' = view w).
Proof.
  destruct (localPass_run parsed 0 w)
    as (done & queue & w1 & Hrun & Hview & Hcalls & Hai & Hlen & Hfrom & _ & Hrows).
  unfold enrichAll, bind. rewrite Hrun. cbn [fst snd].
  destruct queue as [| t q].
  - exists done, w1. split; [reflexivity |]. split; [exact Hlen |].
    split; [lia |]. intros _. split; [exact Hcalls | exact Hview].
  - destruct (batch_run (t :: q) examples w1) as (out & w' & Hbatch & Hle & _).
    exists (scatter done out), w'. unfold tryCatch, bind. rewrite Hbatch.
    split; [reflexivity |]. split; [now rewrite scatter_length |].
    split; [lia |]. intros Hlocal. exfalso.
    inversion Hfrom as [| ? ? (i & tx & Hi & Ht) _]; subst.
    specialize (Hrows i tx Hi). cbv zeta in Hrows.
    rewrite List.Forall_forall in Hlocal.
    assert (Hin : In tx parsed)
      by (apply list_elem_of_In, list_elem_of_lookup; eauto).
    specialize (Hlocal tx Hin). cbv zeta in Hlocal.
    revert Hrows Hlocal.
    destruct (ruleTableHit
                (Heuristic.merchant (extractHeuristicData (pt_description tx))))
      as [[m c] |];
      [| destruct (view w !! Heuristic.cacheKey
                               (extractHeuristicData (pt_description tx)))].
    + intros [_ Hq] _. inversion Hq as [| ? ? Hne _]. now apply Hne.
    + intros [_ Hq] _. inversion Hq as [| ? ? Hne _]. now apply Hne.
    + intros _ [H | H]; now apply H.
Qed.

Lemma import_review_keeps_every_row_witness :
  exists out,
    enrichAll [sampleTransaction uberDescription; johnDoe] [] cachedWorld
    = (Returned out, countCacheRead cachedWorld)
    /\ length out = 2%nat.
Proof.
  destruct (import_review_keeps_every_row
              [sampleTransaction uberDescription; johnDoe] [] cachedWorld)
    as (out & w' & Hrun & Hlen & _).
  exists out. split; [| exact Hlen].
  rewrite Hrun. f_equal. revert Hrun. vm_compute. congruence.
Defined.

(** X23. The import review without the model. When the batch call fails,
    every row is still settled, in place: a row whose extracted merchant
    the rule table knows gets that merchant and the category of the table;
    otherwise a row whose cache key is cached gets the cached merchant,
    category and details (the cached merchant, even when a merchant was
    extracted); any other row gets the extracted merchant, or "Unknown",
    and the category "Other". The cache is not written. *)
Theorem import_review_without_model parsed examples w :
  (forall items, batchReply (ai w) (remoteCalls w) examples items = None) ->
  exists out w',
    enrichAll parsed examples w = (Returned out, w')
    /\ view w' = view w
    /\ forall i tx, parsed !! i = Some tx ->
         let h := extractHeuristicData (pt_description tx) in
         out !! i = Some
           match ruleTableHit (Heuristic.merchant h) with
           | Some (m, c) => spread tx (Some m) (Some c) None
           | None =>
               match view w !! Heuristic.cacheKey h with
               | Some cached =>
                   spread tx (Some (ed_merchant cached)) (Some (ed_category cached))
                          (ed_enrichedInfo cached)
               | None =>
                   spread tx (Some (Js.orElse (Heuristic.merchant h) "Unknown"))
                          (Some "Other") None
               end
           end.
Proof.
  intros Hdead.
  destruct (localPass_run parsed 0 w)
    as (done & queue & w1 & Hrun & Hview & Hcalls & Hai & Hlen & Hfrom & Hnd & Hrows).
  unfold enrichAll, bind. rewrite Hrun. cbn [fst snd].
  destruct queue as [| t q] eqn:Hqueue.
  - exists done, w1. split; [reflexivity |]. split; [exact Hview |].
    intros i tx Hi. specialize (Hrows i tx Hi). cbv zeta in Hrows |- *. revert Hrows.
    destruct (ruleTableHit
                (Heuristic.merchant (extractHeuristicData (pt_description tx))))
      as [[m c] |];
      [| destruct (view w !! Heuristic.cacheKey
                               (extractHeuristicData (pt_description tx)))];
      intros [Hd Hq]; try exact Hd. destruct Hq.
  - rewrite <- Hqueue in *.
    destruct (batch_run queue examples w1) as (out & w' & Hbatch & _ & _ & Hfail).
    destruct Hfail as [-> Hview']; [rewrite Hai, Hcalls; apply Hdead |].
    exists (scatter done (map batchFallback queue)), w'.
    split.
    { rewrite Hqueue in Hbatch |- *. unfold tryCatch, bind. now rewrite Hbatch. }
    split; [now rewrite Hview' |].
    intros i tx Hi. specialize (Hrows i tx Hi). cbv zeta in Hrows |- *. revert Hrows.
    simpl Nat.add.
    assert (Huntouched : Forall (fun t' => te_index t' <> i) queue ->
                         scatter done (map batchFallback queue) !! i = done !! i).
    { intros Hq. apply scatter_untouched, List.Forall_forall.
      intros r Hr. apply in_map_iff in Hr. destruct Hr as (t' & <- & Ht').
      rewrite List.Forall_forall in Hq. exact (Hq t' Ht'). }
    destruct (ruleTableHit
                (Heuristic.merchant (extractHeuristicData (pt_description tx))))
      as [[m c] |];
      [| destruct (view w !! Heuristic.cacheKey
                               (extractHeuristicData (pt_description tx)))].
    + intros [Hd Hq]. now rewrite Huntouched.
    + intros [Hd Hq]. now rewrite Huntouched.
    + intros [Hd Hq].
      pose proof (scatter_fallback queue done (queueEntry i tx) (asRow tx) Hnd Hq Hd)
        as Hs.
      change (te_index (queueEntry i tx)) with i in Hs. rewrite Hs.
      f_equal. unfold mergeResult, asRow, spread, batchFallback, queueEntry. simpl.
      f_equal. f_equal.
      destruct (Heuristic.merchant (extractHeuristicData (pt_description tx))) as [x |];
        simpl; [| reflexivity].
      destruct (String.eqb x "") eqn:E; simpl; [reflexivity | now rewrite E].
Qed.

Lemma import_review_without_model_witness :
  exists out w',
    enrichAll [sampleTransaction uberDescription; johnDoe;
               sampleTransaction "hello world"] [] cachedWorld = (Returned out, w')
    /\ map et_merchant out =
       [Some uberMerchant; Some "John D Enterprises"; Some "Unknown"]
    /\ map et_category out = [Some "Transport"; Some "Shopping"; Some "Other"].
Proof.
  destruct (import_review_without_model
              [sampleTransaction uberDescription; johnDoe;
               sampleTransaction "hello world"] [] cachedWorld)
    as (out & w' & Hrun & _ & Hrows); [reflexivity |].
  exists out, w'. split; [exact Hrun |].
  pose proof (Hrows 0%nat _ eq_refl) as H0.
  pose proof (Hrows 1%nat _ eq_refl) as H1.
  pose proof (Hrows 2%nat _ eq_refl) as H2.
  cbv zeta in H0, H1, H2.
  assert (Hlen : length out = 3%nat).
  { revert Hrun. vm_compute. intros [= <- _]. reflexivity. }
  destruct out as [| a [| b [| c [| d rest]]]]; try discriminate Hlen.
  simpl in H0, H1, H2.
  injection H0 as ->. injection H1 as ->. injection H2 as ->.
  vm_compute. split; reflexivity.
Defined.

End ImportReviewFacts.

(** ** Transfer suggestions *)

Section TransferFacts.
Import Gemini Budget Transfers.

Lemma In_firstn_list {A} (x : A) n l : In x (firstn n l) -> In x l.
Proof. intros H. rewrite <- (firstn_skipn n l). apply in_or_app. now left. Qed.

Lemma In_recentTxs c transactions :
  In c (recentTxs transactions) -> In c transactions /\ c_isTransfer c = false.
Proof.
  unfold recentTxs. intros H. apply filter_In in H. destruct H as [H Hp].
  split; [| now apply negb_true_iff].
  apply In_firstn_list in H. now apply In_sortBy in H.
Qed.

Lemma In_resolvePair recent pair c :
  In c (resolvePair recent pair) -> In c recent /\ In (c_id c) pair.
Proof.
  unfold resolvePair. intros H. apply list_elem_of_In, list_elem_of_omap in H.
  destruct H as (p & Hp & Hfind). apply list_elem_of_In in Hp.
  apply find_some in Hfind. destruct Hfind as [Hin Heq].
  apply String.eqb_eq in Heq. subst p. auto.
Qed.

Lemma length_omap_le {A B} (f : A -> option B) l : (length (omap f l) <= length l)%nat.
Proof. induction l as [| x l IH]; csimpl; [lia |]. destruct (f x); csimpl; lia. Qed.

Lemma length_filter_insertBy {A} (leb : A -> A -> bool) p x l :
  length (List.filter p (insertBy leb x l)) = length (List.filter p (x :: l)).
Proof.
  induction l as [| y l IH]; [reflexivity |]. simpl insertBy.
  destruct (leb x y); [reflexivity |].
  simpl in *. destruct (p y), (p x); simpl in *; lia.
Qed.

Lemma length_filter_sortBy {A} (leb : A -> A -> bool) p l :
  length (List.filter p (sortBy leb l)) = length (List.filter p l).
Proof.
  induction l as [| x l IH]; [reflexivity |].
  change (sortBy leb (x :: l)) with (insertBy leb x (sortBy leb l)).
  rewrite length_filter_insertBy. simpl. destruct (p x); simpl; lia.
Qed.

Lemma length_filter_firstn {A} (p : A -> bool) n l :
  (length (List.filter p (firstn n l)) <= length (List.filter p l))%nat.
Proof.
  rewrite <- (firstn_skipn n l) at 2. rewrite List.filter_app, length_app. lia.
Qed.

(** X24. Transfer suggestions never fail and never invent a transaction.
    The call returns whatever the model does, after one remote call at
    most, and a failed call gives no suggestion. Every transaction of a
    suggested pair is one of the caller's transactions, is not marked as a
    transfer yet, and carries an identifier the model named in that pair;
    there are as many pairs as the model named, none longer than the model
    made it. With fewer than two transactions that are not transfers the
    model is not asked. *)
Theorem transfer_suggestions_are_sound pairsReply transactions w :
  exists pairs w',
    suggestTransferPairs pairsReply transactions w = (Returned pairs, w')
    /\ (remoteCalls w' <= S (remoteCalls w))%nat
    /\ Forall (Forall (fun c => In c transactions /\ c_isTransfer c = false)) pairs
    /\ ((length (List.filter (fun t => negb (c_isTransfer t)) transactions) < 2)%nat ->
        pairs = [] /\ w' = w)
    /\ ((2 <= length (recentTxs transactions))%nat ->
        match pairsReply (remoteCalls w) (recentTxs transactions) with
        | None => pairs = []
        | Some pairsIds =>
            Forall2 (fun pair ids =>
                       (length pair <= length ids)%nat
                       /\ Forall (fun c => In (c_id c) ids) pair)
                    pairs pairsIds
        end).
Proof.
  unfold suggestTransferPairs.
  destruct (Nat.ltb (length (recentTxs transactions)) 2) eqn:Hshort.
  - exists [], w. split; [reflexivity |]. split; [lia |]. split; [constructor |].
    split; [auto |]. apply Nat.ltb_lt in Hshort. lia.
  - apply Nat.ltb_ge in Hshort.
    assert (Hmany : ~ (length (List.filter (fun t => negb (c_isTransfer t)) transactions)
                       < 2)%nat).
    { pose proof (length_filter_firstn (fun t => negb (c_isTransfer t)) 100
                    (sortBy latestFirst transactions)) as H.
      rewrite length_filter_sortBy in H. unfold recentTxs in Hshort. lia. }
    destruct (pairsReply (remoteCalls w) (recentTxs transactions)) as [pairsIds |] eqn:Hreply.
    + exists (map (resolvePair (recentTxs transactions)) pairsIds), (countRemoteCall w).
      split.
      { apply retry_returned. unfold tryCatch, bind, generate. now rewrite Hreply. }
      split; [simpl; lia |]. split.
      { apply List.Forall_forall. intros pair Hpair.
        apply in_map_iff in Hpair. destruct Hpair as (ids & <- & _).
        apply List.Forall_forall. intros c Hc.
        apply In_resolvePair in Hc. now apply In_recentTxs. }
      split; [intros H; now contradiction Hmany |].
      intros _. clear. induction pairsIds as [| ids rest IH]; simpl; constructor; auto.
      split; [apply length_omap_le |].
      apply List.Forall_forall. intros c Hc. now apply In_resolvePair in Hc.
    + exists [], (countRemoteCall w). split.
      { apply retry_returned. unfold tryCatch, bind, generate. now rewrite Hreply. }
      split; [simpl; lia |]. split; [constructor |].
      split; [intros H; now contradiction Hmany | auto].
Qed.

End TransferFacts.

(** ** Editing a draft and its effect on the plan *)

Section EditFacts.
Import Budget Planner.
Local Open Scope Q_scope.

Lemma updateDraft_absent cat newLimit newStrategy drafts :
  ~ In cat (map category drafts) ->
  updateDraft cat newLimit newStrategy drafts = drafts.
Proof.
  induction drafts as [| x l IH]; intros Hnot; [reflexivity |].
  simpl. destruct (String.eqb (category x) cat) eqn:E.
  - apply String.eqb_eq in E. contradiction Hnot. now left.
  - f_equal. apply IH. intros H. apply Hnot. now right.
Qed.

Lemma updateDraft_categories cat newLimit newStrategy drafts :
  map category (updateDraft cat newLimit newStrategy drafts) = map category drafts.
Proof.
  induction drafts as [| x l IH]; [reflexivity |]. simpl. rewrite IH. f_equal.
  destruct (String.eqb (category x) cat); reflexivity.
Qed.

Lemma sumOf_updateDraft (f : DraftBudget -> Q) cat newLimit newStrategy drafts d :
  NoDup (map category drafts) -> In d drafts -> category d = cat ->
  sumOf f (updateDraft cat newLimit newStrategy drafts) ==
  sumOf f drafts
  + (f {| category := category d; average := average d; max := max d;
          min := min d; history := history d; frequency := frequency d;
          volatility := volatility d; limit := newLimit;
          strategy := newStrategy; isDiscretionary := isDiscretionary d;
          isSavings := isSavings d; isModified := true |} - f d).
Proof.
  induction drafts as [| x l IH]; intros Hnd Hin Hcat; [destruct Hin |].
  simpl in Hnd. apply NoDup_cons in Hnd. destruct Hnd as [Hnotin Hnd'].
  rewrite list_elem_of_In in Hnotin. subst cat.
  destruct Hin as [-> | Hin].
  - change (updateDraft (category d) newLimit newStrategy (d :: l))
      with ((if String.eqb (category d) (category d)
             then {| category := category d; average := average d; max := max d;
                     min := min d; history := history d; frequency := frequency d;
                     volatility := volatility d; limit := newLimit;
                     strategy := newStrategy; isDiscretionary := isDiscretionary d;
                     isSavings := isSavings d; isModified := true |}
             else d) :: updateDraft (category d) newLimit newStrategy l).
    rewrite String.eqb_refl, updateDraft_absent by exact Hnotin.
    rewrite !sumOf_cons. ring.
  - assert (Hne : String.eqb (category x) (category d) = false).
    { apply String.eqb_neq. intros Heq. apply Hnotin. rewrite Heq. now apply in_map. }
    change (updateDraft (category d) newLimit newStrategy (x :: l))
      with ((if String.eqb (category x) (category d)
             then {| category := category x; average := average x; max := max x;
                     min := min x; history := history x; frequency := frequency x;
                     volatility := volatility x; limit := newLimit;
                     strategy := newStrategy; isDiscretionary := isDiscretionary x;
                     isSavings := isSavings x; isModified := true |}
             else x) :: updateDraft (category d) newLimit newStrategy l).
    rewrite Hne, !sumOf_cons, (IH Hnd' Hin eq_refl). ring.
Qed.

Lemma newTotalBudget_sumOf drafts income :
  newTotalBudget (impactAnalysis drafts income)
  = sumOf (fun d => if isSavings d then 0 else limit d) drafts.
Proof. reflexivity. Qed.

Lemma freedUpCash_sumOf drafts income :
  freedUpCash (impactAnalysis drafts income)
  = sumOf (fun d => if isSavings d then 0 else average d) drafts
    - sumOf (fun d => if isSavings d then 0 else limit d) drafts.
Proof. reflexivity. Qed.

Lemma plannedNetSavings_sumOf drafts income :
  plannedNetSavings (impactAnalysis drafts income)
  = if Qltb 0 income
    then income - sumOf (fun d => if isSavings d then 0 else limit d) drafts
    else sumOf (fun d => if isSavings d then 0 else average d) drafts
         - sumOf (fun d => if isSavings d then 0 else limit d) drafts.
Proof. reflexivity. Qed.



End EditFacts.

(** ** The income average *)

Section IncomeFacts.
Import Budget.
Local Open Scope Q_scope.

Lemma inject_length_cons {A} (x : A) l :
  inject_Z (Z.of_nat (length (x :: l))) == inject_Z (Z.of_nat (length l)) + 1.
Proof.
  simpl length. rewrite Nat2Z.inj_succ. unfold Z.succ. rewrite inject_Z_plus. reflexivity.
Qed.

Lemma sumQ_bounds lo hi l :
  Forall (fun v => lo <= v <= hi) l ->
  lo * inject_Z (Z.of_nat (length l)) <= sumQ l
  /\ sumQ l <= hi * inject_Z (Z.of_nat (length l)).
Proof.
  induction 1 as [| x l [Hlo Hhi] _ [IHlo IHhi]].
  - change (lo * 0 <= 0 /\ 0 <= hi * 0). split; rewrite Qmult_0_r; apply Qle_refl.
  - rewrite inject_length_cons, sumQ_cons. split; lra.
Qed.

Lemma sumQ_positive x l : Forall (fun v => 0 < v) (x :: l) -> 0 < sumQ (x :: l).
Proof.
  revert x. induction l as [| y l IH]; intros x H; inversion H as [| ? ? Hx Hl]; subst.
  - rewrite sumQ_cons. unfold sumQ. simpl. lra.
  - rewrite sumQ_cons. specialize (IH y Hl). lra.
Qed.

Lemma inject_length_pos {A} (x : A) l : 0 < inject_Z (Z.of_nat (length (x :: l))).
Proof.
  rewrite inject_length_cons.
  assert (0 <= inject_Z (Z.of_nat (length l))); [| lra].
  change 0 with (inject_Z 0). rewrite <- Zle_Qle. lia.
Qed.

Lemma mean_bounds lo hi x l :
  Forall (fun v => lo <= v <= hi) (x :: l) ->
  lo <= sumQ (x :: l) / inject_Z (Z.of_nat (length (x :: l))) <= hi.
Proof.
  intros H. destruct (sumQ_bounds lo hi (x :: l) H) as [Hlo Hhi].
  pose proof (inject_length_pos x l) as Hpos. split.
  - apply Qle_shift_div_l; assumption.
  - apply Qle_shift_div_r; assumption.
Qed.

Lemma income_values (income : gmap string Q) v :
  In v (List.filter (Qltb 0) (map_to_list income).*2)
  <-> (exists m, income !! m = Some v) /\ 0 < v.
Proof.
  rewrite filter_In, Qltb_lt. split; intros [H Hpos]; (split; [| exact Hpos]).
  - apply list_elem_of_In, list_elem_of_fmap in H. destruct H as ([m v'] & -> & H).
    exists m. now apply elem_of_map_to_list in H.
  - destruct H as (m & H). apply list_elem_of_In, list_elem_of_fmap.
    exists (m, v). split; [reflexivity |]. now apply elem_of_map_to_list.
Qed.



End IncomeFacts.

Section TransferWindow.
Import Gemini Budget Transfers.

Lemma latestFirst_total a b : latestFirst a b = true \/ latestFirst b a = true.
Proof. unfold latestFirst. rewrite !Z.leb_le. lia. Qed.

Lemma latestFirst_trans a b c :
  latestFirst a b = true -> latestFirst b c = true -> latestFirst a c = true.
Proof. unfold latestFirst. rewrite !Z.leb_le. lia. Qed.

Lemma StronglySorted_across {A} (R : A -> A -> Prop) l1 l2 a b :
  StronglySorted R (l1 ++ l2) -> In a l1 -> In b l2 -> R a b.
Proof.
  induction l1 as [| x l1 IH]; intros Hs Ha Hb; [destruct Ha |].
  inversion Hs as [| ? ? Hs' Hall]; subst. destruct Ha as [-> | Ha].
  - rewrite List.Forall_forall in Hall. apply Hall, in_or_app. now right.
  - now apply IH.
Qed.

Lemma length_filter_lt {A} (p : A -> bool) l c :
  In c l -> p c = false -> (length (List.filter p l) < length l)%nat.
Proof.
  induction l as [| x l IH]; intros Hin Hc; [destruct Hin |]. simpl.
  destruct Hin as [-> | Hin].
  - rewrite Hc. pose proof (List.filter_length_le p l). lia.
  - specialize (IH Hin Hc). destruct (p x); simpl; lia.
Qed.

Lemma suggested_are_recent pairsReply transactions w pairs w' pair c :
  suggestTransferPairs pairsReply transactions w = (Returned pairs, w') ->
  In pair pairs -> In c pair -> In c (recentTxs transactions).
Proof.
  unfold suggestTransferPairs.
  destruct (Nat.ltb (length (recentTxs transactions)) 2);
    [intros [= <- _] [] |].
  destruct (pairsReply (remoteCalls w) (recentTxs transactions)) as [pairsIds |] eqn:Hreply.
  - rewrite (retry_returned _ _ _ w
               (map (resolvePair (recentTxs transactions)) pairsIds) (countRemoteCall w))
      by (unfold tryCatch, bind, generate; now rewrite Hreply).
    intros [= <- _] Hpair Hc. apply in_map_iff in Hpair.
    destruct Hpair as (ids & <- & _). now apply In_resolvePair in Hc.
  - rewrite (retry_returned _ _ _ w [] (countRemoteCall w))
      by (unfold tryCatch, bind, generate; now rewrite Hreply).
    intros [= <- _] [].
Qed.

(** X27. Only the hundred latest transactions are offered for pairing: a
    transaction that is offered to the model, or that stands in a
    suggested pair, has fewer than a hundred transactions dated after it
    in the caller's list, transfers included. *)
Theorem only_the_latest_hundred pairsReply transactions w c :
  In c (recentTxs transactions)
  \/ (exists pairs w' pair,
        suggestTransferPairs pairsReply transactions w = (Returned pairs, w')
        /\ In pair pairs /\ In c pair) ->
  (length (List.filter (fun t => (c_time c <? c_time t)%Z) transactions) < 100)%nat.
Proof.
  intros H.
  assert (Hin : In c (recentTxs transactions)).
  { destruct H as [H | (pairs & w' & pair & Hrun & Hpair & Hc)]; [exact H |].
    exact (suggested_are_recent _ _ _ _ _ _ _ Hrun Hpair Hc). }
  clear H. unfold recentTxs in Hin. apply filter_In in Hin. destruct Hin as [Hin _].
  rewrite <- (length_filter_sortBy latestFirst).
  pose proof (sortBy_sorted latestFirst latestFirst_total latestFirst_trans transactions)
    as Hsorted.
  revert Hin Hsorted. generalize (sortBy latestFirst transactions) as sorted.
  intros sorted Hin Hsorted.
  rewrite <- (firstn_skipn 100 sorted) in Hsorted |- *.
  rewrite List.filter_app, length_app.
  assert (Hrest : List.filter (fun t => (c_time c <? c_time t)%Z) (skipn 100 sorted) = []).
  { apply filter_nil. intros b Hb.
    pose proof (StronglySorted_across _ _ _ c b Hsorted Hin Hb) as Hle.
    unfold latestFirst in Hle. apply Z.leb_le in Hle. apply Z.ltb_ge. exact Hle. }
  rewrite firstn_skipn in *. rewrite Hrest. simpl.
  pose proof (length_filter_lt (fun t => (c_time c <? c_time t)%Z)
                (firstn 100 sorted) c Hin (Z.ltb_irrefl _)) as Hlt.
  pose proof (firstn_le_length 100 sorted). lia.
Qed.

Lemma only_the_latest_hundred_witness :
  let early := {| c_id := "a"; c_time := 10; c_amount := 500; c_type := Expense;
                  c_description := "To savings"; c_isTransfer := false |} in
  let late := {| c_id := "b"; c_time := 20; c_amount := 500; c_type := Income;
                 c_description := "From current"; c_isTransfer := false |} in
  (length (List.filter (fun t => (c_time early <? c_time t)%Z) [early; late]) < 100)%nat.
Proof.
  intros early late.
  apply (only_the_latest_hundred (fun _ _ => None) [early; late]
           (freshWorld silentRemote) early).
  left. vm_compute. auto.
Defined.

End TransferWindow.

(** ** Reading a points balance *)

Section PointsFacts.
Import Regex Heuristic Points.

Lemma jsMatch_eq r s :
  jsMatch r s = match matchAt r s with
                | Some cap => Some cap
                | None => match s with
                          | EmptyString => None
                          | String _ s' => jsMatch r s'
                          end
                end.
Proof. destruct s; reflexivity. Qed.

Lemma repGreedy_eq p lo hi s k :
  repGreedy p lo hi s k =
  match match s with
        | String c s' =>
            if negb (exhausted hi) && icase p c
            then repGreedy p (Nat.pred lo) (decHi hi) s' k else None
        | EmptyString => None
        end with
  | Some r => Some r
  | None => match lo with 0%nat => k s | S _ => None end
  end.
Proof. destruct s; reflexivity. Qed.

Lemma repGreedy_stop p hi s k :
  stopsAt (icase p) s = true -> repGreedy p 0 hi s k = k s.
Proof.
  intros H. rewrite repGreedy_eq. destruct s as [| c s']; [reflexivity |].
  simpl in H. apply negb_true_iff in H. rewrite H, andb_false_r. reflexivity.
Qed.

Lemma repGreedy_all p ds rest k r : forall lo,
  every (icase p) ds = true -> stopsAt (icase p) rest = true ->
  (lo <= String.length ds)%nat -> k rest = Some r ->
  repGreedy p lo None (ds ++ rest) k = Some r.
Proof.
  induction ds as [| c ds IH]; intros lo Hds Hrest Hlo Hk.
  - simpl in Hlo. assert (lo = 0%nat) as -> by lia. simpl. now rewrite repGreedy_stop.
  - simpl in Hds. apply andb_true_iff in Hds. destruct Hds as [Hc Hds].
    change (String c ds ++ rest) with (String c (ds ++ rest)).
    rewrite repGreedy_eq. simpl exhausted. simpl negb. rewrite Hc. simpl andb.
    simpl decHi.
    rewrite (IH (Nat.pred lo) Hds Hrest); [reflexivity | simpl in Hlo; lia | exact Hk].
Qed.

Lemma length_append_string a b :
  String.length (a ++ b) = (String.length a + String.length b)%nat.
Proof. induction a as [| c a IH]; simpl; [reflexivity | now rewrite IH]. Qed.

Lemma substring_prefix a b : String.substring 0 (String.length a) (a ++ b) = a.
Proof.
  induction a as [| c a IH]; simpl.
  - destruct b; reflexivity.
  - now rewrite IH.
Qed.

Lemma captured_prefix a b :
  String.substring 0 (String.length (a ++ b) - String.length b) (a ++ b) = a.
Proof.
  rewrite length_append_string, Nat.add_sub. apply substring_prefix.
Qed.

Lemma digitOrComma_icase c : icase digitOrComma c = digitOrComma c.
Proof. destruct c as [[] [] [] [] [] [] [] []]; reflexivity. Qed.

Lemma isSpace_icase c : icase Js.isSpace c = Js.isSpace c.
Proof. destruct c as [[] [] [] [] [] [] [] []]; reflexivity. Qed.

Lemma no_colon c :
  Js.isSpace c || digitOrComma c = true -> icase (isChar ":") c = false.
Proof. destruct c as [[] [] [] [] [] [] [] []]; intros H; try reflexivity; discriminate H. Qed.

Lemma no_space c : digitOrComma c = true -> Js.isSpace c = false.
Proof. destruct c as [[] [] [] [] [] [] [] []]; intros H; try reflexivity; discriminate H. Qed.

Lemma every_icase p q s :
  (forall c, icase p c = q c) -> every q s = true -> every (icase p) s = true.
Proof.
  intros Hpq. induction s as [| c s IH]; simpl; [reflexivity |].
  rewrite Hpq. intros H. apply andb_true_iff in H. destruct H as [-> H]. now apply IH.
Qed.

(** The part of the rules after the label, on a balance written out. *)
Lemma balance_run colon spaces ds rest k r :
  colon = "" \/ colon = ":" ->
  every Js.isSpace spaces = true ->
  every digitOrComma ds = true -> ds <> "" ->
  stopsAt digitOrComma rest = true ->
  k rest (Some ds) = Some r ->
  run balance (colon ++ spaces ++ ds ++ rest) None k = Some r.
Proof.
  intros Hcolon Hspaces Hds Hne Hrest Hk.
  assert (Hgroup : forall cap,
             run (Group (Rep true 1 None digitOrComma))
                 (ds ++ rest) cap k = Some r).
  { intros cap. simpl run. apply repGreedy_all.
    - now apply (every_icase _ digitOrComma); [apply digitOrComma_icase |].
    - destruct rest as [| c rest']; [reflexivity |]. simpl in *.
      now rewrite (digitOrComma_icase c).
    - destruct ds; [congruence | simpl; lia].
    - now rewrite captured_prefix. }
  assert (Hspace : run (Rep true 0 None Js.isSpace
                        >> Group (Rep true 1 None digitOrComma))
                       (spaces ++ ds ++ rest) None k = Some r).
  { simpl run. apply repGreedy_all.
    - now apply (every_icase _ Js.isSpace); [apply isSpace_icase |].
    - destruct ds as [| d ds']; [congruence |]. simpl in Hds |- *.
      apply andb_true_iff in Hds. destruct Hds as [Hd _].
      rewrite isSpace_icase. now rewrite (no_space d Hd).
    - lia.
    - apply (Hgroup None). }
  unfold balance.
  change (run (Rep true 0 (Some 1) (isChar ":") >> ?r2) ?s None k)
    with (repGreedy (isChar ":") 0 (Some 1) s (fun s' => run r2 s' None k)).
  destruct Hcolon as [-> | ->].
  - change ("" ++ spaces ++ ds ++ rest) with (spaces ++ ds ++ rest).
    rewrite repGreedy_stop; [exact Hspace |].
    destruct spaces as [| c spaces'].
    + destruct ds as [| d ds']; [congruence |]. simpl in Hds |- *.
      apply andb_true_iff in Hds. destruct Hds as [Hd _].
      rewrite no_colon; [reflexivity |]. rewrite Hd. apply orb_true_r.
    + simpl in Hspaces |- *. apply andb_true_iff in Hspaces. destruct Hspaces as [Hc _].
      rewrite no_colon; [reflexivity |]. now rewrite Hc.
  - change (":" ++ spaces ++ ds ++ rest) with (String ":" (spaces ++ ds ++ rest)).
    rewrite repGreedy_eq. simpl exhausted. simpl negb.
    change (icase (isChar ":") ":") with true. simpl andb. simpl decHi. simpl Nat.pred.
    rewrite (repGreedy_eq _ _ (Some 0%nat)).
    assert (Hex : forall s' : string,
               match s' with
               | String c s'' =>
                   if negb (exhausted (Some 0%nat)) && icase (isChar ":") c
                   then repGreedy (isChar ":") (Nat.pred 0) (decHi (Some 0%nat)) s''
                          (fun s0 => run (Rep true 0 None Js.isSpace
                                          >> Group (Rep true 1 None digitOrComma))
                                         s0 None k)
                   else None
               | EmptyString => None
               end = None) by (intros [| c s'']; reflexivity).
    rewrite Hex, Hspace. reflexivity.
Qed.

Lemma firstAt_eq label s :
  firstAt label s = match lit label s with
                    | Some _ => Some 0%nat
                    | None =>
                        match s with
                        | EmptyString => None
                        | String _ s' => option_map S (firstAt label s')
                        end
                    end.
Proof. destruct s; reflexivity. Qed.

Lemma label_skip label rule before s :
  firstAt label (before ++ s) = Some (String.length before) ->
  jsMatch (Lit label >> rule) (before ++ s) = jsMatch (Lit label >> rule) s.
Proof.
  induction before as [| c before IH]; intros H; [reflexivity |].
  change (String c before ++ s) with (String c (before ++ s)) in *.
  rewrite firstAt_eq in H. rewrite jsMatch_eq. unfold matchAt.
  change (run (Lit label >> rule) ?x None ?k)
    with (match lit label x with
          | Some s' => run rule s' None k
          | None => None
          end).
  destruct (lit label (String c (before ++ s))); [discriminate H |].
  apply IH. simpl in H. destruct (firstAt label (before ++ s)); simpl in H; congruence.
Qed.



End PointsFacts.

(** ** The list of categories *)

Section CategoryListFacts.
Import Gemini Ledger.
Variable showNumber : Q -> string.

Lemma existsb_eqb_In x l : existsb (String.eqb x) l = true <-> In x l.
Proof.
  rewrite existsb_exists. split.
  - intros (y & Hy & Heq). apply String.eqb_eq in Heq. now subst.
  - intros H. exists x. split; [exact H | apply String.eqb_refl].
Qed.

Lemma existsb_eqb_not_In x l : existsb (String.eqb x) l = false <-> ~ In x l.
Proof.
  rewrite <- existsb_eqb_In. destruct (existsb (String.eqb x) l); split; congruence.
Qed.

Lemma In_distinct x l : forall seen,
  In x (distinct seen l) <-> In x l /\ ~ In x seen.
Proof.
  induction l as [| y l IH]; intros seen; simpl; [tauto |].
  destruct (existsb (String.eqb y) seen) eqn:E.
  - apply existsb_eqb_In in E. rewrite IH. split.
    + intros [H Hs]. auto.
    + intros [[-> | H] Hs]; [contradiction | auto].
  - apply existsb_eqb_not_In in E. simpl. rewrite IH. simpl. split.
    + intros [-> | [H Hs]]; [auto |]. split; [now right | tauto].
    + intros [[-> | H] Hs]; [now left |].
      destruct (String.eqb_spec y x) as [-> | Hne]; [now left | right]. tauto.
Qed.

Lemma NoDup_distinct l : forall seen, NoDup (distinct seen l).
Proof.
  induction l as [| y l IH]; intros seen; simpl; [constructor |].
  destruct (existsb (String.eqb y) seen); [apply IH |].
  apply NoDup_cons. split; [| apply IH].
  intros H. apply list_elem_of_In, In_distinct in H. destruct H as [_ H].
  apply H. now left.
Qed.

Lemma NoDup_List_filter {A} (f : A -> bool) l : NoDup l -> NoDup (List.filter f l).
Proof.
  induction 1 as [| x l Hx Hl IH]; simpl; [constructor |].
  destruct (f x); [| exact IH]. constructor; [| exact IH].
  intros H. apply Hx. apply list_elem_of_In in H. apply filter_In in H.
  now apply list_elem_of_In.
Qed.

Lemma checkAndAddPoints_categories now today tx s :
  Ledger.categories (snd (checkAndAddPoints now today tx s)) = Ledger.categories s.
Proof.
  unfold checkAndAddPoints.
  destruct (Points.extractPointsFromDescription _) as [[[| p] |] |]; reflexivity.
Qed.

Lemma addAllPoints_categories now today l : forall s,
  Ledger.categories (addAllPoints now today l s) = Ledger.categories s.
Proof.
  unfold addAllPoints. induction l as [| t l IH]; intros s; simpl; [reflexivity |].
  rewrite IH. apply checkAndAddPoints_categories.
Qed.

Lemma numbered_categories now l : forall i,
  map category (numbered now i l) = map category l.
Proof. induction l as [| t l IH]; intros i; simpl; [reflexivity | now rewrite IH]. Qed.

Lemma importTransactions_categories now today batch s :
  let unique :=
    List.filter (fun t => negb (bool_decide
                                  (txKey showNumber t ∈
                                   (list_to_set (map (txKey showNumber) (transactions s))
                                    : gset string))))
                batch in
  let newCategories :=
    List.filter (fun cat => negb (existsb (String.eqb cat) (Ledger.categories s)))
                (distinct [] (map category unique)) in
  Ledger.categories (importTransactions showNumber now today batch s) =
  match unique, newCategories with
  | _ :: _, _ :: _ => Budget.sortBy String.leb (Ledger.categories s ++ newCategories)%list
  | _, _ => Ledger.categories s
  end.
Proof.
  intros unique newCategories. unfold importTransactions. fold unique.
  destruct unique as [| u us] eqn:E.
  - destruct (length batch - length []%list)%nat; reflexivity.
  - cbv zeta. fold newCategories.
    match goal with
    | |- Ledger.categories (showToast Info ?x) = _ =>
        change (Ledger.categories (showToast Info x)) with (Ledger.categories x)
    end.
    destruct newCategories as [| c cs]; [now rewrite addAllPoints_categories |].
    match goal with
    | |- Ledger.categories (setCategories ?f ?x) = _ =>
        change (Ledger.categories (setCategories f x)) with (f (Ledger.categories x))
    end.
    cbv beta. now rewrite addAllPoints_categories.
Qed.

Lemma updateCategory_shape transactionId newCategory s w :
  exists s' w',
    updateCategory transactionId newCategory s w = (Returned s', w')
    /\ match List.find (fun t => String.eqb (id t) transactionId) (transactions s) with
       | None => s' = s
       | Some _ =>
           transactions s' = map (recategorise transactionId newCategory) (transactions s)
           /\ Ledger.categories s' =
              if existsb (String.eqb newCategory) (Ledger.categories s)
              then Ledger.categories s
              else Budget.sortBy String.leb (Ledger.categories s ++ [newCategory])%list
       end.
Proof.
  unfold updateCategory.
  destruct (List.find _ (transactions s)) as [transaction |]; [| now exists s, w].
  cbv zeta.
  set (s2 := if existsb (String.eqb newCategory) (Ledger.categories s) then _ else _).
  unfold tryCatch, bind. rewrite validate_run. cbv zeta.
  assert (Hs2 : transactions s2 = map (recategorise transactionId newCategory)
                                      (transactions s)
                /\ Ledger.categories s2 =
                   if existsb (String.eqb newCategory) (Ledger.categories s)
                   then Ledger.categories s
                   else Budget.sortBy String.leb (Ledger.categories s ++ [newCategory])%list).
  { unfold s2. destruct (existsb _ _); split; reflexivity. }
  destruct (validationCache w !! _) as [[|] |];
    [| | destruct (_ || _); [| destruct (validateReply _ _ _ _) as [[|] |]]];
    eexists; eexists; (split; [reflexivity | exact Hs2]).
Qed.

(** X29. The list of categories stays complete and free of duplicates. An
    import and a category update keep every category the list had; when
    every transaction of the ledger has its category in the list before,
    so it is after, for the transactions added or changed as well; and a
    list without duplicates stays without duplicates. *)
Theorem category_list_stays_complete s :
  let complete s0 :=
    Forall (fun t => In (category t) (Ledger.categories s0)) (transactions s0) in
  (forall now today batch,
      let s' := importTransactions showNumber now today batch s in
      (forall c, In c (Ledger.categories s) -> In c (Ledger.categories s'))
      /\ (complete s -> complete s')
      /\ (NoDup (Ledger.categories s) -> NoDup (Ledger.categories s')))
  /\ (forall transactionId newCategory w,
      exists s' w',
        updateCategory transactionId newCategory s w = (Returned s', w')
        /\ (forall c, In c (Ledger.categories s) -> In c (Ledger.categories s'))
        /\ (complete s -> complete s')
        /\ (NoDup (Ledger.categories s) -> NoDup (Ledger.categories s'))).
Proof.
  intros complete. split.
  - intros now today batch s'.
    pose proof (importTransactions_categories now today batch s) as Hcats.
    pose proof (importTransactions_transactions showNumber now today batch s) as Htxs.
    fold s' in Hcats, Htxs. cbv zeta in Hcats.
    set (unique := List.filter _ batch) in *.
    set (newCategories := List.filter _ (distinct [] (map category unique))) in *.
    assert (Hnew : forall c, In c newCategories <->
                             In c (map category unique) /\ ~ In c (Ledger.categories s)).
    { intros c. unfold newCategories. rewrite filter_In, In_distinct, negb_true_iff.
      rewrite existsb_eqb_not_In. simpl. tauto. }
    assert (Hgrow : forall c, In c (Ledger.categories s) -> In c (Ledger.categories s')).
    { intros c Hc. rewrite Hcats. destruct unique, newCategories; try exact Hc.
      apply In_sortBy, in_or_app. now left. }
    split; [exact Hgrow |]. split.
    + unfold complete. rewrite Htxs. intros Hall. apply Forall_app. split.
      * eapply List.Forall_impl; [| exact Hall]. intros t. apply Hgrow.
      * apply List.Forall_forall. intros t Ht.
        assert (Hcat : In (category t) (map category unique)).
        { rewrite <- (numbered_categories now unique 0). now apply in_map. }
        destruct (in_dec String.string_dec (category t) (Ledger.categories s))
          as [Hold | Hfresh]; [now apply Hgrow |].
        assert (Hin : In (category t) newCategories) by (apply Hnew; auto).
        rewrite Hcats. destruct unique as [| u us]; [destruct Hcat |].
        destruct newCategories as [| c cs]; [destruct Hin |].
        apply In_sortBy, in_or_app. now right.
    + intros Hnd. rewrite Hcats. destruct unique as [| u us]; [exact Hnd |].
      destruct newCategories as [| c cs] eqn:E; [exact Hnd |].
      rewrite (sortBy_perm String.leb). rewrite <- E in *.
      apply NoDup_app. split; [exact Hnd |]. split.
      * intros x Hx Hx'. apply list_elem_of_In in Hx, Hx'. apply Hnew in Hx'. tauto.
      * unfold newCategories. apply NoDup_List_filter, NoDup_distinct.
  - intros transactionId newCategory w.
    destruct (updateCategory_shape transactionId newCategory s w)
      as (s' & w' & Hrun & Hshape).
    exists s', w'. split; [exact Hrun |].
    destruct (List.find _ (transactions s)) as [transaction |]; [| subst s'; auto].
    destruct Hshape as [Htxs Hcats].
    assert (Hgrow : forall c, In c (Ledger.categories s) -> In c (Ledger.categories s')).
    { intros c Hc. rewrite Hcats. destruct (existsb _ _); [exact Hc |].
      apply In_sortBy, in_or_app. now left. }
    assert (Hnew : In newCategory (Ledger.categories s')).
    { rewrite Hcats. destruct (existsb _ _) eqn:E; [now apply existsb_eqb_In |].
      apply In_sortBy, in_or_app. right. now left. }
    split; [exact Hgrow |]. split.
    + unfold complete. rewrite Htxs. intros Hall.
      apply List.Forall_forall. intros t' Ht'. apply in_map_iff in Ht'.
      destruct Ht' as (t & <- & Ht). rewrite List.Forall_forall in Hall.
      unfold recategorise. destruct (String.eqb (id t) transactionId); [exact Hnew |].
      apply Hgrow, Hall, Ht.
    + intros Hnd. rewrite Hcats. destruct (existsb _ _) eqn:E; [exact Hnd |].
      rewrite (sortBy_perm String.leb). apply NoDup_app. split; [exact Hnd |]. split.
      * intros x Hx Hx'. apply list_elem_of_In in Hx, Hx'. destruct Hx' as [<- | []].
        now apply existsb_eqb_not_In in E.
      * repeat constructor. intros H. inversion H.
Qed.

End CategoryListFacts.

(** ** Adding one transaction *)

Section AddFacts.
Import Heuristic CategoryMap Cache Gemini Ledger AddTransaction.
Variable hostnameOf : string -> option string.

Lemma enrich_returns transaction examples w :
  exists out w', enrichTransaction transaction examples w = (Returned out, w').
Proof.
  rewrite enrichTransaction_run. cbv zeta.
  destruct (ruleTableHit _) as [[m c] |]; [eauto |].
  destruct (view w !! _); [eauto |].
  destruct (enrichReply _ _ _); eauto.
Qed.

Lemma orElse_default_nonempty o d : d <> "" -> Js.orElse o d <> "".
Proof.
  intros Hd. destruct o as [x |]; simpl; [| exact Hd].
  destruct (String.eqb x "") eqn:E; [exact Hd |]. now apply String.eqb_neq.
Qed.

Lemma addTransaction_transactions now today t s :
  transactions (addTransaction now today t s) = (transactions s ++ [withId now t])%list.
Proof.
  unfold addTransaction.
  destruct (transactions s) eqn:E;
    [change (transactions (showToast Info ?x)) with (transactions x) |];
    rewrite checkAndAddPoints_transactions; simpl; now rewrite E.
Qed.

Lemma checkAndAddPoints_budgets now today tx s :
  budgets (snd (checkAndAddPoints now today tx s)) = budgets s.
Proof.
  unfold checkAndAddPoints.
  destruct (Points.extractPointsFromDescription _) as [[[| p] |] |]; reflexivity.
Qed.

Lemma addTransaction_categories now today t s :
  Ledger.categories (addTransaction now today t s) = Ledger.categories s.
Proof.
  unfold addTransaction.
  destruct (transactions s);
    [change (Ledger.categories (showToast Info ?x)) with (Ledger.categories x) |];
    now rewrite checkAndAddPoints_categories.
Qed.

(** X30. Adding a transaction from a text never fails, and adds one
    transaction or none. Without a text or an account nothing is done and
    the model is not called. When the text cannot be parsed, the error is
    shown for manual entry and the ledger is not touched. When it can, one
    transaction is handed to the ledger, whatever the enrichment does: it
    goes to the end of the list, for the chosen account, with a merchant
    and a category that are not empty, and it is a transfer exactly when
    its category is "Internal Transfer". The list of categories is not
    extended by it. *)
Theorem add_from_text_adds_one_or_none now today accountId description examples s w :
  (description = "" \/ accountId = "" ->
   handleAdd hostnameOf now today accountId description examples s w
   = (Returned Ignored, w))
  /\ (description <> "" -> accountId <> "" ->
      match parseBasicInfoFromText description w with
      | (Thrown e, w1) =>
          handleAdd hostnameOf now today accountId description examples s w
          = (Returned (ManualMode e), w1)
      | (Returned basicInfo, w1) =>
          exists t s' w2,
            handleAdd hostnameOf now today accountId description examples s w
            = (Returned (Added s'), w2)
            /\ transactions s' = (transactions s ++ [t])%list
            /\ id t = now /\ Ledger.accountId t = accountId
            /\ merchant t <> "" /\ category t <> ""
            /\ (isTransfer t = true <-> category t = "Internal Transfer")
            /\ Ledger.categories s' = Ledger.categories s
            /\ budgets s' = budgets s
      end).
Proof.
  split.
  - intros [-> | ->]; unfold handleAdd; simpl; [reflexivity |].
    now rewrite orb_true_r.
  - intros Hd Ha. unfold handleAdd.
    assert (Hguard : negb (Js.truthy (Some description))
                     || negb (Js.truthy (Some accountId)) = false).
    { simpl. apply String.eqb_neq in Hd, Ha. now rewrite Hd, Ha. }
    rewrite Hguard. unfold tryCatch, bind.
    destruct (parseBasicInfoFromText description w) as [[basicInfo | e] w1];
      [| reflexivity].
    set (tx := {| pt_merchant := None; pt_amount := fst (fst basicInfo);
                  pt_category := None; pt_type := snd basicInfo;
                  pt_date := today; pt_description := snd (fst basicInfo) |}).
    destruct (enrich_returns tx examples w1) as (out & w2 & Hrun).
    rewrite Hrun.
    exists (withId now (newTransactionOf hostnameOf accountId out)).
    eexists. exists w2. split; [reflexivity |].
    split; [apply addTransaction_transactions |].
    split; [reflexivity |]. split; [reflexivity |].
    split; [simpl; repeat apply orElse_default_nonempty; discriminate |].
    split; [simpl; apply orElse_default_nonempty; discriminate |].
    split.
    + simpl. destruct (et_category out) as [c |]; simpl.
      * destruct (String.eqb c "") eqn:E.
        -- apply String.eqb_eq in E. subst c. simpl. split; discriminate.
        -- apply String.eqb_eq.
      * split; discriminate.
    + split; [apply addTransaction_categories |].
      unfold addTransaction.
      destruct (transactions s);
        [change (budgets (showToast Info ?x)) with (budgets x) |];
        now rewrite checkAndAddPoints_budgets.
Qed.

End AddFacts.

Lemma add_from_text_adds_one_or_none_witness :
  let s0 := {| Ledger.transactions := []; Ledger.categories := ["Other"];
               Ledger.budgets := []; Ledger.loyaltyCards := [];
               Ledger.categorizationExamples := [];
               Ledger.notification := Ledger.NoToast |} in
  AddTransaction.handleAdd (fun _ => None) "now" "2025-11-17" "acc-1"
                           "spent 250 at Naivas" [] s0 (freshWorld silentRemote)
  = (Returned (AddTransaction.ManualMode
       "AI could not understand the transaction text. Please enter the details manually."),
     countRemoteCall (sleep 2000 (countRemoteCall (sleep 1000 (countRemoteCall
       (sleep 500 (countRemoteCall (freshWorld silentRemote)))))))).
Proof.
  intros s0.
  pose proof (proj2 (add_from_text_adds_one_or_none (fun _ => None) "now" "2025-11-17"
                       "acc-1" "spent 250 at Naivas" [] s0 (freshWorld silentRemote)))
    as H.
  apply H; discriminate.
Defined.
